(** * SmartCache: a shallow embedding of [caching/smart_cache_demo.py]

    The development follows the class [SmartCache] method by method.
    Python strings are sequences of code points; the embedding covers the
    code points below 256 (one [ascii] each).  The digest, the key
    serialisation, the similarity ratio and the key-value server are
    written out so that every definition evaluates on concrete requests.
    The statistics are floats, kept as the rationals that doubles stand
    for; a response is of any type that comes with its JSON reading, the
    Python values of [pyval] being one. *)

From Stdlib Require Import ZArith QArith Ascii String List Bool Lia Lqa DecimalString.
From stdpp Require Import base option list strings gmap.

Local Open Scope string_scope.
Local Open Scope Z_scope.

(** ** Text: [str.lower], [str.strip], [str.replace], [str.encode] *)

Module Text.

Definition code (c : ascii) : Z := Z.of_N (N_of_ascii c).
Definition chr (z : Z) : ascii := ascii_of_N (Z.to_N z).

Definition between (lo hi z : Z) : bool := (lo <=? z) && (z <=? hi).

(** [str.isspace] on one code point below 256. *)
Definition isspace (c : ascii) : bool :=
  let z := code c in
  between 9 13 z || between 28 32 z || (z =? 133) || (z =? 160).

(** [str.lower] on one code point below 256: A-Z, and the Latin-1 capitals
    U+00C0..U+00DE except the multiplication sign U+00D7. *)
Definition lower_char (c : ascii) : ascii :=
  let z := code c in
  if between 65 90 z || (between 192 222 z && negb (z =? 215))
  then chr (z + 32) else c.

Fixpoint lower (s : string) : string :=
  match s with
  | EmptyString => EmptyString
  | String c s' => String (lower_char c) (lower s')
  end.

Fixpoint lstrip (s : string) : string :=
  match s with
  | EmptyString => EmptyString
  | String c s' => if isspace c then lstrip s' else s
  end.

(** The trailing part of [str.strip]: a character is dropped when it is
    white space and everything after it has been dropped. *)
Fixpoint rstrip (s : string) : string :=
  match s with
  | EmptyString => EmptyString
  | String c s' =>
      match rstrip s' with
      | EmptyString => if isspace c then EmptyString else String c EmptyString
      | t => String c t
      end
  end.

Definition strip (s : string) : string := rstrip (lstrip s).

(** [s.replace(old, new)] for a one-character [old]. *)
Fixpoint replace (old : ascii) (new : string) (s : string) : string :=
  match s with
  | EmptyString => EmptyString
  | String c s' =>
      if Ascii.eqb c old then new +:+ replace old new s'
      else String c (replace old new s')
  end.

(** [s.encode()]: UTF-8, one byte below 128 and two bytes from 128 to 255. *)
Fixpoint encode (s : string) : list Z :=
  match s with
  | EmptyString => []
  | String c s' =>
      let z := code c in
      if z <? 128 then z :: encode s'
      else Z.lor 192 (Z.shiftr z 6) :: Z.lor 128 (Z.land z 63) :: encode s'
  end.

(** [s[:n]] *)
Fixpoint take (n : nat) (s : string) : string :=
  match n, s with
  | S n', String c s' => String c (take n' s')
  | _, _ => EmptyString
  end.

Definition hexdigit (z : Z) : ascii :=
  if z <? 10 then chr (48 + z) else chr (87 + z).

Definition hexbyte (z : Z) : string :=
  String (hexdigit (Z.shiftr z 4)) (String (hexdigit (Z.land z 15)) EmptyString).

Fixpoint hex (bs : list Z) : string :=
  match bs with
  | [] => EmptyString
  | b :: bs' => hexbyte b +:+ hex bs'
  end.

End Text.

(** ** [hashlib.md5]: RFC 1321 on 32-bit words kept in [Z] *)

Module MD5.

Definition mask32 : Z := 0xffffffff.
Definition add32 (x y : Z) : Z := Z.land (x + y) mask32.
Definition not32 (x : Z) : Z := Z.lxor x mask32.
Definition rotl32 (x : Z) (n : Z) : Z :=
  Z.land (Z.lor (Z.shiftl x n) (Z.shiftr x (32 - n))) mask32.

Definition K : list Z :=
  [ 0xd76aa478; 0xe8c7b756; 0x242070db; 0xc1bdceee;
    0xf57c0faf; 0x4787c62a; 0xa8304613; 0xfd469501;
    0x698098d8; 0x8b44f7af; 0xffff5bb1; 0x895cd7be;
    0x6b901122; 0xfd987193; 0xa679438e; 0x49b40821;
    0xf61e2562; 0xc040b340; 0x265e5a51; 0xe9b6c7aa;
    0xd62f105d; 0x02441453; 0xd8a1e681; 0xe7d3fbc8;
    0x21e1cde6; 0xc33707d6; 0xf4d50d87; 0x455a14ed;
    0xa9e3e905; 0xfcefa3f8; 0x676f02d9; 0x8d2a4c8a;
    0xfffa3942; 0x8771f681; 0x6d9d6122; 0xfde5380c;
    0xa4beea44; 0x4bdecfa9; 0xf6bb4b60; 0xbebfbc70;
    0x289b7ec6; 0xeaa127fa; 0xd4ef3085; 0x04881d05;
    0xd9d4d039; 0xe6db99e5; 0x1fa27cf8; 0xc4ac5665;
    0xf4292244; 0x432aff97; 0xab9423a7; 0xfc93a039;
    0x655b59c3; 0x8f0ccc92; 0xffeff47d; 0x85845dd1;
    0x6fa87e4f; 0xfe2ce6e0; 0xa3014314; 0x4e0811a1;
    0xf7537e82; 0xbd3af235; 0x2ad7d2bb; 0xeb86d391 ].

Definition S : list Z :=
  [ 7; 12; 17; 22; 7; 12; 17; 22; 7; 12; 17; 22; 7; 12; 17; 22;
    5; 9; 14; 20; 5; 9; 14; 20; 5; 9; 14; 20; 5; 9; 14; 20;
    4; 11; 16; 23; 4; 11; 16; 23; 4; 11; 16; 23; 4; 11; 16; 23;
    6; 10; 15; 21; 6; 10; 15; 21; 6; 10; 15; 21; 6; 10; 15; 21 ].

Definition nthZ (l : list Z) (i : nat) : Z := nth i l 0.

(** Little-endian bytes of a word, and back. *)
Fixpoint le_bytes (n : nat) (x : Z) : list Z :=
  match n with
  | O => []
  | Datatypes.S n' => Z.land x 255 :: le_bytes n' (Z.shiftr x 8)
  end.

Fixpoint le_word (bs : list Z) : Z :=
  match bs with
  | [] => 0
  | b :: bs' => Z.lor b (Z.shiftl (le_word bs') 8)
  end.

(** The message followed by 0x80, zeros up to 56 modulo 64, and the bit
    length on eight bytes. *)
Definition pad (msg : list Z) : list Z :=
  let len := Z.of_nat (length msg) in
  let zeros := Z.to_nat ((55 - len) mod 64) in
  msg ++ 128 :: repeat 0 zeros ++ le_bytes 8 (Z.land (8 * len) 0xffffffffffffffff).

Fixpoint words (n : nat) (bs : list Z) : list Z :=
  match n with
  | O => []
  | Datatypes.S n' => le_word (firstn 4 bs) :: words n' (skipn 4 bs)
  end.

Record regs := Regs { rA : Z; rB : Z; rC : Z; rD : Z }.

Definition round (M : list Z) (r : regs) (i : nat) : regs :=
  let '(Regs a b c d) := r in
  let '(f, g) :=
    match Nat.div i 16 with
    | 0%nat => (Z.lor (Z.land b c) (Z.land (not32 b) d), i)
    | 1%nat => (Z.lor (Z.land d b) (Z.land (not32 d) c), Nat.modulo (5 * i + 1) 16)
    | 2%nat => (Z.lxor (Z.lxor b c) d, Nat.modulo (3 * i + 5) 16)
    | _ => (Z.lxor c (Z.lor b (not32 d)), Nat.modulo (7 * i) 16)
    end in
  let f' := add32 (add32 (add32 f a) (nthZ K i)) (nthZ M g) in
  Regs d (add32 b (rotl32 f' (nthZ S i))) b c.

Definition chunk (r : regs) (bs : list Z) : regs :=
  let M := words 16 bs in
  let '(Regs a b c d) := fold_left (round M) (seq 0 64) r in
  Regs (add32 (rA r) a) (add32 (rB r) b) (add32 (rC r) c) (add32 (rD r) d).

Fixpoint chunks (n : nat) (r : regs) (bs : list Z) : regs :=
  match n with
  | O => r
  | Datatypes.S n' => chunks n' (chunk r (firstn 64 bs)) (skipn 64 bs)
  end.

Definition digest (msg : list Z) : list Z :=
  let p := pad msg in
  let '(Regs a b c d) :=
    chunks (Nat.div (length p) 64) (Regs 0x67452301 0xefcdab89 0x98badcfe 0x10325476) p in
  le_bytes 4 a ++ le_bytes 4 b ++ le_bytes 4 c ++ le_bytes 4 d.

(** [hashlib.md5(s.encode()).hexdigest()] *)
Definition hexdigest (s : string) : string := Text.hex (digest (Text.encode s)).

End MD5.

(** ** [json.dumps(..., sort_keys=True)] of the request *)

Module Json.

Definition hex4 (z : Z) : string :=
  Text.hexbyte (Z.shiftr z 8) +:+ Text.hexbyte (Z.land z 255).

(** One character of a JSON string with [ensure_ascii]: the short escapes,
    and [\uXXXX] for everything outside the printable ASCII range. *)
Definition escape_char (c : ascii) : string :=
  let z := Text.code c in
  if z =? 34 then "\" +:+ String c ""
  else if z =? 92 then "\\"
  else if z =? 10 then "\n"
  else if z =? 13 then "\r"
  else if z =? 9 then "\t"
  else if z =? 8 then "\b"
  else if z =? 12 then "\f"
  else if Text.between 32 126 z then String c ""
  else "\u" +:+ hex4 z.

Fixpoint escape (s : string) : string :=
  match s with
  | EmptyString => EmptyString
  | String c s' => escape_char c +:+ escape s'
  end.

Definition quote : string := String (Text.chr 34) "".

Definition dumps_str (s : string) : string := quote +:+ escape s +:+ quote.

Definition dumps_int (z : Z) : string := NilZero.string_of_int (Z.to_int z).

Definition dumps_key (k : string) : string := dumps_str k +:+ ": ".

Fixpoint join (sep : string) (l : list string) : string :=
  match l with
  | [] => ""
  | [x] => x
  | x :: l' => x +:+ sep +:+ join sep l'
  end.

End Json.

(** ** [difflib.SequenceMatcher(None, a, b).ratio()] *)

Module Difflib.

Section Matcher.

Variables a b : list ascii.

Definition elt (l : list ascii) (i : nat) : ascii := nth i l Ascii.zero.

Definition occurrences (c : ascii) : list nat :=
  List.filter (fun j => Ascii.eqb (elt b j) c) (seq 0 (length b)).

(** With [autojunk], an element of a [b] of 200 or more elements that
    occurs more than once per hundred (plus one) is dropped from [b2j]. *)
Definition popular (c : ascii) : bool :=
  (200 <=? length b)%nat &&
  (Nat.div (length b) 100 + 1 <? length (occurrences c))%nat.

Definition b2j (c : ascii) : list nat :=
  if popular c then [] else occurrences c.

Definition j2lenget (j2len : gmap nat nat) (j : nat) : nat :=
  match j with
  | O => O
  | Datatypes.S j' => default O (j2len !! j')
  end.

Definition scan_j (i blo bhi : nat) (j2len : gmap nat nat)
    (st : (nat * nat * nat) * gmap nat nat) (j : nat) :=
  let '((besti, bestj, bestsize), newj2len) := st in
  if (j <? blo)%nat then st
  else if (bhi <=? j)%nat then st
  else
    let k := (j2lenget j2len j + 1)%nat in
    ((if (bestsize <? k)%nat then ((i + 1 - k)%nat, (j + 1 - k)%nat, k)
      else (besti, bestj, bestsize)),
     <[j := k]> newj2len).

Definition scan_i (blo bhi : nat)
    (st : (nat * nat * nat) * gmap nat nat) (i : nat) :=
  let '(best, j2len) := st in
  fold_left (scan_j i blo bhi j2len) (b2j (elt a i)) (best, ∅).

Fixpoint extend_left (fuel alo blo besti bestj bestsize : nat) : nat * nat * nat :=
  match fuel with
  | O => (besti, bestj, bestsize)
  | Datatypes.S fuel' =>
      if (alo <? besti)%nat && (blo <? bestj)%nat
         && Ascii.eqb (elt a (besti - 1)) (elt b (bestj - 1))
      then extend_left fuel' alo blo (besti - 1)%nat (bestj - 1)%nat (bestsize + 1)%nat
      else (besti, bestj, bestsize)
  end.

Fixpoint extend_right (fuel ahi bhi besti bestj bestsize : nat) : nat :=
  match fuel with
  | O => bestsize
  | Datatypes.S fuel' =>
      if (besti + bestsize <? ahi)%nat && (bestj + bestsize <? bhi)%nat
         && Ascii.eqb (elt a (besti + bestsize)) (elt b (bestj + bestsize))
      then extend_right fuel' ahi bhi besti bestj (bestsize + 1)%nat
      else bestsize
  end.

Definition find_longest_match (alo ahi blo bhi : nat) : nat * nat * nat :=
  let '((besti, bestj, bestsize), _) :=
    fold_left (scan_i blo bhi) (seq alo (ahi - alo)) ((alo, blo, O), ∅) in
  let '(besti, bestj, bestsize) :=
    extend_left besti alo blo besti bestj bestsize in
  (besti, bestj, extend_right ahi ahi bhi besti bestj bestsize).

(** The total size of the blocks of [get_matching_blocks]: the longest
    match of the window, then the windows to its left and to its right. *)
Fixpoint matches (fuel alo ahi blo bhi : nat) : nat :=
  match fuel with
  | O => O
  | Datatypes.S fuel' =>
      let '(i, j, k) := find_longest_match alo ahi blo bhi in
      if (k =? 0)%nat then O
      else
        (k
         + (if (alo <? i)%nat && (blo <? j)%nat then matches fuel' alo i blo j else O)
         + (if (i + k <? ahi)%nat && (j + k <? bhi)%nat
            then matches fuel' (i + k) ahi (j + k) bhi else O))%nat
  end.

Definition total_matches : nat :=
  matches (Datatypes.S (length a)) 0 (length a) 0 (length b).

End Matcher.

(** [2.0 * matches / length], and [1.0] when both strings are empty; the
    quotient is kept exact. *)
Definition ratio (x y : string) : Q :=
  let a := list_ascii_of_string x in
  let b := list_ascii_of_string y in
  let len := (length a + length b)%nat in
  if (len =? 0)%nat then 1%Q
  else Qmake (2 * Z.of_nat (total_matches a b)) (Pos.of_nat len).

End Difflib.

(** ** The glob patterns of the server's [KEYS] command *)

Module Glob.

Definition in_range (lo hi c : ascii) : bool :=
  let l := Text.code lo in
  let h := Text.code hi in
  let z := Text.code c in
  Text.between (Z.min l h) (Z.max l h) z.

(** The inside of a bracket class: whether [c] is listed, and the pattern
    after the closing bracket. *)
Fixpoint class_match (c : ascii) (p : list ascii) (m : bool) : bool * list ascii :=
  match p with
  | [] => (m, [])
  | x :: p1 =>
      if Ascii.eqb x "\" then
        match p1 with
        | y :: p2 => class_match c p2 (m || Ascii.eqb y c)
        | [] => (m || Ascii.eqb x c, [])
        end
      else if Ascii.eqb x "]" then (m, p1)
      else
        match p1 with
        | d :: hi :: p3 =>
            if Ascii.eqb d "-" then class_match c p3 (m || in_range x hi c)
            else class_match c p1 (m || Ascii.eqb x c)
        | _ => class_match c p1 (m || Ascii.eqb x c)
        end
  end.

Fixpoint glob (fuel : nat) (p s : list ascii) : bool :=
  match fuel with
  | O => false
  | S fuel' =>
      match p with
      | [] => match s with [] => true | _ => false end
      | x :: p1 =>
          if Ascii.eqb x "*" then
            (fix star (t : list ascii) : bool :=
               glob fuel' p1 t
               || match t with [] => false | _ :: t' => star t' end) s
          else
            match s with
            | [] => false
            | c :: s1 =>
                if Ascii.eqb x "?" then glob fuel' p1 s1
                else if Ascii.eqb x "[" then
                  let '(neg, p2) :=
                    match p1 with
                    | y :: p2 => if Ascii.eqb y "^" then (true, p2) else (false, p1)
                    | [] => (false, p1)
                    end in
                  let '(m, p3) := class_match c p2 false in
                  xorb neg m && glob fuel' p3 s1
                else if Ascii.eqb x "\" then
                  match p1 with
                  | y :: p2 => Ascii.eqb y c && glob fuel' p2 s1
                  | [] => Ascii.eqb x c && glob fuel' p1 s1
                  end
                else Ascii.eqb x c && glob fuel' p1 s1
            end
      end
  end.

Definition matches (pattern key : string) : bool :=
  let p := list_ascii_of_string pattern in
  glob (S (length p)) p (list_ascii_of_string key).

End Glob.

(** ** Exceptions and state

    A method is a function from the state of the world to an outcome and
    the next state.  What a computation did before it raised stays done. *)

Inductive outcome (A : Type) : Type :=
| Returned (a : A)
| Raised.

Arguments Returned {A} a.
Arguments Raised {A}.

Definition M (St A : Type) : Type := St -> outcome A * St.

Definition ret {St A} (a : A) : M St A := fun s => (Returned a, s).

Definition bind {St A B} (c : M St A) (k : A -> M St B) : M St B :=
  fun s =>
    match c s with
    | (Returned a, s') => k a s'
    | (Raised, s') => (Raised, s')
    end.

(** [try: body / except: handler] with a bare [except]. *)
Definition try_except {St A} (body handler : M St A) : M St A :=
  fun s =>
    match body s with
    | (Returned a, s') => (Returned a, s')
    | (Raised, s') => handler s'
    end.

Notation "x <- c ;; k" := (bind c (fun x => k))
  (at level 100, c at next level, right associativity).
Notation "c ;;; k" := (bind c (fun _ => k))
  (at level 100, right associativity).

Fixpoint for_each {St A B} (body : B -> A -> M St B) (xs : list A) (acc : B) : M St B :=
  match xs with
  | [] => ret acc
  | x :: xs' => acc' <- body acc x ;; for_each body xs' acc'
  end.

(** A computation keeps a relation between the state it starts from and
    the state it leaves, whether it returns or raises; a computation
    returns when it raises from no state. *)
Definition preserves {St A} (P : St -> St -> Prop) (c : M St A) : Prop :=
  forall s, P s (snd (c s)).

Definition returns {St A} (c : M St A) : Prop :=
  forall s, exists a, fst (c s) = Returned a.

(** ** The key-value server behind [redis.Redis]

    A key holds a string or a hash, and may carry an expiry time; a key
    whose time has come is invisible to every command.  String values are
    the JSON documents that [_store_in_cache] writes, kept as the value
    [doc] that [json.loads] reads from them.  The order of the bindings is
    the order in which [KEYS] enumerates them; the server promises none,
    and what is proved of a scan is proved for every keyspace, whatever
    its order. *)

Module Redis.

Section Server.

Context {doc : Type}.

Inductive value : Type :=
| Str (d : doc)
| Hash (fields : gmap string string).

Record entry := Entry { content : value; expire_at : option Z }.

Definition live (now : Z) (e : entry) : bool :=
  match expire_at e with
  | None => true
  | Some t => now <? t
  end.

Definition keyspace := list (string * entry).

Fixpoint find (k : string) (d : keyspace) : option entry :=
  match d with
  | [] => None
  | (k', e) :: d' => if String.eqb k k' then Some e else find k d'
  end.

Definition lookup (now : Z) (k : string) (d : keyspace) : option entry :=
  match find k d with
  | Some e => if live now e then Some e else None
  | None => None
  end.

Definition remove (k : string) (d : keyspace) : keyspace :=
  List.filter (fun kv => negb (String.eqb k (fst kv))) d.

Definition store (k : string) (e : entry) (d : keyspace) : keyspace :=
  (k, e) :: remove k d.

(** A command reads the clock and the keyspace; it answers or it is
    refused with an error reply, which the client raises. *)
Definition command (A : Type) := Z -> keyspace -> outcome A * keyspace.

Definition GET (k : string) : command (option doc) :=
  fun now d =>
    match lookup now k d with
    | None => (Returned None, d)
    | Some (Entry (Str v) _) => (Returned (Some v), d)
    | Some (Entry (Hash _) _) => (Raised, d)
    end.

(** The server counts time in milliseconds on 64 bits: a number of
    seconds beyond [max_seconds], or an expiry time beyond [max_time], is
    refused with an error reply. *)
Definition max_time : Z := 9223372036854775807.

Definition max_seconds : Z := 9223372036854775.

Definition in_range (now ttl : Z) : bool :=
  (- max_seconds <=? ttl) && (ttl <=? max_seconds)
  && (ttl * 1000 <=? max_time - now * 1000).

(** [SETEX] refuses an expiry that is not positive, or out of range. *)
Definition valid_expiry (now ttl : Z) : bool := (0 <? ttl) && in_range now ttl.

Definition SETEX (k : string) (ttl : Z) (v : doc) : command unit :=
  fun now d =>
    if valid_expiry now ttl
    then (Returned tt, store k (Entry (Str v) (Some (now + ttl))) d)
    else (Raised, d).

Definition HSET (k : string) (mapping : list (string * string)) : command unit :=
  fun now d =>
    match lookup now k d with
    | None => (Returned tt, store k (Entry (Hash (list_to_map mapping)) None) d)
    | Some (Entry (Hash h) t) =>
        (Returned tt, store k (Entry (Hash (list_to_map mapping ∪ h)) t) d)
    | Some (Entry (Str _) _) => (Raised, d)
    end.

Definition HGET (k field : string) : command (option string) :=
  fun now d =>
    match lookup now k d with
    | None => (Returned None, d)
    | Some (Entry (Hash h) _) => (Returned (h !! field), d)
    | Some (Entry (Str _) _) => (Raised, d)
    end.

(** [EXPIRE] refuses a timeout out of range; one that is not positive
    deletes the key. *)
Definition EXPIRE (k : string) (ttl : Z) : command bool :=
  fun now d =>
    if negb (in_range now ttl) then (Raised, d)
    else
      match lookup now k d with
      | None => (Returned false, d)
      | Some (Entry v _) =>
          if ttl <=? 0 then (Returned true, remove k d)
          else (Returned true, store k (Entry v (Some (now + ttl))) d)
      end.

Definition KEYS (pattern : string) : command (list string) :=
  fun now d =>
    (Returned
       (map fst (List.filter (fun kv => live now (snd kv) && Glob.matches pattern (fst kv)) d)),
     d).

Definition PING : command unit := fun now d => (Returned tt, d).

(** The connection: the server's keyspace, and for each command still to
    be sent whether it fails on the way (refused connection, timeout); a
    command that fails leaves the keyspace as it was. *)
Record conn := Conn { db : keyspace; faults : list bool }.

Definition call {A} (cmd : command A) (now : Z) (c : conn) : outcome A * conn :=
  match faults c with
  | true :: fs => (Raised, Conn (db c) fs)
  | false :: fs => let '(o, d) := cmd now (db c) in (o, Conn d fs)
  | [] => let '(o, d) := cmd now (db c) in (o, Conn d [])
  end.

Definition healthy (c : conn) : Prop := Forall (fun b => b = false) (faults c).

End Server.

Arguments value doc : clear implicits.
Arguments entry doc : clear implicits.
Arguments keyspace doc : clear implicits.
Arguments command doc A : clear implicits.
Arguments conn doc : clear implicits.

End Redis.

(** ** Floats

    A float is kept as the rational it stands for.  An operation on floats
    gives the double nearest to the exact result, ties going to the even
    mantissa; numbers beyond the range of the normal doubles are left
    out. *)

Module Float.

(** The integer nearest to [n / d], for [d] positive; a tie goes to the
    even one. *)
Definition nearest (n d : Z) : Z :=
  let q := n / d in
  let r := n mod d in
  match 2 * r ?= d with
  | Lt => q
  | Gt => q + 1
  | Eq => if Z.even q then q else q + 1
  end.

(** [2 ^ l <= n / d] *)
Definition reaches (l n d : Z) : bool :=
  if 0 <=? l then d * 2 ^ l <=? n else d <=? n * 2 ^ (- l).

(** The binary exponent of [n / d], for [n] and [d] positive. *)
Definition exponent (n d : Z) : Z :=
  let l := Z.log2 n - Z.log2 d in
  if reaches l n d then l else l - 1.

(** The double nearest to [n / d]: a mantissa of 53 bits. *)
Definition nearest_double (n d : Z) : Q :=
  let e := exponent n d - 52 in
  if 0 <=? e then inject_Z (nearest n (d * 2 ^ e) * 2 ^ e)
  else Qmake (nearest (n * 2 ^ (- e)) d) (Z.to_pos (2 ^ (- e))).

Definition fl (q : Q) : Q :=
  match Qnum q with
  | Z0 => 0%Q
  | Zpos n => nearest_double (Zpos n) (Zpos (Qden q))
  | Zneg n => Qopp (nearest_double (Zpos n) (Zpos (Qden q)))
  end.

(** [round(x, ndigits)] of a float: the decimal with [ndigits] digits
    nearest to [x], ties to the even digit, and then the double nearest to
    that decimal. *)
Definition round (x : Q) (ndigits : nat) : Q :=
  let p := 10 ^ Z.of_nat ndigits in
  fl (Qmake (nearest (Qnum x * p) (Zpos (Qden x))) (Z.to_pos p)).

End Float.

(** ** [json.dumps] and [json.loads] of a response

    On its way to the server an entry goes through [json.dumps], which
    raises [TypeError] on a value it has no encoding for, and on its way
    back through [json.loads], which builds lists, dicts, strings and
    numbers only: a tuple comes back as a list.  A type of responses comes
    with its [json_reading]: what [json.loads] makes of the text that
    [json.dumps] writes of a response, and [None] when [json.dumps]
    raises. *)

Class Json_reading (response : Type) := json_reading : response -> option response.

(** Python values of which a response is made; the keys of a dict are
    strings, each bound once.  Floats are left out. *)
#[local] Set Warnings "-register-all".

Inductive pyval : Type :=
| PNone
| PBool (b : bool)
| PInt (z : Z)
| PStr (s : string)
| PList (items : list pyval)
| PTuple (items : list pyval)
| PDict (items : list (string * pyval))
| PBytes (s : string).

Fixpoint pyval_reading (v : pyval) : option pyval :=
  match v with
  | PNone | PBool _ | PInt _ | PStr _ => Some v
  | PList items | PTuple items =>
      option_map PList
        ((fix each (l : list pyval) : option (list pyval) :=
            match l with
            | [] => Some []
            | x :: l' =>
                match pyval_reading x, each l' with
                | Some y, Some r => Some (y :: r)
                | _, _ => None
                end
            end) items)
  | PDict items =>
      option_map PDict
        ((fix each (l : list (string * pyval)) : option (list (string * pyval)) :=
            match l with
            | [] => Some []
            | (k, x) :: l' =>
                match pyval_reading x, each l' with
                | Some y, Some r => Some ((k, y) :: r)
                | _, _ => None
                end
            end) items)
  | PBytes _ => None
  end.

#[global] Instance pyval_json : Json_reading pyval := pyval_reading.

(** A value made of what JSON has: no tuple, nothing without an encoding. *)
Fixpoint is_json (v : pyval) : bool :=
  match v with
  | PNone | PBool _ | PInt _ | PStr _ => true
  | PList items => forallb is_json items
  | PDict items => forallb (fun kv => is_json (snd kv)) items
  | PTuple _ | PBytes _ => false
  end.

(** A response that is a [str] reads back as it was written. *)
#[global] Instance string_json : Json_reading string := Some.

(** ** The class [SmartCache] *)

(** A chat message: a dict with a ["role"] and a ["content"], either of
    which may be missing. *)
Record message := Message { role : option string; content : option string }.

(** [datetime.now().isoformat()], reduced to a rendering of the clock. *)
Definition isoformat (now : Z) : string := Json.dumps_int now.

Definition Qlt_bool (x y : Q) : bool := negb (Qle_bool y x).

Section SmartCache.

Context {response : Type} {json : Json_reading response}.

(** The dict built by [cache_response]; [cache_type] is the key that
    [get_cached_response] adds to what it returns. *)
Record cache_entry := CacheEntry {
  e_response : response;
  e_timestamp : string;
  e_model_id : string;
  e_ttl : Z;
  e_cache_type : option string
}.

Record stats := Stats {
  hits : Z;
  misses : Z;
  total_requests : Z;
  cost_savings : Q
}.

(** The instance and its surroundings.  Dicts are objects: [heap] holds
    them, a reference is an index into it, and [memory_cache] maps a key
    to a reference.  [clock] is the time of day, in seconds. *)
Record SmartCache := Self {
  cache_available : bool;
  redis : Redis.conn cache_entry;
  memory_cache : gmap string nat;
  heap : list cache_entry;
  cache_stats : stats;
  clock : Z
}.

Definition Method (A : Type) : Type := M SmartCache A.

Definition set_redis (c : Redis.conn cache_entry) (s : SmartCache) : SmartCache :=
  Self (cache_available s) c (memory_cache s) (heap s) (cache_stats s) (clock s).

Definition set_memory_cache (m : gmap string nat) (s : SmartCache) : SmartCache :=
  Self (cache_available s) (redis s) m (heap s) (cache_stats s) (clock s).

Definition set_heap (h : list cache_entry) (s : SmartCache) : SmartCache :=
  Self (cache_available s) (redis s) (memory_cache s) h (cache_stats s) (clock s).

Definition set_cache_stats (st : stats) (s : SmartCache) : SmartCache :=
  Self (cache_available s) (redis s) (memory_cache s) (heap s) st (clock s).

Definition set_clock (t : Z) (s : SmartCache) : SmartCache :=
  Self (cache_available s) (redis s) (memory_cache s) (heap s) (cache_stats s) t.

(** Sending one command over [self.redis]. *)
Definition redis_call {A} (cmd : Redis.command cache_entry A) : Method A :=
  fun s =>
    let '(o, c) := Redis.call cmd (clock s) (redis s) in (o, set_redis c s).

(** A new dict object. *)
Definition new_dict (e : cache_entry) : Method nat :=
  fun s => (Returned (length (heap s)), set_heap (heap s ++ [e]) s).

(** [d['cache_type'] = tag] on the object behind a reference (a reference
    always points into the heap). *)
Definition with_cache_type (tag : string) (e : cache_entry) : cache_entry :=
  CacheEntry (e_response e) (e_timestamp e) (e_model_id e) (e_ttl e) (Some tag).

Definition set_cache_type (l : nat) (tag : string) : Method unit :=
  fun s => (Returned tt, set_heap (alter (with_cache_type tag) l (heap s)) s).

Definition incr_hits : Method unit :=
  fun s =>
    let st := cache_stats s in
    (Returned tt,
     set_cache_stats (Stats (hits st + 1) (misses st) (total_requests st) (cost_savings st)) s).

Definition incr_misses : Method unit :=
  fun s =>
    let st := cache_stats s in
    (Returned tt,
     set_cache_stats (Stats (hits st) (misses st + 1) (total_requests st) (cost_savings st)) s).

Definition incr_total_requests : Method unit :=
  fun s =>
    let st := cache_stats s in
    (Returned tt,
     set_cache_stats (Stats (hits st) (misses st) (total_requests st + 1) (cost_savings st)) s).

(** [__init__]: the connection is probed with [PING]; when the probe
    fails the instance keeps its own dict. *)
Definition __init__ (c : Redis.conn cache_entry) (h : list cache_entry) (now : Z) : SmartCache :=
  let '(o, c') := Redis.call Redis.PING now c in
  let available := match o with Returned _ => true | Raised => false end in
  Self available c' ∅ h (Stats 0 0 0 0%Q) now.

Definition dumps_message (m : message) : string :=
  "{" +:+
  Json.join ", "
    ((match content m with
      | Some c => [Json.dumps_key "content" +:+ Json.dumps_str c]
      | None => []
      end) ++
     (match role m with
      | Some r => [Json.dumps_key "role" +:+ Json.dumps_str r]
      | None => []
      end)) +:+
  "}".

(** [json.dumps({'model': ..., 'messages': ..., 'max_tokens': ...},
    sort_keys=True)] *)
Definition dumps_cache_content (model_id : string) (messages : list message)
    (max_tokens : option Z) : string :=
  "{" +:+
  Json.dumps_key "max_tokens" +:+
  (match max_tokens with Some n => Json.dumps_int n | None => "null" end) +:+ ", " +:+
  Json.dumps_key "messages" +:+ "[" +:+ Json.join ", " (map dumps_message messages) +:+ "]" +:+ ", " +:+
  Json.dumps_key "model" +:+ Json.dumps_str model_id +:+
  "}".

Definition _generate_cache_key (model_id : string) (messages : list message)
    (max_tokens : option Z) : string :=
  "claude_cache:" +:+ MD5.hexdigest (dumps_cache_content model_id messages max_tokens).

(** The two normalisation lines of [_generate_semantic_key]. *)
Definition normalize (user_message : string) : string :=
  let normalized := Text.strip (Text.lower user_message) in
  Text.replace "!" "" (Text.replace "." "" (Text.replace "?" "" normalized)).

Definition _generate_semantic_key (user_message : string) : string :=
  "semantic:" +:+ Text.take 12 (MD5.hexdigest (normalize user_message)).

(** [json.dumps(value)] of an entry: the text, kept as the entry that
    [json.loads] reads from it.  The strings and the integer of an entry
    read back as they are. *)
Definition json_dumps (value : cache_entry) : option cache_entry :=
  match json_reading (e_response value) with
  | Some r =>
      Some (CacheEntry r (e_timestamp value) (e_model_id value) (e_ttl value)
              (e_cache_type value))
  | None => None
  end.

(** [json.loads(cached)]: a new dict, filled from the text. *)
Definition json_loads (cached : cache_entry) : Method nat := new_dict cached.

Definition _get_from_cache (key : string) : Method (option nat) :=
  fun s =>
    if cache_available s then
      try_except
        (cached <- redis_call (Redis.GET key) ;;
         match cached with
         | Some text => l <- json_loads text ;; ret (Some l)
         | None => ret None
         end)
        (ret None) s
    else (Returned (memory_cache s !! key), s).

(** [json.dumps] is evaluated before the command is sent: when it raises
    nothing goes to the server. *)
Definition _store_in_cache (key : string) (value : nat) (ttl : Z) : Method unit :=
  fun s =>
    if cache_available s then
      try_except
        (match heap s !! value with
         | Some d =>
             match json_dumps d with
             | Some text => redis_call (Redis.SETEX key ttl text)
             | None => fun s' => (Raised, s')
             end
         | None => fun s' => (Raised, s')
         end)
        (ret tt) s
    else (Returned tt, set_memory_cache (<[key := value]> (memory_cache s)) s).

Definition semantic_index_key (model_id user_message : string) : string :=
  "semantic_index:" +:+ model_id +:+ ":" +:+ Text.take 12 (MD5.hexdigest user_message).

Definition _create_semantic_index (model_id user_message response_key : string) (ttl : Z)
    : Method unit :=
  fun s =>
    if negb (cache_available s) then (Returned tt, s)
    else
      try_except
        (let semantic_key := semantic_index_key model_id user_message in
         redis_call (Redis.HSET semantic_key
                       [("message", user_message);
                        ("response_key", response_key);
                        ("created", isoformat (clock s))]) ;;;
         redis_call (Redis.EXPIRE semantic_key ttl) ;;;
         ret tt)
        (ret tt) s.

Definition nonempty (x : string) : bool :=
  match x with EmptyString => false | _ => true end.

(** One turn of the loop of [_find_similar_cached_response]. *)
Definition scan_key (user_message : string) (threshold : Q)
    (acc : option nat * Q) (key : string) : Method (option nat * Q) :=
  let '(best_match, best_similarity) := acc in
  cached_message <- redis_call (Redis.HGET key "message") ;;
  match cached_message with
  | Some cached_message =>
      if nonempty cached_message then
        let similarity :=
          Difflib.ratio (Text.lower user_message) (Text.lower cached_message) in
        if Qlt_bool best_similarity similarity && Qle_bool threshold similarity then
          response_key <- redis_call (Redis.HGET key "response_key") ;;
          match response_key with
          | Some response_key =>
              if nonempty response_key then
                best_match' <- _get_from_cache response_key ;;
                ret (best_match', similarity)
              else ret (best_match, similarity)
          | None => ret (best_match, similarity)
          end
        else ret acc
      else ret acc
  | None => ret acc
  end.

Definition _find_similar_cached_response (user_message model_id : string) (threshold : Q)
    : Method (option nat) :=
  fun s =>
    if negb (cache_available s) then (Returned None, s)
    else
      try_except
        (let pattern := "semantic_index:" +:+ model_id +:+ ":*" in
         keys <- redis_call (Redis.KEYS pattern) ;;
         best <- for_each (scan_key user_message threshold) (firstn 20 keys) (None, 0%Q) ;;
         ret (fst best))
        (ret None) s.

(** The content of the last message whose role is ["user"]. *)
Fixpoint first_user (msgs : list message) : option string :=
  match msgs with
  | [] => None
  | msg :: msgs' =>
      match role msg with
      | Some r => if String.eqb r "user" then Some (default "" (content msg))
                  else first_user msgs'
      | None => first_user msgs'
      end
  end.

Definition last_user_message (messages : list message) : option string :=
  first_user (rev messages).

Definition get_cached_response (model_id : string) (messages : list message)
    (max_tokens : option Z) (similarity_threshold : Q) : Method (option nat) :=
  incr_total_requests ;;;
  let exact_key := _generate_cache_key model_id messages max_tokens in
  cached <- _get_from_cache exact_key ;;
  match cached with
  | Some cached =>
      incr_hits ;;;
      set_cache_type cached "exact_match" ;;;
      ret (Some cached)
  | None =>
      similar_response <-
        match last_user_message messages with
        | Some user_message =>
            if nonempty user_message then
              _find_similar_cached_response user_message model_id similarity_threshold
            else ret None
        | None => ret None
        end ;;
      match similar_response with
      | Some similar_response =>
          incr_hits ;;;
          set_cache_type similar_response "semantic_match" ;;;
          ret (Some similar_response)
      | None =>
          incr_misses ;;;
          ret None
      end
  end.

Definition cache_response (model_id : string) (messages : list message)
    (response_ : response) (max_tokens : option Z) (ttl : Z) : Method unit :=
  let cache_key := _generate_cache_key model_id messages max_tokens in
  cache_entry_ <-
    (fun s => new_dict (CacheEntry response_ (isoformat (clock s)) model_id ttl None) s) ;;
  _store_in_cache cache_key cache_entry_ ttl ;;;
  match last_user_message messages with
  | Some user_message =>
      if nonempty user_message then
        _create_semantic_index model_id user_message cache_key ttl
      else ret tt
  | None => ret tt
  end.

(** The dict returned by [get_cache_stats]. *)
Record snapshot := Snapshot {
  snap_total_requests : Z;
  cache_hits : Z;
  cache_misses : Z;
  hit_rate_percentage : Q;
  estimated_cost_savings : Q;
  cache_backend : string
}.

(** [hits / total * 100]: the quotient of two integers is the double
    nearest to it, and so is its product with 100. *)
Definition hit_rate (hits total : Z) : Q :=
  if 0 <? total then Float.fl (Float.fl (inject_Z hits / inject_Z total) * 100)%Q else 0%Q.

Definition get_cache_stats : Method snapshot :=
  fun s =>
    let st := cache_stats s in
    let total := total_requests st in
    (Returned
       (Snapshot total (hits st) (misses st)
          (Float.round (hit_rate (hits st) total) 1)
          (Float.round (cost_savings st) 4)
          (if cache_available s then "redis" else "memory")),
     s).

(** Time passing between two calls. *)
Definition tick (d : Z) (s : SmartCache) : SmartCache := set_clock (clock s + d) s.

End SmartCache.

Arguments cache_entry response : clear implicits.
Arguments SmartCache response : clear implicits.
Arguments Method response A : clear implicits.

(** ** Sequences of calls on one instance *)

Section Calls.

Context {response : Type} {json : Json_reading response}.

Inductive op : Type :=
| Get (model_id : string) (messages : list message) (max_tokens : option Z) (threshold : Q)
| Put (model_id : string) (messages : list message) (response_ : response)
      (max_tokens : option Z) (ttl : Z)
| GetStats
| AddSavings (amount : Q)
| Tick (d : Z).

(** [self.cache.cache_stats['cost_savings'] += estimated_cost], done by
    the analyser that owns the cache. *)
Definition add_savings (amount : Q) (s : SmartCache response) : SmartCache response :=
  let st := cache_stats s in
  set_cache_stats (Stats (hits st) (misses st) (total_requests st)
                     (Float.fl (cost_savings st + amount)%Q)) s.

Definition step (o : op) (s : SmartCache response) : SmartCache response :=
  match o with
  | Get model_id messages max_tokens threshold =>
      snd (get_cached_response model_id messages max_tokens threshold s)
  | Put model_id messages response_ max_tokens ttl =>
      snd (cache_response model_id messages response_ max_tokens ttl s)
  | GetStats => snd (get_cache_stats s)
  | AddSavings amount => add_savings amount s
  | Tick d => tick d s
  end.

Definition run (ops : list op) (s : SmartCache response) : SmartCache response :=
  fold_left (fun s o => step o s) ops s.

(** The object stored for a key by the in-process backend. *)
Definition stored_entry (key : string) (s : SmartCache response) : option (cache_entry response) :=
  match memory_cache s !! key with
  | Some l => heap s !! l
  | None => None
  end.

(** What a call gave back: the dict behind the returned reference. *)
Definition returned_entry (r : outcome (option nat) * SmartCache response)
    : option (cache_entry response) :=
  match fst r with
  | Returned (Some l) => heap (snd r) !! l
  | _ => None
  end.

(** The semantic index as a scan sees it: the first twenty live keys of
    the model's pattern, and for each record that carries a message its
    score against the query and its response key. *)
Definition scanned_keys (model_id : string) (now : Z)
    (d : Redis.keyspace (cache_entry response)) : list string :=
  firstn 20
    (map fst
       (List.filter
          (fun kv => Redis.live now (snd kv)
                     && Glob.matches ("semantic_index:" +:+ model_id +:+ ":*") (fst kv)) d)).

Definition record_field (now : Z) (d : Redis.keyspace (cache_entry response))
    (key field : string) : option string :=
  match Redis.lookup now key d with
  | Some (Redis.Entry (Redis.Hash h) _) => h !! field
  | _ => None
  end.

Definition candidate (user_message : string) (now : Z)
    (d : Redis.keyspace (cache_entry response)) (key : string) : option (Q * string) :=
  match record_field now d key "message" with
  | Some m =>
      if nonempty m then
        Some (Difflib.ratio (Text.lower user_message) (Text.lower m),
              default "" (record_field now d key "response_key"))
      else None
  | None => None
  end.

Definition candidates (user_message model_id : string) (now : Z)
    (d : Redis.keyspace (cache_entry response)) : list (Q * string) :=
  omap (candidate user_message now d) (scanned_keys model_id now d).

(** The exact entry a response key leads to. *)
Definition stored_doc (now : Z) (d : Redis.keyspace (cache_entry response)) (key : string)
    : option (cache_entry response) :=
  match Redis.lookup now key d with
  | Some (Redis.Entry (Redis.Str v) _) => Some v
  | _ => None
  end.

(** [cands !! i] has the greatest score, and is the first to have it. *)
Definition first_greatest (cands : list (Q * string)) (i : nat) (q : Q) (rk : string) : Prop :=
  cands !! i = Some (q, rk) /\
  forall j q' rk', cands !! j = Some (q', rk') ->
    (q' <= q)%Q /\ ((j < i)%nat -> (q' < q)%Q).

(** Every record of the scan is a hash, and one that carries a message
    carries a response key, as [_create_semantic_index] writes them. *)
Definition record_ok (now : Z) (d : Redis.keyspace (cache_entry response)) (key : string) : Prop :=
  exists h t,
    Redis.lookup now key d = Some (Redis.Entry (Redis.Hash h) t) /\
    forall m, h !! "message" = Some m -> nonempty m = true ->
      exists rk, h !! "response_key" = Some rk /\ nonempty rk = true.

(** What no method touches but through the counters' own updates. *)
Definition kept (s s' : SmartCache response) : Prop :=
  cache_stats s' = cache_stats s
  /\ cache_available s' = cache_available s
  /\ clock s' = clock s.

(** From [deadline] on, the server hands out no document that it would
    not have handed out before: [d1] has nothing new to show. *)
Definition no_new_doc (deadline : Z) (d0 d1 : Redis.keyspace (cache_entry response)) : Prop :=
  forall k t, deadline <= t ->
    stored_doc t d1 k = None \/ stored_doc t d1 k = stored_doc t d0 k.

(** The running best of the scan, on the candidates alone: the response
    key and the score kept so far. *)
Definition pick (threshold : Q) (acc : option string * Q) (c : Q * string)
    : option string * Q :=
  if Qlt_bool (snd acc) (fst c) && Qle_bool threshold (fst c)
  then (Some (snd c), fst c) else acc.

(** What the running best stands for after the candidates [pre]: nothing
    yet has reached the threshold with a positive score, or it is the
    first candidate to have the greatest score. *)
Definition picked (threshold : Q) (pre : list (Q * string)) (acc : option string * Q) : Prop :=
  (fst acc = None /\ snd acc = 0%Q
   /\ forall j q rk, pre !! j = Some (q, rk) -> ~ ((threshold <= q)%Q /\ (0 < q)%Q))
  \/ (exists i q rk,
        fst acc = Some rk /\ snd acc = q /\ first_greatest pre i q rk
        /\ (threshold <= q)%Q /\ (0 < q)%Q).

(** What a scan leaves as it was: the backend, the clock, the keyspace and
    the objects already on the heap. *)
Definition scan_frame (s s' : SmartCache response) : Prop :=
  cache_available s' = cache_available s
  /\ clock s' = clock s
  /\ Redis.db (redis s') = Redis.db (redis s)
  /\ (Redis.healthy (redis s) -> Redis.healthy (redis s'))
  /\ exists ext, heap s' = (heap s ++ ext)%list.

(** [best_match] is what the response key [best] leads to. *)
Definition tracks (now : Z) (d : Redis.keyspace (cache_entry response))
    (s : SmartCache response) (best_match : option nat) (best : option string) : Prop :=
  match best with
  | None => best_match = None
  | Some rk =>
      match stored_doc now d rk with
      | Some v => exists l, best_match = Some l /\ heap s !! l = Some v
      | None => best_match = None
      end
  end.

(** The object behind [best_match], when there is one, was read from a
    document that the keyspace [d] shows at time [now]. *)
Definition served (now : Z) (d : Redis.keyspace (cache_entry response))
    (s : SmartCache response) (best_match : option nat) : Prop :=
  match best_match with
  | None => True
  | Some l => exists k v, stored_doc now d k = Some v /\ heap s !! l = Some v
  end.

(** The outcome [r] of a lookup over the candidates [cands]: the entry of
    the first candidate with the greatest score, when that score reaches
    the threshold and is positive, as [view] shows it, and [None] when the
    entry is gone; [None] when no candidate reaches the threshold with a
    positive score. *)
Definition semantic_outcome (threshold : Q) (cands : list (Q * string)) (now : Z)
    (d : Redis.keyspace (cache_entry response))
    (view : cache_entry response -> cache_entry response)
    (r : outcome (option nat) * SmartCache response) : Prop :=
  (exists i q rk,
      first_greatest cands i q rk /\ (threshold <= q)%Q /\ (0 < q)%Q
      /\ match stored_doc now d rk with
         | Some v => exists l, fst r = Returned (Some l) /\ heap (snd r) !! l = Some (view v)
         | None => fst r = Returned None
         end)
  \/ ((forall j q rk, cands !! j = Some (q, rk) -> ~ ((threshold <= q)%Q /\ (0 < q)%Q))
      /\ fst r = Returned None).

(** While the clock reads [now], nothing new to show from [deadline] on. *)
Definition quiet (deadline now : Z) (s s' : SmartCache response) : Prop :=
  clock s = now ->
  clock s' = now /\ no_new_doc deadline (Redis.db (redis s)) (Redis.db (redis s')).

(** The binding of [k] is where it was. *)
Definition same_binding (k : string) (s s' : SmartCache response) : Prop :=
  Redis.find k (Redis.db (redis s')) = Redis.find k (Redis.db (redis s)).

Definition stays_healthy (s s' : SmartCache response) : Prop :=
  Redis.healthy (redis s) -> Redis.healthy (redis s').

(** The three counters that [get_cached_response] maintains. *)
Definition counters (s : SmartCache response) : Z * Z * Z :=
  (hits (cache_stats s), misses (cache_stats s), total_requests (cache_stats s)).

End Calls.

Arguments op response : clear implicits.

(** ** The lookup as the specification words it *)

(** [findBestMatch]: the candidate with the greatest score among those
    that reach the threshold, the first one when several have it. *)
Fixpoint findBestMatch_spec (threshold : Q) (cands : list (Q * string)) : option (Q * string) :=
  match cands with
  | [] => None
  | (q, rk) :: rest =>
      match findBestMatch_spec threshold rest with
      | Some (q', rk') =>
          if Qlt_bool q q' then Some (q', rk')
          else if Qle_bool threshold q then Some (q, rk) else Some (q', rk')
      | None => if Qle_bool threshold q then Some (q, rk) else None
      end
  end.

Definition semantic_lookup_spec {response : Type} (user_message model_id : string)
    (threshold : Q) (s : SmartCache response) : option (cache_entry response) :=
  match findBestMatch_spec threshold
          (candidates user_message model_id (clock s) (Redis.db (redis s))) with
  | Some (_, rk) => stored_doc (clock s) (Redis.db (redis s)) rk
  | None => None
  end.

(** [normalize]: lower case, trimmed, and the punctuation at the end
    removed. *)
Definition is_terminal (c : ascii) : bool :=
  Ascii.eqb c "?" || Ascii.eqb c "." || Ascii.eqb c "!".

Fixpoint strip_terminal (s : string) : string :=
  match s with
  | EmptyString => EmptyString
  | String c s' =>
      match strip_terminal s' with
      | EmptyString => if is_terminal c then EmptyString else String c EmptyString
      | t => String c t
      end
  end.

Definition normalize_spec (text : string) : string :=
  strip_terminal (Text.strip (Text.lower text)).

(** Every occurrence of a character of the set removed. *)
Fixpoint remove_chars (drop : ascii -> bool) (s : string) : string :=
  match s with
  | EmptyString => EmptyString
  | String c s' => if drop c then remove_chars drop s' else String c (remove_chars drop s')
  end.

Fixpoint occurs (c : ascii) (s : string) : bool :=
  match s with
  | EmptyString => false
  | String c' s' => Ascii.eqb c c' || occurs c s'
  end.

(** ** Concrete instances, with text for the response *)

Definition user (text : string) : message := Message (Some "user") (Some text).

(** A reachable server with nothing stored, and an unreachable one. *)
Definition networked0 : SmartCache string := __init__ (Redis.Conn [] []) [] 1000.
Definition fallback0 : SmartCache string := __init__ (Redis.Conn [] [true]) [] 1000.

(** A reachable server with nothing stored, for responses made of Python
    values. *)
Definition networked_py : SmartCache pyval := __init__ (Redis.Conn [] []) [] 1000.

(** A server that answers the probe and then fails twice. *)
Definition flaky0 : SmartCache string := __init__ (Redis.Conn [] [false; true; true]) [] 1000.

(** The server after one entry was stored for the question "abc". *)
Definition indexed0 : SmartCache string :=
  snd (cache_response "m" [user "abc"] "R" None 3600 networked0).

(** The server after a second entry was stored, for the question "abd". *)
Definition indexed2 : SmartCache string :=
  snd (cache_response "m" [user "abd"] "R2" None 3600 indexed0).

(** A server that holds an index record for "abc" without its entry,
    [json.dumps] having refused the response, and an entry for "abd". *)
Definition dangling0 : SmartCache pyval :=
  snd (cache_response "m" [user "abd"] (PStr "R2") None 3600
         (snd (cache_response "m" [user "abc"] (PBytes "raw") None 3600 networked_py))).

Definition haiku : string := "us.anthropic.claude-3-5-haiku-20241022-v1:0".
Definition haiku_base : string := "us.anthropic.claude-3-5-haiku-20241022-v1".

(** ** Shapes of keys and of stores *)

(** A lower-case hexadecimal digit. *)
Definition is_hex (c : ascii) : bool :=
  let z := Text.code c in Text.between 48 57 z || Text.between 97 102 z.

Definition is_byte (z : Z) : Prop := 0 <= z < 256.

Fixpoint all_hex (s : string) : bool :=
  match s with
  | EmptyString => true
  | String c s' => is_hex c && all_hex s'
  end.

(** Nothing is stored on the backend in use. *)
Definition empty_store {response : Type} (s : SmartCache response) : Prop :=
  if cache_available s then Redis.db (redis s) = [] else memory_cache s = ∅.

(** Two entries that differ at most by their [cache_type]. *)
Definition same_payload {response : Type} (e e' : cache_entry response) : Prop :=
  e_response e' = e_response e /\ e_timestamp e' = e_timestamp e
  /\ e_model_id e' = e_model_id e /\ e_ttl e' = e_ttl e.

(** What a lookup leaves as it was: the backend, the clock, the server's
    keyspace, the bindings of the instance's dict, and the payload of
    every entry on the heap. *)
Definition only_tags {response : Type} (s s' : SmartCache response) : Prop :=
  cache_available s' = cache_available s
  /\ clock s' = clock s
  /\ Redis.db (redis s') = Redis.db (redis s)
  /\ memory_cache s' = memory_cache s
  /\ forall l e, heap s !! l = Some e -> exists e', heap s' !! l = Some e' /\ same_payload e e'.

(** The counters count: none is negative and the hits and the misses add
    up to the requests. *)
Definition sane {response : Type} (s : SmartCache response) : Prop :=
  0 <= hits (cache_stats s) /\ 0 <= misses (cache_stats s)
  /\ hits (cache_stats s) + misses (cache_stats s) = total_requests (cache_stats s).

(** A message that the scans for the user's text pass over. *)
Definition non_user (m : message) : Prop := role m <> Some "user".

(** What storing under other keys leaves of the key [k]: its binding on
    either backend, and the objects on the heap. *)
Definition put_frame {response : Type} (k : string) (s s' : SmartCache response) : Prop :=
  cache_available s' = cache_available s
  /\ Redis.find k (Redis.db (redis s')) = Redis.find k (Redis.db (redis s))
  /\ memory_cache s' !! k = memory_cache s !! k
  /\ exists ext, heap s' = (heap s ++ ext)%list.

(** ** Two copies of one string under the matcher *)

(** Whether column [j] of row [i] continues a match of [a] with itself:
    the elements are equal and [b2j] keeps them. *)
Definition run_cond (a : list ascii) (i j : nat) : bool :=
  (j <? length a)%nat && Ascii.eqb (Difflib.elt a j) (Difflib.elt a i)
  && negb (Difflib.popular a (Difflib.elt a i)).

(** The length of the run of elements that [b2j] keeps and that ends at
    [i] in one copy of [a] and at [j] in the other. *)
Fixpoint common_run (a : list ascii) (i j : nat) : nat :=
  if run_cond a i j
  then S (match i, j with
          | S i', S j' => common_run a i' j'
          | _, _ => O
          end)
  else O.

Definition run_before (a : list ascii) (i j : nat) : nat :=
  match i, j with
  | S i', S j' => common_run a i' j'
  | _, _ => O
  end.

(** [tbl] is [j2len] as the rows before [i] leave it. *)
Definition table_of (a : list ascii) (i : nat) (tbl : gmap nat nat) : Prop :=
  forall j, default O (tbl !! j) = match i with O => O | S i' => common_run a i' j end.

(** A character that stands for itself in a glob pattern. *)
Definition plain_char (c : ascii) : bool :=
  negb (Ascii.eqb c "*" || Ascii.eqb c "?" || Ascii.eqb c "[" || Ascii.eqb c "\")%char.

Definition plain (x : string) : bool := forallb plain_char (list_ascii_of_string x).

(** ** The class [SmartCacheAnalyzer]

    The analyser owns a cache and calls the model when the cache misses.
    The model is outside: [api n] is what its [n]-th call gives, the parsed
    response or [None] when the call fails, and the seconds it takes.
    [estimated_cost] stands for [_calculate_cost] applied to the ['usage']
    of a response, [None] when the response has none; it is arithmetic on
    floats and is left open.  What the analyser prints is left out. *)

Section Analyzer.

Context {response : Type} {json : Json_reading response}.

Variable estimated_cost : string -> response -> option Q.
Variable api : nat -> option response * Z.

Record analyzer := Analyzer {
  cache : SmartCache response;
  api_calls : nat
}.

(** [_make_api_call]: the call, with what it raises caught. *)
Definition _make_api_call (a : analyzer) : option response * analyzer :=
  let '(result, seconds) := api (api_calls a) in
  (result, Analyzer (tick seconds (cache a)) (S (api_calls a))).

(** One turn of the loop of [analyze_caching_scenario]. *)
Definition analyze_query (model_id : string) (a : analyzer) (query : string) : analyzer :=
  let messages := [Message (Some "user") (Some query)] in
  let '(cached_response, c1) :=
    get_cached_response model_id messages None (85 # 100) (cache a) in
  match cached_response with
  | Returned (Some l) =>
      match heap c1 !! l with
      | Some e =>
          match estimated_cost model_id (e_response e) with
          | Some cost => Analyzer (add_savings cost c1) (api_calls a)
          | None => Analyzer c1 (api_calls a)
          end
      | None => Analyzer c1 (api_calls a)
      end
  | Returned None =>
      let '(response_data, a1) := _make_api_call (Analyzer c1 (api_calls a)) in
      match response_data with
      | Some r =>
          Analyzer (snd (cache_response model_id messages r None 3600 (cache a1)))
            (api_calls a1)
      | None => a1
      end
  | Raised => Analyzer c1 (api_calls a)
  end.

(** [analyze_caching_scenario]: the loop, the statistics, and the
    estimate of the cost without a cache, which divides by the number of
    queries. *)
Definition analyze_caching_scenario (queries : list string) (model_id : string)
    (a : analyzer) : outcome unit * analyzer :=
  let a' := fold_left (analyze_query model_id) queries a in
  let a'' := Analyzer (snd (get_cache_stats (cache a'))) (api_calls a') in
  match queries with
  | [] => (Raised, a'')
  | _ => (Returned tt, a'')
  end.

(** The request of a query has an entry in the in-process dict. *)
Definition bound (model_id query : string) (s : SmartCache response) : Prop :=
  is_Some (memory_cache s !! _generate_cache_key model_id [Message (Some "user") (Some query)] None).

End Analyzer.

Arguments analyzer response : clear implicits.

(** * Properties *)

(** ** The building blocks against the libraries' published values *)

Example md5_empty : MD5.hexdigest "" = "d41d8cd98f00b204e9800998ecf8427e".
Proof. vm_compute. reflexivity. Qed.

Example md5_abc : MD5.hexdigest "abc" = "900150983cd24fb0d6963f7d28e17f72".
Proof. vm_compute. reflexivity. Qed.

Example cache_key_hello :
  _generate_cache_key "m" [] (Some (-3)) = "claude_cache:e863a233003ffda88b35984b7ed52a32".
Proof. vm_compute. reflexivity. Qed.

Example ratio_abxcd : Difflib.ratio "abxcd" "abcd" = (8 # 9)%Q.
Proof. vm_compute. reflexivity. Qed.

Example glob_prefix :
  Glob.matches "semantic_index:m:*" "semantic_index:m:5d41402abc4b" = true
  /\ Glob.matches "semantic_index:m:*" "semantic_index:n:5d41402abc4b" = false.
Proof. vm_compute. split; reflexivity. Qed.

(** ** The normaliser *)

Lemma replace_empty_remove (c : ascii) (s : string) :
  Text.replace c "" s = remove_chars (fun x => Ascii.eqb x c) s.
Proof.
  induction s as [|x s IH]; simpl; [reflexivity|].
  destruct (Ascii.eqb x c); simpl; rewrite IH; reflexivity.
Qed.

Lemma remove_chars_twice (p q : ascii -> bool) (s : string) :
  remove_chars q (remove_chars p s) = remove_chars (fun x => p x || q x) s.
Proof.
  induction s as [|x s IH]; simpl; [reflexivity|].
  destruct (p x); simpl; [exact IH|].
  destruct (q x); simpl; rewrite IH; reflexivity.
Qed.

Lemma remove_chars_ext (p q : ascii -> bool) (s : string) :
  (forall x, p x = q x) -> remove_chars p s = remove_chars q s.
Proof.
  intros Hpq. induction s as [|x s IH]; simpl; [reflexivity|].
  rewrite Hpq, IH. reflexivity.
Qed.

Lemma occurs_remove_chars (drop : ascii -> bool) (c : ascii) (s : string) :
  drop c = true -> occurs c (remove_chars drop s) = false.
Proof.
  intros Hc. induction s as [|x s IH]; simpl; [reflexivity|].
  destruct (drop x) eqn:Hx; simpl; [exact IH|].
  rewrite IH, orb_false_r.
  destruct (Ascii.eqb_spec c x) as [->|]; [congruence | reflexivity].
Qed.

(** C7, as the code has it: [normalize] lower-cases, trims, and removes
    every occurrence of '?', '.' and '!', wherever it stands; none of the
    three is left in the result. *)
Theorem normalize_removes_every_occurrence (text : string) :
  normalize text = remove_chars is_terminal (Text.strip (Text.lower text))
  /\ occurs "?" (normalize text) = false
  /\ occurs "." (normalize text) = false
  /\ occurs "!" (normalize text) = false.
Proof.
  assert (H : normalize text = remove_chars is_terminal (Text.strip (Text.lower text))).
  { unfold normalize. rewrite !replace_empty_remove, !remove_chars_twice.
    apply remove_chars_ext. intros x. unfold is_terminal.
    destruct (Ascii.eqb x "?"), (Ascii.eqb x "."), (Ascii.eqb x "!"); reflexivity. }
  rewrite H. repeat split; apply occurs_remove_chars; reflexivity.
Qed.

(** C7, as stated, fails: a full stop inside the text is removed, where
    stripping the end of the text would keep it. *)
Lemma normalize_interior_removed :
  normalize "What is 3.5?" = "what is 35"
  /\ normalize_spec "What is 3.5?" = "what is 3.5"
  /\ normalize "What is 3.5?" <> normalize_spec "What is 3.5?".
Proof. vm_compute. repeat split; discriminate. Qed.

(** ** What a computation keeps, and whether it returns *)

Section Frames.

Context {St : Type} (P : St -> St -> Prop).
Hypothesis P_refl : forall s, P s s.
Hypothesis P_trans : forall s1 s2 s3, P s1 s2 -> P s2 s3 -> P s1 s3.

Lemma preserves_ret {A} (a : A) : preserves P (ret a).
Proof. intros s. apply P_refl. Qed.

Lemma preserves_bind {A B} (c : M St A) (k : A -> M St B) :
  preserves P c -> (forall a, preserves P (k a)) -> preserves P (bind c k).
Proof.
  intros Hc Hk s. unfold bind. specialize (Hc s).
  destruct (c s) as [[a|] s1]; simpl in *; [|exact Hc].
  eapply P_trans; [exact Hc | apply Hk].
Qed.

Lemma preserves_try {A} (body handler : M St A) :
  preserves P body -> preserves P handler -> preserves P (try_except body handler).
Proof.
  intros Hb Hh s. unfold try_except. specialize (Hb s).
  destruct (body s) as [[a|] s1]; simpl in *; [exact Hb|].
  eapply P_trans; [exact Hb | apply Hh].
Qed.

Lemma preserves_for_each {A B} (body : B -> A -> M St B) (xs : list A) :
  (forall b a, preserves P (body b a)) -> forall b, preserves P (for_each body xs b).
Proof.
  intros Hbody. induction xs as [|x xs IH]; intros b; simpl.
  - apply preserves_ret.
  - apply preserves_bind; [apply Hbody | intros; apply IH].
Qed.

End Frames.

Lemma bind_returned {St A B} (c : M St A) (k : A -> M St B) (s s' : St) (a : A) :
  c s = (Returned a, s') -> bind c k s = k a s'.
Proof. intros H. unfold bind. rewrite H. reflexivity. Qed.

Lemma bind_raised {St A B} (c : M St A) (k : A -> M St B) (s s' : St) :
  c s = (Raised, s') -> bind c k s = (Raised, s').
Proof. intros H. unfold bind. rewrite H. reflexivity. Qed.

Lemma returns_ret {St A} (a : A) : returns (@ret St A a).
Proof. intros s. exists a. reflexivity. Qed.

Lemma returns_bind {St A B} (c : M St A) (k : A -> M St B) :
  returns c -> (forall a, returns (k a)) -> returns (bind c k).
Proof.
  intros Hc Hk s. unfold bind. destruct (Hc s) as [a Ha].
  destruct (c s) as [[a'|] s1]; simpl in Ha; [|discriminate].
  apply Hk.
Qed.

Lemma returns_try {St A} (body handler : M St A) :
  returns handler -> returns (try_except body handler).
Proof.
  intros Hh s. unfold try_except.
  destruct (body s) as [[a|] s1]; [exists a; reflexivity | apply Hh].
Qed.


(** ** The methods one by one *)

Section Methods.

Context {response : Type} {json : Json_reading response}.

Lemma kept_refl (s : SmartCache response) : kept s s.
Proof. repeat split. Qed.

Lemma kept_trans (s1 s2 s3 : SmartCache response) : kept s1 s2 -> kept s2 s3 -> kept s1 s3.
Proof. unfold kept. intros (?&?&?) (?&?&?). repeat split; congruence. Qed.

Lemma redis_call_kept {A} (cmd : Redis.command (cache_entry response) A) :
  preserves kept (redis_call cmd).
Proof.
  intros s. unfold redis_call.
  destruct (Redis.call cmd (clock s) (redis s)) as [o c]. repeat split.
Qed.

Lemma new_dict_kept (e : cache_entry response) : preserves kept (new_dict e).
Proof. intros s. repeat split. Qed.

Lemma set_cache_type_kept (l : nat) (tag : string) :
  preserves (@kept response) (set_cache_type l tag).
Proof. intros s. repeat split. Qed.

Lemma get_from_cache_kept (key : string) :
  preserves (@kept response) (_get_from_cache key).
Proof.
  intros s. unfold _get_from_cache. destruct (cache_available s).
  - apply (preserves_try kept kept_trans).
    + apply (preserves_bind kept kept_trans); [apply redis_call_kept|].
      intros [d|]; [|apply (preserves_ret kept kept_refl)].
      apply (preserves_bind kept kept_trans); [apply new_dict_kept|].
      intros l. apply (preserves_ret kept kept_refl).
    + apply (preserves_ret kept kept_refl).
  - apply kept_refl.
Qed.

Lemma get_from_cache_returns (key : string) :
  returns (@_get_from_cache response key).
Proof.
  intros s. unfold _get_from_cache. destruct (cache_available s).
  - apply returns_try, returns_ret.
  - eexists. reflexivity.
Qed.

Lemma store_in_cache_kept (key : string) (value : nat) (ttl : Z) :
  preserves (@kept response) (_store_in_cache key value ttl).
Proof.
  intros s. unfold _store_in_cache. destruct (cache_available s).
  - apply (preserves_try kept kept_trans).
    + destruct (heap s !! value) as [d|]; [|intros s'; apply kept_refl].
      destruct (json_dumps d); [apply redis_call_kept | intros s'; apply kept_refl].
    + apply (preserves_ret kept kept_refl).
  - repeat split.
Qed.

Lemma store_in_cache_returns (key : string) (value : nat) (ttl : Z) :
  returns (@_store_in_cache response json key value ttl).
Proof.
  intros s. unfold _store_in_cache. destruct (cache_available s).
  - apply returns_try, returns_ret.
  - eexists. reflexivity.
Qed.

Lemma create_semantic_index_kept (model_id user_message response_key : string) (ttl : Z) :
  preserves (@kept response) (_create_semantic_index model_id user_message response_key ttl).
Proof.
  intros s. unfold _create_semantic_index. destruct (cache_available s); simpl.
  - apply (preserves_try kept kept_trans).
    + apply (preserves_bind kept kept_trans); [apply redis_call_kept|]. intros _.
      apply (preserves_bind kept kept_trans); [apply redis_call_kept|]. intros _.
      apply (preserves_ret kept kept_refl).
    + apply (preserves_ret kept kept_refl).
  - apply kept_refl.
Qed.

Lemma create_semantic_index_returns (model_id user_message response_key : string) (ttl : Z) :
  returns (@_create_semantic_index response model_id user_message response_key ttl).
Proof.
  intros s. unfold _create_semantic_index. destruct (cache_available s); simpl.
  - apply returns_try, returns_ret.
  - eexists. reflexivity.
Qed.

Lemma scan_key_kept (user_message : string) (threshold : Q) (acc : option nat * Q)
    (key : string) :
  preserves (@kept response) (scan_key user_message threshold acc key).
Proof.
  unfold scan_key. destruct acc as [bm bs].
  apply (preserves_bind kept kept_trans); [apply redis_call_kept|].
  intros [m|]; [|apply (preserves_ret kept kept_refl)].
  destruct (nonempty m); [|apply (preserves_ret kept kept_refl)].
  destruct (_ && _); [|apply (preserves_ret kept kept_refl)].
  apply (preserves_bind kept kept_trans); [apply redis_call_kept|].
  intros [rk|]; [|apply (preserves_ret kept kept_refl)].
  destruct (nonempty rk); [|apply (preserves_ret kept kept_refl)].
  apply (preserves_bind kept kept_trans); [apply get_from_cache_kept|].
  intros bm'. apply (preserves_ret kept kept_refl).
Qed.

Lemma find_similar_kept (user_message model_id : string) (threshold : Q) :
  preserves (@kept response) (_find_similar_cached_response user_message model_id threshold).
Proof.
  intros s. unfold _find_similar_cached_response. destruct (cache_available s); simpl.
  - apply (preserves_try kept kept_trans).
    + apply (preserves_bind kept kept_trans); [apply redis_call_kept|]. intros keys.
      apply (preserves_bind kept kept_trans).
      * apply (preserves_for_each kept kept_refl kept_trans). intros; apply scan_key_kept.
      * intros best. apply (preserves_ret kept kept_refl).
    + apply (preserves_ret kept kept_refl).
  - apply kept_refl.
Qed.

Lemma find_similar_returns (user_message model_id : string) (threshold : Q) :
  returns (@_find_similar_cached_response response user_message model_id threshold).
Proof.
  intros s. unfold _find_similar_cached_response. destruct (cache_available s); simpl.
  - apply returns_try, returns_ret.
  - eexists. reflexivity.
Qed.

(** The semantic step of [get_cached_response], from the messages. *)
Lemma semantic_step_kept (messages : list message) (model_id : string) (threshold : Q) :
  preserves (@kept response)
    (match last_user_message messages with
     | Some user_message =>
         if nonempty user_message then
           _find_similar_cached_response user_message model_id threshold
         else ret None
     | None => ret None
     end).
Proof.
  destruct (last_user_message messages) as [um|]; [|apply (preserves_ret kept kept_refl)].
  destruct (nonempty um); [apply find_similar_kept | apply (preserves_ret kept kept_refl)].
Qed.

Lemma semantic_step_returns (messages : list message) (model_id : string) (threshold : Q) :
  returns
    (match last_user_message messages with
     | Some user_message =>
         if nonempty user_message then
           @_find_similar_cached_response response user_message model_id threshold
         else ret None
     | None => ret None
     end).
Proof.
  destruct (last_user_message messages) as [um|]; [|apply returns_ret].
  destruct (nonempty um); [apply find_similar_returns | apply returns_ret].
Qed.

Lemma cache_response_kept (model_id : string) (messages : list message) (r : response)
    (max_tokens : option Z) (ttl : Z) :
  preserves kept (cache_response model_id messages r max_tokens ttl).
Proof.
  unfold cache_response.
  apply (preserves_bind kept kept_trans); [intros s; apply new_dict_kept|]. intros l.
  apply (preserves_bind kept kept_trans); [apply store_in_cache_kept|]. intros _.
  destruct (last_user_message messages) as [um|]; [|apply (preserves_ret kept kept_refl)].
  destruct (nonempty um);
    [apply create_semantic_index_kept | apply (preserves_ret kept kept_refl)].
Qed.

Lemma cache_response_returns (model_id : string) (messages : list message) (r : response)
    (max_tokens : option Z) (ttl : Z) :
  returns (cache_response model_id messages r max_tokens ttl).
Proof.
  unfold cache_response.
  apply returns_bind; [intros s; eexists; reflexivity|]. intros l.
  apply returns_bind; [apply store_in_cache_returns|]. intros _.
  destruct (last_user_message messages) as [um|]; [|apply returns_ret].
  destruct (nonempty um); [apply create_semantic_index_returns | apply returns_ret].
Qed.

Lemma get_cached_response_returns (model_id : string) (messages : list message)
    (max_tokens : option Z) (threshold : Q) :
  returns (@get_cached_response response model_id messages max_tokens threshold).
Proof.
  unfold get_cached_response.
  apply returns_bind; [intros s; eexists; reflexivity|]. intros _.
  apply returns_bind; [apply get_from_cache_returns|]. intros [l|].
  - apply returns_bind; [intros s; eexists; reflexivity|]. intros _.
    apply returns_bind; [intros s; eexists; reflexivity|]. intros _.
    apply returns_ret.
  - apply returns_bind; [apply semantic_step_returns|]. intros [l|].
    + apply returns_bind; [intros s; eexists; reflexivity|]. intros _.
      apply returns_bind; [intros s; eexists; reflexivity|]. intros _.
      apply returns_ret.
    + apply returns_bind; [intros s; eexists; reflexivity|]. intros _.
      apply returns_ret.
Qed.

End Methods.

(** ** The counters *)

Section Counters.

Context {response : Type} {json : Json_reading response}.

Lemma get_outcome (model_id : string) (messages : list message) (max_tokens : option Z)
    (threshold : Q) (s : SmartCache response) :
  exists res s',
    get_cached_response model_id messages max_tokens threshold s = (Returned res, s')
    /\ ((is_Some res
         /\ counters s' = (hits (cache_stats s) + 1, misses (cache_stats s),
                           total_requests (cache_stats s) + 1))
        \/ (res = None
            /\ counters s' = (hits (cache_stats s), misses (cache_stats s) + 1,
                              total_requests (cache_stats s) + 1))).
Proof.
  unfold get_cached_response.
  set (key := _generate_cache_key model_id messages max_tokens).
  erewrite bind_returned by reflexivity. cbv beta.
  match goal with |- context [bind (_get_from_cache key) _ ?s0] =>
    pose proof (get_from_cache_kept key s0) as K1;
    destruct (get_from_cache_returns key s0) as [r1 E1];
    destruct (_get_from_cache key s0) as [o1 s1] eqn:G1
  end.
  simpl in K1, E1. subst o1. destruct K1 as (K1 & _). simpl in K1.
  erewrite bind_returned by exact G1.
  destruct r1 as [l|].
  - do 2 (erewrite bind_returned by reflexivity).
    eexists _, _. split; [reflexivity|]. left. split; [eauto|].
    unfold counters; simpl. rewrite K1. reflexivity.
  - pose proof (semantic_step_kept messages model_id threshold s1) as K2.
    destruct (semantic_step_returns (response := response) messages model_id threshold s1)
      as [r2 E2].
    match type of E2 with fst ?x = _ => destruct x as [o2 s2] eqn:G2 end.
    simpl in K2, E2. subst o2. destruct K2 as (K2 & _).
    erewrite bind_returned by exact G2.
    destruct r2 as [l|].
    + do 2 (erewrite bind_returned by reflexivity).
      eexists _, _. split; [reflexivity|]. left. split; [eauto|].
      unfold counters; simpl. rewrite K2, K1. reflexivity.
    + erewrite bind_returned by reflexivity.
      eexists _, _. split; [reflexivity|]. right. split; [reflexivity|].
      unfold counters; simpl. rewrite K2, K1. reflexivity.
Qed.

Lemma get_counts (model_id : string) (messages : list message) (max_tokens : option Z)
    (threshold : Q) (s : SmartCache response) :
  let r := get_cached_response model_id messages max_tokens threshold s in
  let '(h, m, t) := counters s in
  ((exists l, fst r = Returned (Some l)) /\ counters (snd r) = (h + 1, m, t + 1))
  \/ (fst r = Returned None /\ counters (snd r) = (h, m + 1, t + 1)).
Proof.
  destruct (get_outcome model_id messages max_tokens threshold s) as (res & s' & E & H).
  unfold counters in *. simpl. rewrite E. simpl.
  destruct H as [[Hs H] | [Hn H]].
  - destruct Hs as [l Hl]. subst res. left. split; [exists l; reflexivity | exact H].
  - subst res. right. split; [reflexivity | exact H].
Qed.

Lemma get_sum (model_id : string) (messages : list message) (max_tokens : option Z)
    (threshold : Q) (s : SmartCache response) :
  let '(h, m, t) := counters s in
  let '(h', m', t') :=
    counters (snd (get_cached_response model_id messages max_tokens threshold s)) in
  t' = t + 1 /\ h' + m' = h + m + 1.
Proof.
  destruct (get_outcome model_id messages max_tokens threshold s) as (res & s' & E & H).
  rewrite E. unfold counters in *. simpl.
  destruct H as [[_ H] | [_ H]]; injection H as -> -> ->; lia.
Qed.

Lemma other_calls_keep_counters :
  (forall model_id messages (r : response) max_tokens ttl s,
      counters (step (Put model_id messages r max_tokens ttl) s) = counters s)
  /\ (forall s : SmartCache response, counters (step GetStats s) = counters s)
  /\ (forall amount (s : SmartCache response), counters (step (AddSavings amount) s) = counters s)
  /\ (forall d (s : SmartCache response), counters (step (Tick d) s) = counters s).
Proof.
  repeat split; intros; try reflexivity. simpl.
  destruct (cache_response_kept model_id messages r max_tokens ttl s) as (H & _).
  unfold counters. rewrite H. reflexivity.
Qed.

Lemma init_counters (c : Redis.conn (cache_entry response)) (h : list (cache_entry response))
    (now : Z) :
  counters (__init__ c h now) = (0, 0, 0).
Proof.
  unfold __init__. destruct (Redis.call Redis.PING now c) as [o c']. reflexivity.
Qed.

Lemma run_sum (ops : list (op response)) (s : SmartCache response) :
  hits (cache_stats s) + misses (cache_stats s) = total_requests (cache_stats s) ->
  let s' := run ops s in
  hits (cache_stats s') + misses (cache_stats s') = total_requests (cache_stats s').
Proof.
  revert s. induction ops as [|o ops IH]; intros s Hs; simpl; [exact Hs|].
  apply IH. destruct other_calls_keep_counters as (Hput & Hstats & Hadd & Htick).
  destruct o as [m msgs mt thr | m msgs r mt ttl | | amount | d].
  - pose proof (get_sum m msgs mt thr s) as H. unfold counters in H. simpl in H.
    simpl. lia.
  - specialize (Hput m msgs r mt ttl s). unfold counters in Hput.
    simpl in Hput |- *. injection Hput as H1 H2 H3. lia.
  - exact Hs.
  - exact Hs.
  - exact Hs.
Qed.

(** C9: each [get_cached_response] adds one to [total_requests] and one
    to exactly one of [hits] (when it returns an entry) and [misses]
    (when it returns [None]); no other call changes the three counters;
    and from a new instance on, after any sequence of calls,
    [hits + misses = total_requests]. *)
Theorem counters_invariant :
  (forall model_id messages max_tokens threshold (s : SmartCache response),
      let r := get_cached_response model_id messages max_tokens threshold s in
      let '(h, m, t) := counters s in
      ((exists l, fst r = Returned (Some l)) /\ counters (snd r) = (h + 1, m, t + 1))
      \/ (fst r = Returned None /\ counters (snd r) = (h, m + 1, t + 1)))
  /\ ((forall model_id messages (r : response) max_tokens ttl s,
          counters (step (Put model_id messages r max_tokens ttl) s) = counters s)
      /\ (forall s : SmartCache response, counters (step GetStats s) = counters s)
      /\ (forall amount (s : SmartCache response),
             counters (step (AddSavings amount) s) = counters s)
      /\ (forall d (s : SmartCache response), counters (step (Tick d) s) = counters s))
  /\ (forall c h now (ops : list (op response)),
        let s := run ops (__init__ c h now) in
        hits (cache_stats s) + misses (cache_stats s) = total_requests (cache_stats s)).
Proof.
  split; [exact get_counts|]. split; [exact other_calls_keep_counters|].
  intros c h now ops. apply run_sum.
  pose proof (init_counters c h now) as H. unfold counters in H.
  injection H as -> -> ->. reflexivity.
Qed.

End Counters.

(** ** The server's keyspace *)

Section Keyspace.

Context {doc : Type}.

Implicit Types (d : Redis.keyspace doc) (e : Redis.entry doc) (k : string).

Lemma find_remove_same k d : Redis.find k (Redis.remove k d) = None.
Proof.
  induction d as [|[k' e'] d IH]; simpl; [reflexivity|].
  destruct (String.eqb k k') eqn:E; simpl; [exact IH|].
  rewrite E. exact IH.
Qed.

Lemma find_remove_other k k' d : k <> k' -> Redis.find k (Redis.remove k' d) = Redis.find k d.
Proof.
  intros Hne. induction d as [|[k2 e2] d IH]; simpl; [reflexivity|].
  destruct (String.eqb_spec k' k2) as [->|Hk]; simpl.
  - destruct (String.eqb_spec k k2); [contradiction | exact IH].
  - destruct (String.eqb k k2); [reflexivity | exact IH].
Qed.

Lemma find_store_same k e d : Redis.find k (Redis.store k e d) = Some e.
Proof. unfold Redis.store. simpl. rewrite String.eqb_refl. reflexivity. Qed.

Lemma find_store_other k k' e d : k <> k' -> Redis.find k (Redis.store k' e d) = Redis.find k d.
Proof.
  intros Hne. unfold Redis.store. simpl.
  destruct (String.eqb_spec k k'); [contradiction|]. apply find_remove_other, Hne.
Qed.

Lemma call_healthy {A} (cmd : Redis.command doc A) (now : Z) (c : Redis.conn doc) :
  Redis.healthy c ->
  Redis.call cmd now c
  = (fst (cmd now (Redis.db c)), Redis.Conn (snd (cmd now (Redis.db c))) (tail (Redis.faults c))).
Proof.
  unfold Redis.healthy, Redis.call. intros H.
  destruct (Redis.faults c) as [|[|] fs]; simpl.
  - destruct (cmd now (Redis.db c)); reflexivity.
  - apply Forall_cons in H as [H _]. discriminate.
  - destruct (cmd now (Redis.db c)); reflexivity.
Qed.

Lemma call_stays_healthy {A} (cmd : Redis.command doc A) (now : Z) (c : Redis.conn doc) :
  Redis.healthy c -> Redis.healthy (snd (Redis.call cmd now c)).
Proof.
  intros H. rewrite call_healthy by exact H. simpl.
  unfold Redis.healthy in *. simpl.
  destruct (Redis.faults c) as [|b fs]; simpl; [constructor|].
  apply Forall_cons in H as [_ H]. exact H.
Qed.

(** A command runs on the keyspace, or fails and leaves it alone. *)
Lemma call_cases {A} (cmd : Redis.command doc A) (now : Z) (c : Redis.conn doc) :
  (fst (Redis.call cmd now c) = Raised /\ Redis.db (snd (Redis.call cmd now c)) = Redis.db c)
  \/ (fst (Redis.call cmd now c) = fst (cmd now (Redis.db c))
      /\ Redis.db (snd (Redis.call cmd now c)) = snd (cmd now (Redis.db c))).
Proof.
  unfold Redis.call. destruct (Redis.faults c) as [|[|] fs]; simpl.
  - right. destruct (cmd now (Redis.db c)); split; reflexivity.
  - left. split; reflexivity.
  - right. destruct (cmd now (Redis.db c)); split; reflexivity.
Qed.

Lemma call_fault {A} (cmd : Redis.command doc A) (now : Z) (c : Redis.conn doc) fs :
  Redis.faults c = true :: fs ->
  Redis.call cmd now c = (Raised, Redis.Conn (Redis.db c) fs).
Proof. intros H. unfold Redis.call. rewrite H. reflexivity. Qed.

End Keyspace.

(** ** The in-process backend *)

Section Fallback.

Context {response : Type} {json : Json_reading response}.

Implicit Types (s : SmartCache response).

Lemma cache_response_fallback model_id messages (r : response) max_tokens ttl s :
  cache_available s = false ->
  cache_response model_id messages r max_tokens ttl s
  = (Returned tt,
     set_memory_cache
       (<[_generate_cache_key model_id messages max_tokens := length (heap s)]> (memory_cache s))
       (set_heap (heap s ++ [CacheEntry r (isoformat (clock s)) model_id ttl None]) s)).
Proof.
  intros Hf. unfold cache_response.
  erewrite bind_returned by reflexivity. cbv beta.
  erewrite bind_returned
    by (unfold _store_in_cache; simpl; rewrite Hf; reflexivity).
  destruct (last_user_message messages) as [um|]; [|reflexivity].
  destruct (nonempty um); [|reflexivity].
  unfold _create_semantic_index. simpl. rewrite Hf. reflexivity.
Qed.

Lemma semantic_step_fallback messages model_id threshold s :
  cache_available s = false ->
  match last_user_message messages with
  | Some user_message =>
      if nonempty user_message then
        _find_similar_cached_response user_message model_id threshold
      else ret None
  | None => ret None
  end s = (Returned None, s).
Proof.
  intros Hf. destruct (last_user_message messages) as [um|]; [|reflexivity].
  destruct (nonempty um); [|reflexivity].
  unfold _find_similar_cached_response. rewrite Hf. reflexivity.
Qed.

Lemma get_cached_response_fallback model_id messages max_tokens threshold s :
  cache_available s = false ->
  get_cached_response model_id messages max_tokens threshold s
  = match memory_cache s !! _generate_cache_key model_id messages max_tokens with
    | Some l =>
        (Returned (Some l),
         snd (set_cache_type l "exact_match" (snd (incr_hits (snd (incr_total_requests s))))))
    | None => (Returned None, snd (incr_misses (snd (incr_total_requests s))))
    end.
Proof.
  intros Hf. unfold get_cached_response.
  erewrite bind_returned by reflexivity. cbv beta.
  erewrite bind_returned
    by (unfold _get_from_cache; simpl; rewrite Hf; reflexivity).
  simpl. destruct (memory_cache s !! _) as [l|]; [reflexivity|].
  erewrite bind_returned by (apply semantic_step_fallback; exact Hf).
  reflexivity.
Qed.

(** The entry that [cache_response] builds is what the next
    [get_cached_response] for the same request returns, whatever the TTL
    and however late. *)
Lemma put_get_fallback model_id messages (r : response) max_tokens ttl threshold d s :
  cache_available s = false ->
  let s1 := snd (cache_response model_id messages r max_tokens ttl s) in
  let g := get_cached_response model_id messages max_tokens threshold (tick d s1) in
  exists l e,
    fst g = Returned (Some l) /\ heap (snd g) !! l = Some e
    /\ e_response e = r /\ e_cache_type e = Some "exact_match".
Proof.
  intros Hf. simpl. rewrite cache_response_fallback by exact Hf. simpl.
  rewrite get_cached_response_fallback by exact Hf. simpl.
  rewrite lookup_insert_eq. simpl.
  exists (length (heap s)), (CacheEntry r (isoformat (clock s)) model_id ttl (Some "exact_match")).
  split; [reflexivity|]. split; [|split; reflexivity].
  rewrite list_lookup_alter_eq.
  rewrite lookup_app_r by lia. rewrite Nat.sub_diag. reflexivity.
Qed.

(** C10: on the in-process backend [cache_response] leaves the server
    alone and binds nothing but the exact key, and whatever
    [get_cached_response] returns is the entry stored under the exact key,
    tagged [exact_match]. *)
Theorem fallback_exact_only model_id messages max_tokens (s : SmartCache response) :
  cache_available s = false ->
  (forall (r : response) ttl,
      let s' := snd (cache_response model_id messages r max_tokens ttl s) in
      redis s' = redis s
      /\ cache_available s' = false
      /\ memory_cache s'
         = <[_generate_cache_key model_id messages max_tokens := length (heap s)]>
             (memory_cache s))
  /\ (forall threshold,
        let g := get_cached_response model_id messages max_tokens threshold s in
        redis (snd g) = redis s
        /\ cache_available (snd g) = false
        /\ memory_cache (snd g) = memory_cache s
        /\ forall e, returned_entry g = Some e ->
             e_cache_type e = Some "exact_match"
             /\ stored_entry (_generate_cache_key model_id messages max_tokens) (snd g) = Some e).
Proof.
  intros Hf. split.
  - intros r ttl. simpl. rewrite cache_response_fallback by exact Hf. simpl.
    repeat split; [exact Hf].
  - intros threshold. simpl. rewrite get_cached_response_fallback by exact Hf.
    unfold returned_entry, stored_entry.
    destruct (memory_cache s !! _) as [l|] eqn:Hl; simpl.
    + repeat split; try exact Hf.
      * rewrite list_lookup_alter_eq in H.
        destruct (heap s !! l) as [e0|]; simpl in H; [|discriminate].
        injection H as <-. reflexivity.
      * rewrite Hl. exact H.
    + repeat split; try exact Hf; discriminate.
Qed.

End Fallback.

Lemma fallback_exact_only_witness :
  cache_available fallback0 = false
  /\ (let g := get_cached_response "m" [user "hello"] None (85 # 100)
                 (snd (cache_response "m" [user "hello"] "R" None 3600 fallback0)) in
      redis (snd g) = redis fallback0
      /\ forall e, returned_entry g = Some e -> e_cache_type e = Some "exact_match").
Proof.
  split; [reflexivity|].
  pose proof (fallback_exact_only "m" [user "hello"] None
                (snd (cache_response "m" [user "hello"] "R" None 3600 fallback0))
                eq_refl) as [_ H].
  specialize (H (85 # 100)). simpl in H. destruct H as (Hr & _ & _ & He).
  split; [exact Hr|]. intros e H. apply He. exact H.
Defined.

(** ** Failures of the server *)

Section Failures.

Context {response : Type} {json : Json_reading response}.

Implicit Types (s : SmartCache response).

Lemma redis_call_frame {A} (cmd : Redis.command (cache_entry response) A) s :
  heap (snd (redis_call cmd s)) = heap s
  /\ memory_cache (snd (redis_call cmd s)) = memory_cache s.
Proof.
  unfold redis_call. destruct (Redis.call cmd (clock s) (redis s)). split; reflexivity.
Qed.

Lemma redis_call_cases {A} (cmd : Redis.command (cache_entry response) A) s :
  (fst (redis_call cmd s) = Raised
   /\ Redis.db (redis (snd (redis_call cmd s))) = Redis.db (redis s))
  \/ (fst (redis_call cmd s) = fst (cmd (clock s) (Redis.db (redis s)))
      /\ Redis.db (redis (snd (redis_call cmd s))) = snd (cmd (clock s) (Redis.db (redis s)))).
Proof.
  unfold redis_call.
  pose proof (call_cases cmd (clock s) (redis s)) as H.
  destruct (Redis.call cmd (clock s) (redis s)) as [o c]. exact H.
Qed.

Lemma GET_db (key : string) (now : Z) (d : Redis.keyspace (cache_entry response)) :
  snd (Redis.GET key now d) = d.
Proof.
  unfold Redis.GET. destruct (Redis.lookup now key d) as [[[v|h] t]|]; reflexivity.
Qed.

Lemma SETEX_raised (key : string) (ttl : Z) (v : cache_entry response) (now : Z)
    (d : Redis.keyspace (cache_entry response)) :
  fst (Redis.SETEX key ttl v now d) = Raised -> snd (Redis.SETEX key ttl v now d) = d.
Proof. unfold Redis.SETEX. destruct (Redis.valid_expiry now ttl); [discriminate | reflexivity]. Qed.

Lemma get_from_cache_raised (key : string) s :
  cache_available s = true ->
  fst (redis_call (Redis.GET key) s) = Raised ->
  _get_from_cache key s = (Returned None, snd (redis_call (Redis.GET key) s)).
Proof.
  intros Hav Hr. unfold _get_from_cache. rewrite Hav. unfold try_except.
  erewrite bind_raised; [reflexivity|].
  destruct (redis_call (Redis.GET key) s) as [o s1]. simpl in Hr. subst o. reflexivity.
Qed.

Lemma store_in_cache_raised (key : string) (value : nat) (ttl : Z)
    (v text : cache_entry response) s :
  cache_available s = true ->
  heap s !! value = Some v ->
  json_dumps v = Some text ->
  fst (redis_call (Redis.SETEX key ttl text) s) = Raised ->
  _store_in_cache key value ttl s = (Returned tt, snd (redis_call (Redis.SETEX key ttl text) s)).
Proof.
  intros Hav Hv Ht Hr. unfold _store_in_cache. rewrite Hav, Hv, Ht. unfold try_except.
  destruct (redis_call (Redis.SETEX key ttl text) s) as [o s1]. simpl in Hr. subst o. reflexivity.
Qed.

Lemma store_in_cache_unwritten (key : string) (value : nat) (ttl : Z)
    (v : cache_entry response) s :
  cache_available s = true ->
  heap s !! value = Some v ->
  json_dumps v = None ->
  _store_in_cache key value ttl s = (Returned tt, s).
Proof.
  intros Hav Hv Ht. unfold _store_in_cache. rewrite Hav, Hv, Ht. reflexivity.
Qed.

(** C8: no call of [get_cached_response] or [cache_response] raises.
    When the server's [GET] fails, [_get_from_cache] answers [None];
    when its [SETEX] fails, or [json.dumps] raises before it is sent,
    [_store_in_cache] returns and has stored nothing; either way the
    keyspace, the heap and the instance's own dict are as they were. *)
Theorem backend_failures_absorbed (key : string) (value : nat) (ttl : Z)
    (s : SmartCache response) :
  ((forall model_id messages max_tokens threshold,
       exists r s',
         get_cached_response model_id messages max_tokens threshold s = (Returned r, s'))
   /\ (forall model_id messages (r : response) max_tokens ttl',
         exists s', cache_response model_id messages r max_tokens ttl' s = (Returned tt, s'))
   /\ (exists r s', _get_from_cache key s = (Returned r, s'))
   /\ (exists s', _store_in_cache key value ttl s = (Returned tt, s')))
  /\ (cache_available s = true ->
      (fst (redis_call (Redis.GET key) s) = Raised ->
       exists s',
         _get_from_cache key s = (Returned None, s')
         /\ Redis.db (redis s') = Redis.db (redis s)
         /\ heap s' = heap s /\ memory_cache s' = memory_cache s)
      /\ (forall v, heap s !! value = Some v ->
          match json_dumps v with
          | Some text => fst (redis_call (Redis.SETEX key ttl text) s) = Raised
          | None => True
          end ->
          exists s',
            _store_in_cache key value ttl s = (Returned tt, s')
            /\ Redis.db (redis s') = Redis.db (redis s)
            /\ heap s' = heap s /\ memory_cache s' = memory_cache s)).
Proof.
  split.
  - repeat split.
    + intros model_id messages max_tokens threshold.
      destruct (get_cached_response_returns model_id messages max_tokens threshold s)
        as [r Hr].
      destruct (get_cached_response _ _ _ _ s) as [o s']. simpl in Hr. subst o. eauto.
    + intros model_id messages r max_tokens ttl'.
      destruct (cache_response_returns model_id messages r max_tokens ttl' s) as [[] Hr].
      destruct (cache_response _ _ _ _ _ s) as [o s']. simpl in Hr. subst o. eauto.
    + destruct (get_from_cache_returns (response := response) key s) as [r Hr].
      destruct (_get_from_cache key s) as [o s']. simpl in Hr. subst o. eauto.
    + destruct (store_in_cache_returns (response := response) key value ttl s) as [[] Hr].
      destruct (_store_in_cache key value ttl s) as [o s']. simpl in Hr. subst o. eauto.
  - intros Hav. split.
    + intros Hr. eexists. split; [apply get_from_cache_raised; assumption|].
      destruct (redis_call_frame (Redis.GET key) s) as [Hh Hm].
      destruct (redis_call_cases (Redis.GET key) s) as [[_ Hd] | [_ Hd]].
      * auto.
      * rewrite GET_db in Hd. auto.
    + intros v Hv Hr. destruct (json_dumps v) as [text|] eqn:Ht.
      * eexists. split; [eapply store_in_cache_raised; eassumption|].
        destruct (redis_call_frame (Redis.SETEX key ttl text) s) as [Hh Hm].
        destruct (redis_call_cases (Redis.SETEX key ttl text) s) as [[_ Hd] | [Ho Hd]].
        -- auto.
        -- rewrite Hr in Ho. symmetry in Ho. apply SETEX_raised in Ho.
           rewrite Ho in Hd. auto.
      * exists s. split; [eapply store_in_cache_unwritten; eassumption | auto].
Qed.

End Failures.

Lemma backend_failures_absorbed_witness :
  cache_available flaky0 = true
  /\ fst (redis_call (Redis.GET "claude_cache:0") flaky0) = Raised
  /\ exists s', _get_from_cache "claude_cache:0" flaky0 = (Returned None, s')
                /\ Redis.db (redis s') = Redis.db (redis flaky0).
Proof.
  split; [reflexivity|]. split; [reflexivity|].
  destruct (backend_failures_absorbed "claude_cache:0" 0%nat 3600 flaky0) as [_ H].
  destruct (H eq_refl) as [Hget _].
  destruct (Hget eq_refl) as (s' & E & Hd & _).
  exists s'. split; [exact E | exact Hd].
Defined.

(** ** The networked backend *)

Section Networked.

Context {response : Type} {json : Json_reading response}.

Implicit Types (s : SmartCache response) (d : Redis.keyspace (cache_entry response)).

Lemma semantic_key_not_exact (a b : string) :
  "semantic_index:" +:+ a <> "claude_cache:" +:+ b.
Proof. simpl. discriminate. Qed.

Lemma index_key_not_cache_key model_id user_message model_id' messages max_tokens :
  _generate_cache_key model_id' messages max_tokens
  <> semantic_index_key model_id user_message.
Proof.
  unfold _generate_cache_key, semantic_index_key. intros H. symmetry in H.
  exact (semantic_key_not_exact _ _ H).
Qed.

Lemma same_binding_refl k s : same_binding k s s.
Proof. reflexivity. Qed.

Lemma same_binding_trans k s1 s2 s3 :
  same_binding k s1 s2 -> same_binding k s2 s3 -> same_binding k s1 s3.
Proof. unfold same_binding. congruence. Qed.

Lemma stays_healthy_refl s : stays_healthy s s.
Proof. intros H. exact H. Qed.

Lemma stays_healthy_trans s1 s2 s3 :
  stays_healthy s1 s2 -> stays_healthy s2 s3 -> stays_healthy s1 s3.
Proof. unfold stays_healthy. auto. Qed.

Lemma redis_call_stays_healthy {A} (cmd : Redis.command (cache_entry response) A) :
  preserves stays_healthy (redis_call cmd).
Proof.
  intros s H. unfold redis_call.
  pose proof (call_stays_healthy cmd (clock s) (redis s) H) as H'.
  destruct (Redis.call cmd (clock s) (redis s)) as [o c]. exact H'.
Qed.

Lemma redis_call_same_binding {A} k (cmd : Redis.command (cache_entry response) A) :
  (forall now d, Redis.find k (snd (cmd now d)) = Redis.find k d) ->
  preserves (same_binding k) (redis_call cmd).
Proof.
  intros Hcmd s. unfold same_binding.
  destruct (redis_call_cases cmd s) as [[_ ->] | [_ ->]]; [reflexivity | apply Hcmd].
Qed.

Lemma HSET_other k k' mapping now d :
  k <> k' -> Redis.find k (snd (Redis.HSET k' mapping now d)) = Redis.find k d.
Proof.
  intros Hne. unfold Redis.HSET.
  destruct (Redis.lookup now k' d) as [[[v|h] t]|]; simpl;
    try reflexivity; apply find_store_other, Hne.
Qed.

Lemma EXPIRE_other k k' ttl now d :
  k <> k' -> Redis.find k (snd (Redis.EXPIRE k' ttl now d)) = Redis.find k d.
Proof.
  intros Hne. unfold Redis.EXPIRE.
  destruct (negb (Redis.in_range now ttl)); [reflexivity|].
  destruct (Redis.lookup now k' d) as [[v t]|]; simpl; [|reflexivity].
  destruct (ttl <=? 0); simpl; [apply find_remove_other | apply find_store_other]; exact Hne.
Qed.

Lemma create_semantic_index_same_binding k model_id user_message response_key ttl :
  k <> semantic_index_key model_id user_message ->
  preserves (@same_binding response k)
    (_create_semantic_index model_id user_message response_key ttl).
Proof.
  intros Hne s. unfold _create_semantic_index. destruct (cache_available s); simpl.
  - apply (preserves_try (same_binding k) (same_binding_trans k)).
    + apply (preserves_bind (same_binding k) (same_binding_trans k)).
      { apply redis_call_same_binding. intros; apply HSET_other, Hne. }
      intros _. apply (preserves_bind (same_binding k) (same_binding_trans k)).
      { apply redis_call_same_binding. intros; apply EXPIRE_other, Hne. }
      intros _. apply (preserves_ret (same_binding k) (same_binding_refl k)).
    + apply (preserves_ret (same_binding k) (same_binding_refl k)).
  - apply same_binding_refl.
Qed.

Lemma create_semantic_index_stays_healthy model_id user_message response_key ttl :
  preserves (@stays_healthy response)
    (_create_semantic_index model_id user_message response_key ttl).
Proof.
  intros s. unfold _create_semantic_index. destruct (cache_available s); simpl.
  - apply (preserves_try stays_healthy stays_healthy_trans).
    + apply (preserves_bind stays_healthy stays_healthy_trans);
        [apply redis_call_stays_healthy|].
      intros _. apply (preserves_bind stays_healthy stays_healthy_trans);
        [apply redis_call_stays_healthy|].
      intros _. apply (preserves_ret stays_healthy stays_healthy_refl).
    + apply (preserves_ret stays_healthy stays_healthy_refl).
  - apply stays_healthy_refl.
Qed.

(** The indexing step of [cache_response], from the messages. *)
Lemma index_step_frame k model_id messages response_key ttl s :
  (forall um, k <> semantic_index_key model_id um) ->
  let s' :=
    snd (match last_user_message messages with
         | Some user_message =>
             if nonempty user_message then
               _create_semantic_index model_id user_message response_key ttl
             else ret tt
         | None => ret tt
         end s) in
  same_binding k s s' /\ stays_healthy s s' /\ kept s s'.
Proof.
  intros Hne. simpl.
  destruct (last_user_message messages) as [um|];
    [|repeat split; [apply stays_healthy_refl]].
  destruct (nonempty um); [|repeat split; [apply stays_healthy_refl]].
  split; [apply create_semantic_index_same_binding, Hne|].
  split; [apply create_semantic_index_stays_healthy | apply create_semantic_index_kept].
Qed.

Lemma redis_call_healthy {A} (cmd : Redis.command (cache_entry response) A) s :
  Redis.healthy (redis s) ->
  redis_call cmd s
  = (fst (cmd (clock s) (Redis.db (redis s))),
     set_redis (Redis.Conn (snd (cmd (clock s) (Redis.db (redis s))))
                  (tail (Redis.faults (redis s)))) s).
Proof. intros H. unfold redis_call. rewrite call_healthy by exact H. reflexivity. Qed.


Lemma valid_expiry_positive now ttl : Redis.valid_expiry now ttl = true -> 0 < ttl.
Proof.
  unfold Redis.valid_expiry. intros H. apply andb_true_iff in H as [H _].
  apply Z.ltb_lt in H. exact H.
Qed.

Lemma valid_expiry_in_range now ttl :
  Redis.valid_expiry now ttl = true -> Redis.in_range now ttl = true.
Proof. unfold Redis.valid_expiry. intros H. apply andb_true_iff in H as [_ H]. exact H. Qed.

Lemma store_in_cache_stored key value ttl v text s :
  cache_available s = true ->
  Redis.healthy (redis s) ->
  heap s !! value = Some v ->
  json_dumps v = Some text ->
  Redis.valid_expiry (clock s) ttl = true ->
  _store_in_cache key value ttl s
  = (Returned tt,
     set_redis
       (Redis.Conn
          (Redis.store key (Redis.Entry (Redis.Str text) (Some (clock s + ttl)))
             (Redis.db (redis s)))
          (tail (Redis.faults (redis s)))) s).
Proof.
  intros Hav Hh Hv Ht Httl. unfold _store_in_cache. rewrite Hav, Hv, Ht. unfold try_except.
  rewrite redis_call_healthy by exact Hh. unfold Redis.SETEX. rewrite Httl. reflexivity.
Qed.

Lemma json_dumps_new (r r' : response) timestamp model_id ttl :
  json_reading r = Some r' ->
  json_dumps (CacheEntry r timestamp model_id ttl None)
  = Some (CacheEntry r' timestamp model_id ttl None).
Proof. intros H. unfold json_dumps. cbn [e_response]. rewrite H. reflexivity. Qed.

Lemma tail_healthy (c : Redis.conn (cache_entry response)) d :
  Redis.healthy c -> Redis.healthy (Redis.Conn d (tail (Redis.faults c))).
Proof.
  unfold Redis.healthy. simpl. intros H.
  destruct (Redis.faults c) as [|b fs]; simpl; [constructor|].
  apply Forall_cons in H as [_ H]. exact H.
Qed.

(** On a healthy server a valid TTL gets the entry stored under the exact
    key, as [json.loads] will read it, to expire [ttl] seconds later. *)
Lemma cache_response_stored model_id messages (r r' : response) max_tokens ttl s :
  cache_available s = true ->
  Redis.healthy (redis s) ->
  Redis.valid_expiry (clock s) ttl = true ->
  json_reading r = Some r' ->
  let s1 := snd (cache_response model_id messages r max_tokens ttl s) in
  cache_available s1 = true /\ clock s1 = clock s /\ Redis.healthy (redis s1)
  /\ Redis.find (_generate_cache_key model_id messages max_tokens) (Redis.db (redis s1))
     = Some (Redis.Entry (Redis.Str (CacheEntry r' (isoformat (clock s)) model_id ttl None))
               (Some (clock s + ttl))).
Proof.
  intros Hav Hh Httl Hr. simpl. unfold cache_response.
  erewrite bind_returned by reflexivity. cbv beta.
  erewrite bind_returned.
  2:{ apply store_in_cache_stored with
        (v := CacheEntry r (isoformat (clock s)) model_id ttl None)
        (text := CacheEntry r' (isoformat (clock s)) model_id ttl None);
        [exact Hav | exact Hh | | apply json_dumps_new, Hr | exact Httl].
      simpl. rewrite lookup_app_r by lia. rewrite Nat.sub_diag. reflexivity. }
  set (s0 := set_redis _ _).
  pose proof (index_step_frame (_generate_cache_key model_id messages max_tokens)
                model_id messages (_generate_cache_key model_id messages max_tokens) ttl s0
                (fun um => index_key_not_cache_key model_id um model_id messages max_tokens))
    as H.
  cbv zeta in H.
  match type of H with same_binding _ _ ?t /\ _ =>
    cut (cache_available t = true /\ clock t = clock s /\ Redis.healthy (redis t)
         /\ Redis.find (_generate_cache_key model_id messages max_tokens) (Redis.db (redis t))
            = Some (Redis.Entry
                      (Redis.Str (CacheEntry r' (isoformat (clock s)) model_id ttl None))
                      (Some (clock s + ttl))));
    [intros Hx; exact Hx|]
  end.
  destruct H as (Hb & Hs & Hk & Ha & Hc).
  unfold same_binding in Hb. rewrite Ha, Hc, Hb.
  repeat split.
  - exact Hav.
  - apply Hs. apply tail_healthy, Hh.
  - apply find_store_same.
Qed.



End Networked.

(** A response made of JSON values reads back as it was written. *)
Lemma pyval_reading_json : forall v, is_json v = true -> pyval_reading v = Some v.
Proof.
  fix IH 1. intros [ | b | z | s | items | items | items | s ]; simpl;
    try reflexivity; try discriminate.
  - intros H.
    assert (E : (fix each (l : list pyval) : option (list pyval) :=
                   match l with
                   | [] => Some []
                   | x :: l' =>
                       match pyval_reading x, each l' with
                       | Some y, Some r => Some (y :: r)
                       | _, _ => None
                       end
                   end) items = Some items).
    { induction items as [|x l IHl]; [reflexivity|].
      simpl in H. apply andb_true_iff in H as [Hx Hl].
      rewrite (IH x Hx), (IHl Hl). reflexivity. }
    rewrite E. reflexivity.
  - intros H.
    assert (E : (fix each (l : list (string * pyval)) : option (list (string * pyval)) :=
                   match l with
                   | [] => Some []
                   | (k, x) :: l' =>
                       match pyval_reading x, each l' with
                       | Some y, Some r => Some ((k, y) :: r)
                       | _, _ => None
                       end
                   end) items = Some items).
    { induction items as [|[k x] l IHl]; [reflexivity|].
      simpl in H. apply andb_true_iff in H as [Hx Hl].
      rewrite (IH x Hx), (IHl Hl). reflexivity. }
    rewrite E. reflexivity.
Qed.




(** ** Time to live *)

Section Expiry.

Context {response : Type} {json : Json_reading response}.

Implicit Types (s : SmartCache response) (ks : Redis.keyspace (cache_entry response)).

Lemma no_new_doc_refl c ks : no_new_doc c ks ks.
Proof. intros k t _. right. reflexivity. Qed.

Lemma no_new_doc_trans c ks1 ks2 ks3 :
  no_new_doc c ks1 ks2 -> no_new_doc c ks2 ks3 -> no_new_doc c ks1 ks3.
Proof.
  intros H12 H23 k t Ht.
  destruct (H23 k t Ht) as [H | H]; [left; exact H|].
  rewrite H. apply H12, Ht.
Qed.

Lemma stored_doc_same_find t k ks ks' :
  Redis.find k ks' = Redis.find k ks -> stored_doc t ks' k = stored_doc t ks k.
Proof. intros H. unfold stored_doc, Redis.lookup. rewrite H. reflexivity. Qed.

(** Storing under [k0] something that shows no document from the
    deadline on. *)
Lemma store_no_new_doc c k0 (e : Redis.entry (cache_entry response)) ks :
  (forall t, c <= t ->
     Redis.live t e = false \/ exists h, Redis.content e = Redis.Hash h) ->
  no_new_doc c ks (Redis.store k0 e ks).
Proof.
  intros He k t Ht. destruct (String.eqb_spec k k0) as [->|Hne].
  - left. unfold stored_doc, Redis.lookup. rewrite find_store_same.
    destruct (He t Ht) as [-> | [h Hh]]; [reflexivity|].
    destruct (Redis.live t e); [|reflexivity].
    destruct e as [v x]. simpl in Hh. subst v. reflexivity.
  - right. apply stored_doc_same_find, find_store_other, Hne.
Qed.

Lemma remove_no_new_doc c k0 ks : no_new_doc c ks (Redis.remove k0 ks).
Proof.
  intros k t Ht. destruct (String.eqb_spec k k0) as [->|Hne].
  - left. unfold stored_doc, Redis.lookup. rewrite find_remove_same. reflexivity.
  - right. apply stored_doc_same_find, find_remove_other, Hne.
Qed.

Lemma SETEX_no_new_doc k ttl (v : cache_entry response) now ks :
  no_new_doc (now + ttl) ks (snd (Redis.SETEX k ttl v now ks)).
Proof.
  unfold Redis.SETEX. destruct (Redis.valid_expiry now ttl); simpl; [|apply no_new_doc_refl].
  apply store_no_new_doc. intros t Ht. left. simpl. apply Z.ltb_ge. exact Ht.
Qed.

Lemma HSET_no_new_doc c k mapping now ks :
  no_new_doc c ks (snd (Redis.HSET (doc := cache_entry response) k mapping now ks)).
Proof.
  unfold Redis.HSET.
  destruct (Redis.lookup now k ks) as [[[v|h] t]|]; simpl;
    try apply no_new_doc_refl;
    apply store_no_new_doc; intros; right; eexists; reflexivity.
Qed.

Lemma EXPIRE_no_new_doc k ttl now ks :
  no_new_doc (now + ttl) ks (snd (Redis.EXPIRE (doc := cache_entry response) k ttl now ks)).
Proof.
  unfold Redis.EXPIRE.
  destruct (negb (Redis.in_range now ttl)); [apply no_new_doc_refl|].
  destruct (Redis.lookup now k ks) as [[v t]|]; simpl; [|apply no_new_doc_refl].
  destruct (ttl <=? 0); simpl; [apply remove_no_new_doc|].
  apply store_no_new_doc. intros t' Ht. left. simpl. apply Z.ltb_ge. exact Ht.
Qed.

Lemma quiet_refl c now s : quiet c now s s.
Proof. intros H. split; [exact H | apply no_new_doc_refl]. Qed.

Lemma quiet_trans c now s1 s2 s3 : quiet c now s1 s2 -> quiet c now s2 s3 -> quiet c now s1 s3.
Proof.
  intros H12 H23 H1. destruct (H12 H1) as [H2 Hd12]. destruct (H23 H2) as [H3 Hd23].
  split; [exact H3 | eapply no_new_doc_trans; eassumption].
Qed.

Lemma redis_call_quiet {A} c now (cmd : Redis.command (cache_entry response) A) :
  (forall ks, no_new_doc c ks (snd (cmd now ks))) ->
  preserves (quiet c now) (redis_call cmd).
Proof.
  intros Hcmd s Hclock.
  destruct (redis_call_kept cmd s) as (_ & _ & Hc).
  split; [congruence|].
  destruct (redis_call_cases cmd s) as [[_ ->] | [_ ->]];
    [apply no_new_doc_refl | rewrite Hclock; apply Hcmd].
Qed.

Lemma store_in_cache_quiet now key value ttl :
  preserves (@quiet response (now + ttl) now) (_store_in_cache key value ttl).
Proof.
  intros s. unfold _store_in_cache. destruct (cache_available s).
  - apply (preserves_try (quiet (now + ttl) now) (quiet_trans (now + ttl) now)).
    + destruct (heap s !! value) as [v|]; [|intros s'; apply quiet_refl].
      destruct (json_dumps v) as [text|]; [|intros s'; apply quiet_refl].
      apply redis_call_quiet. intros; apply SETEX_no_new_doc.
    + apply (preserves_ret (quiet (now + ttl) now) (quiet_refl (now + ttl) now)).
  - intros H. split; [exact H | apply no_new_doc_refl].
Qed.

Lemma create_semantic_index_quiet now model_id user_message response_key ttl :
  preserves (@quiet response (now + ttl) now)
    (_create_semantic_index model_id user_message response_key ttl).
Proof.
  intros s. unfold _create_semantic_index. destruct (cache_available s); simpl.
  - apply (preserves_try (quiet (now + ttl) now) (quiet_trans (now + ttl) now)).
    + apply (preserves_bind (quiet (now + ttl) now) (quiet_trans (now + ttl) now)).
      { apply redis_call_quiet. intros; apply HSET_no_new_doc. }
      intros _. apply (preserves_bind (quiet (now + ttl) now) (quiet_trans (now + ttl) now)).
      { apply redis_call_quiet. intros; apply EXPIRE_no_new_doc. }
      intros _. apply (preserves_ret (quiet (now + ttl) now) (quiet_refl (now + ttl) now)).
    + apply (preserves_ret (quiet (now + ttl) now) (quiet_refl (now + ttl) now)).
  - apply quiet_refl.
Qed.

Lemma cache_response_quiet now model_id messages (r : response) max_tokens ttl :
  preserves (quiet (now + ttl) now) (cache_response model_id messages r max_tokens ttl).
Proof.
  unfold cache_response.
  apply (preserves_bind (quiet (now + ttl) now) (quiet_trans (now + ttl) now)).
  { intros s H. split; [exact H | apply no_new_doc_refl]. }
  intros l. apply (preserves_bind (quiet (now + ttl) now) (quiet_trans (now + ttl) now));
    [apply store_in_cache_quiet|].
  intros _. destruct (last_user_message messages) as [um|];
    [|apply (preserves_ret (quiet (now + ttl) now) (quiet_refl (now + ttl) now))].
  destruct (nonempty um);
    [apply create_semantic_index_quiet
    |apply (preserves_ret (quiet (now + ttl) now) (quiet_refl (now + ttl) now))].
Qed.

Lemma store_in_cache_refused key value ttl :
  ttl <= 0 -> preserves (@same_binding response key) (_store_in_cache key value ttl).
Proof.
  intros Httl s. unfold _store_in_cache. destruct (cache_available s).
  - apply (preserves_try (same_binding key) (same_binding_trans key)).
    + destruct (heap s !! value) as [v|]; [|intros s'; reflexivity].
      destruct (json_dumps v) as [text|]; [|intros s'; reflexivity].
      apply redis_call_same_binding. intros now ks. unfold Redis.SETEX.
      destruct (Redis.valid_expiry now ttl) eqn:E; [|reflexivity].
      apply valid_expiry_positive in E. lia.
    + apply (preserves_ret (same_binding key) (same_binding_refl key)).
  - reflexivity.
Qed.

Lemma get_from_cache_miss key s :
  cache_available s = true ->
  stored_doc (clock s) (Redis.db (redis s)) key = None ->
  fst (_get_from_cache key s) = Returned None.
Proof.
  intros Hav Hnone. unfold _get_from_cache. rewrite Hav. unfold try_except, bind.
  destruct (redis_call_cases (Redis.GET key) s) as [[Ho _] | [Ho _]];
    destruct (redis_call (Redis.GET key) s) as [o s1]; simpl in Ho; subst o;
    [reflexivity|].
  unfold Redis.GET. unfold stored_doc in Hnone.
  destruct (Redis.lookup (clock s) key (Redis.db (redis s))) as [[[v|h] t]|];
    [discriminate | reflexivity | reflexivity].
Qed.

End Expiry.

(** ** Where the code parts from its own design *)

(** C2 at "Hi?": [_create_semantic_index] hashes the message as it came.
    The record is written under the digest of "Hi?", and nothing is bound
    under the digest of the normalised text "hi", the digest that
    [_generate_semantic_key] computes and that no method asks for. *)
Theorem semantic_index_key_hashes_raw_text :
  let s1 := snd (cache_response "m" [user "Hi?"] "R" None 3600 networked0) in
  normalize "Hi?" = "hi"
  /\ _generate_semantic_key "Hi?" = "semantic:49f68a5c8493"
  /\ map fst (Redis.db (redis s1))
     = ["semantic_index:m:6356c3e04c9a"; "claude_cache:80d13a769af3a5ea9831b70807d781fd"]
  /\ semantic_index_key "m" "Hi?" = "semantic_index:m:6356c3e04c9a"
  /\ semantic_index_key "m" (normalize "Hi?") = "semantic_index:m:49f68a5c8493"
  /\ Redis.find (semantic_index_key "m" (normalize "Hi?")) (Redis.db (redis s1)) = None
  /\ record_field (clock s1) (Redis.db (redis s1)) (semantic_index_key "m" "Hi?") "message"
     = Some "Hi?".
Proof. vm_compute. repeat split. Qed.

(** C4 on the in-process backend: the dict that [get_cached_response]
    tags is the stored one, so after an exact hit the stored entry carries
    a [cache_type] it did not have.  On the server the same two calls
    leave the stored document as it was written. *)
Theorem exact_hit_mutates_stored_entry :
  let key := _generate_cache_key "m" [user "hello"] None in
  let put (s : SmartCache string) := snd (cache_response "m" [user "hello"] "R" None 3600 s) in
  let get (s : SmartCache string) :=
    snd (get_cached_response "m" [user "hello"] None (85 # 100) s) in
  stored_entry key (put fallback0) = Some (CacheEntry "R" "1000" "m" 3600 None)
  /\ stored_entry key (get (put fallback0))
     = Some (CacheEntry "R" "1000" "m" 3600 (Some "exact_match"))
  /\ stored_doc 1000 (Redis.db (redis (put networked0))) key
     = Some (CacheEntry "R" "1000" "m" 3600 None)
  /\ stored_doc 1000 (Redis.db (redis (get (put networked0)))) key
     = Some (CacheEntry "R" "1000" "m" 3600 None).
Proof. vm_compute. repeat split. Qed.

(** C5 at two model identifiers, one a prefix of the other up to the
    colon: the pattern of the shorter one matches the index keys of the
    longer one, and a lookup for the shorter one returns the entry that
    was stored for the longer one. *)
Theorem semantic_lookup_crosses_models :
  let s1 :=
    snd (cache_response haiku [user "What are your business hours?"]
           "answer of v1:0" None 3600 networked0) in
  haiku <> haiku_base
  /\ Glob.matches ("semantic_index:" +:+ haiku_base +:+ ":*")
       (semantic_index_key haiku "What are your business hours?") = true
  /\ returned_entry
       (get_cached_response haiku_base [user "What are your business hours?"] None
          (85 # 100) s1)
     = Some (CacheEntry "answer of v1:0" "1000" haiku 3600 (Some "semantic_match")).
Proof. vm_compute. repeat split. discriminate. Qed.

(** ** The scan of the semantic index *)

Section Pick.

Local Open Scope list_scope.

Implicit Types (cands : list (Q * string)) (q thr : Q).

Lemma Qlt_bool_iff (x y : Q) : Qlt_bool x y = true <-> (x < y)%Q.
Proof.
  unfold Qlt_bool. rewrite negb_true_iff. split.
  - intros H. apply Qnot_le_lt. intros Hle. apply Qle_bool_iff in Hle. congruence.
  - intros H. destruct (Qle_bool y x) eqn:E; [|reflexivity].
    apply Qle_bool_iff in E. lra.
Qed.

Lemma pick_cond thr (bs q : Q) :
  Qlt_bool bs q && Qle_bool thr q = true <-> (bs < q)%Q /\ (thr <= q)%Q.
Proof. rewrite andb_true_iff, Qlt_bool_iff, Qle_bool_iff. reflexivity. Qed.

Lemma lookup_snoc_cases {A} (pre : list A) (c x : A) (j : nat) :
  (pre ++ [c]) !! j = Some x ->
  ((j < length pre)%nat /\ pre !! j = Some x) \/ (j = length pre /\ x = c).
Proof.
  intros H. destruct (decide (j < length pre)%nat) as [Hj|Hj].
  - left. split; [exact Hj|]. rewrite lookup_app_l in H by exact Hj. exact H.
  - right. pose proof (lookup_lt_Some _ _ _ H) as Hlt.
    rewrite length_app in Hlt. simpl in Hlt.
    assert (j = length pre) as -> by lia. split; [reflexivity|].
    rewrite lookup_app_r in H by lia. rewrite Nat.sub_diag in H.
    simpl in H. congruence.
Qed.

Lemma picked_step thr pre acc (c : Q * string) :
  picked thr pre acc -> picked thr (pre ++ [c]) (pick thr acc c).
Proof.
  destruct acc as [best bs]. destruct c as [qc rkc]. unfold pick. simpl.
  intros [(Hb & Hs & Hall) | (i & q & rk & Hb & Hs & [Hi Hmax] & Hthr & Hpos)];
    simpl in *; subst.
  - destruct (Qlt_bool 0 qc && Qle_bool thr qc) eqn:E.
    + apply pick_cond in E as [E1 E2]. right.
      exists (length pre), qc, rkc. simpl.
      split; [reflexivity|]. split; [reflexivity|]. split; [|split; assumption].
      split.
      * rewrite lookup_app_r by lia. rewrite Nat.sub_diag. reflexivity.
      * intros j q' rk' Hj.
        destruct (lookup_snoc_cases _ _ _ _ Hj) as [[Hlt Hj'] | [-> Heq]].
        -- specialize (Hall j q' rk' Hj'). split; [|intros _]; lra.
        -- injection Heq as -> ->. split; [lra | lia].
    + left. simpl. split; [reflexivity|]. split; [reflexivity|].
      intros j q' rk' Hj.
      destruct (lookup_snoc_cases _ _ _ _ Hj) as [[Hlt Hj'] | [-> Heq]].
      * apply (Hall j q' rk' Hj').
      * injection Heq as -> ->. intros [H1 H2].
        assert (Qlt_bool 0 qc && Qle_bool thr qc = true)
          by (apply pick_cond; split; assumption).
        congruence.
  - pose proof (lookup_lt_Some _ _ _ Hi) as Hlen.
    destruct (Qlt_bool q qc && Qle_bool thr qc) eqn:E.
    + apply pick_cond in E as [E1 E2]. right.
      exists (length pre), qc, rkc. simpl.
      split; [reflexivity|]. split; [reflexivity|]. split; [|split; [assumption | lra]].
      split.
      * rewrite lookup_app_r by lia. rewrite Nat.sub_diag. reflexivity.
      * intros j q' rk' Hj.
        destruct (lookup_snoc_cases _ _ _ _ Hj) as [[Hlt Hj'] | [-> Heq]].
        -- destruct (Hmax j q' rk' Hj') as [Hle _]. split; [|intros _]; lra.
        -- injection Heq as -> ->. split; [lra | lia].
    + right. exists i, q, rk. simpl.
      split; [reflexivity|]. split; [reflexivity|]. split; [|split; assumption].
      split.
      * rewrite lookup_app_l by exact Hlen. exact Hi.
      * intros j q' rk' Hj.
        destruct (lookup_snoc_cases _ _ _ _ Hj) as [[Hlt Hj'] | [-> Heq]].
        -- apply (Hmax j q' rk' Hj').
        -- injection Heq as -> ->. split; [|lia].
           destruct (Qlt_le_dec q qc) as [Hlt|Hle]; [|exact Hle].
           assert (Qlt_bool q qc && Qle_bool thr qc = true)
             by (apply pick_cond; split; [exact Hlt | lra]).
           congruence.
Qed.

Lemma picked_fold thr suf : forall pre acc,
  picked thr pre acc -> picked thr (pre ++ suf) (fold_left (pick thr) suf acc).
Proof.
  induction suf as [|c suf IH]; intros pre acc H; simpl.
  - rewrite app_nil_r. exact H.
  - replace (pre ++ c :: suf) with ((pre ++ [c]) ++ suf)
      by (rewrite <- app_assoc; reflexivity).
    apply IH, picked_step, H.
Qed.

Lemma picked_all thr cands : picked thr cands (fold_left (pick thr) cands (None, 0%Q)).
Proof.
  apply (picked_fold thr cands [] (None, 0%Q)). left.
  split; [reflexivity|]. split; [reflexivity|]. intros j q rk H. discriminate.
Qed.

End Pick.

Section Scan.

Context {response : Type} {json : Json_reading response}.

Local Open Scope list_scope.

Implicit Types (s : SmartCache response) (ks : Redis.keyspace (cache_entry response)).

Lemma scan_frame_refl s : scan_frame s s.
Proof.
  repeat split; auto. exists []. rewrite app_nil_r. reflexivity.
Qed.

Lemma scan_frame_trans s1 s2 s3 : scan_frame s1 s2 -> scan_frame s2 s3 -> scan_frame s1 s3.
Proof.
  intros (Ha & Hc & Hd & Hh & [e1 He1]) (Ha' & Hc' & Hd' & Hh' & [e2 He2]).
  repeat split; try congruence; auto.
  exists (e1 ++ e2). rewrite He2, He1, app_assoc. reflexivity.
Qed.

Lemma tracks_frame now ks s s' bm best :
  scan_frame s s' -> tracks now ks s bm best -> tracks now ks s' bm best.
Proof.
  intros (_ & _ & _ & _ & [ext He]). unfold tracks.
  destruct best as [rk|]; [|auto].
  destruct (stored_doc now ks rk) as [v|]; [|auto].
  intros (l & Hl & Hv). exists l. split; [exact Hl|].
  rewrite He. apply lookup_app_l_Some, Hv.
Qed.

(** A command that only reads, on a healthy connection. *)
Lemma redis_read {A} (cmd : Redis.command (cache_entry response) A) s :
  Redis.healthy (redis s) ->
  (forall now ks, snd (cmd now ks) = ks) ->
  exists s',
    redis_call cmd s = (fst (cmd (clock s) (Redis.db (redis s))), s')
    /\ scan_frame s s' /\ heap s' = heap s.
Proof.
  intros Hh Hro. rewrite redis_call_healthy by exact Hh. eexists. split; [reflexivity|].
  split; [|reflexivity].
  repeat split; simpl.
  - apply Hro.
  - intros _. apply tail_healthy, Hh.
  - exists []. rewrite app_nil_r. reflexivity.
Qed.

Lemma HGET_db (k f : string) now ks : snd (Redis.HGET k f now ks) = ks.
Proof.
  unfold Redis.HGET. destruct (Redis.lookup now k ks) as [[[v|h] t]|]; reflexivity.
Qed.

Lemma KEYS_db (pattern : string) now ks : snd (Redis.KEYS pattern now ks) = ks.
Proof. reflexivity. Qed.

Lemma get_from_cache_deref rk s :
  cache_available s = true ->
  Redis.healthy (redis s) ->
  exists bm s',
    _get_from_cache rk s = (Returned bm, s')
    /\ scan_frame s s'
    /\ tracks (clock s) (Redis.db (redis s)) s' bm (Some rk).
Proof.
  intros Hav Hh. unfold _get_from_cache. rewrite Hav. unfold try_except, bind.
  rewrite redis_call_healthy by exact Hh. unfold tracks, stored_doc, Redis.GET.
  destruct (Redis.lookup (clock s) rk (Redis.db (redis s))) as [[[v|h] t]|]; simpl.
  - eexists _, _. split; [reflexivity|]. split.
    + repeat split; simpl. { intros _. apply tail_healthy, Hh. } exists [v]. reflexivity.
    + exists (length (heap s)). split; [reflexivity|]. simpl.
      rewrite lookup_app_r by lia. rewrite Nat.sub_diag. reflexivity.
  - eexists _, _. split; [reflexivity|]. split; [|reflexivity].
    repeat split; simpl. { intros _. apply tail_healthy, Hh. }
    exists []. rewrite app_nil_r. reflexivity.
  - eexists _, _. split; [reflexivity|]. split; [|reflexivity].
    repeat split; simpl. { intros _. apply tail_healthy, Hh. }
    exists []. rewrite app_nil_r. reflexivity.
Qed.

Lemma scan_key_step user_message threshold bm bs best key s :
  cache_available s = true ->
  Redis.healthy (redis s) ->
  record_ok (clock s) (Redis.db (redis s)) key ->
  tracks (clock s) (Redis.db (redis s)) s bm best ->
  let acc' :=
    match candidate user_message (clock s) (Redis.db (redis s)) key with
    | Some c => pick threshold (best, bs) c
    | None => (best, bs)
    end in
  exists bm' s',
    scan_key user_message threshold (bm, bs) key s = (Returned (bm', snd acc'), s')
    /\ scan_frame s s'
    /\ tracks (clock s) (Redis.db (redis s)) s' bm' (fst acc').
Proof.
  intros Hav Hh (h & t & Hlook & Hrk) Htr. simpl.
  unfold scan_key, candidate, record_field. rewrite Hlook.
  destruct (redis_read (Redis.HGET key "message") s Hh (HGET_db key "message"))
    as (s1 & E1 & F1 & H1).
  unfold Redis.HGET in E1 at 2. rewrite Hlook in E1. simpl in E1.
  erewrite bind_returned by exact E1.
  destruct (h !! "message") as [m|] eqn:Hm.
  2:{ eexists _, _. split; [reflexivity|]. split; [exact F1|].
      eapply tracks_frame; eassumption. }
  destruct (nonempty m) eqn:Hne.
  2:{ eexists _, _. split; [reflexivity|]. split; [exact F1|].
      eapply tracks_frame; eassumption. }
  destruct (Hrk m eq_refl Hne) as (rk & Hrk1 & Hrk2). rewrite Hrk1. simpl.
  unfold pick. simpl.
  set (similarity := Difflib.ratio (Text.lower user_message) (Text.lower m)).
  destruct (Qlt_bool bs similarity && Qle_bool threshold similarity).
  2:{ eexists _, _. split; [reflexivity|]. split; [exact F1|].
      eapply tracks_frame; eassumption. }
  pose proof F1 as (Ha1 & Hc1 & Hd1 & Hh1 & Hx1).
  assert (Hh1' : Redis.healthy (redis s1)) by (apply Hh1, Hh).
  destruct (redis_read (Redis.HGET key "response_key") s1 Hh1' (HGET_db key "response_key"))
    as (s2 & E2 & F2 & H2).
  unfold Redis.HGET in E2 at 2. rewrite Hc1, Hd1, Hlook in E2. simpl in E2.
  rewrite Hrk1 in E2.
  erewrite bind_returned by exact E2. cbv beta iota. rewrite Hrk2.
  pose proof F2 as (Ha2 & Hc2 & Hd2 & Hh2 & Hx2).
  destruct (get_from_cache_deref rk s2) as (bm' & s3 & E3 & F3 & T3).
  { congruence. }
  { auto. }
  erewrite bind_returned by exact E3.
  exists bm', s3. split; [reflexivity|]. split.
  - eapply scan_frame_trans; [exact F1|]. eapply scan_frame_trans; [exact F2 | exact F3].
  - simpl. rewrite Hc2, Hc1, Hd2, Hd1 in T3. exact T3.
Qed.

Lemma scan_keys_fold user_message threshold keys : forall bm bs best s,
  cache_available s = true ->
  Redis.healthy (redis s) ->
  Forall (record_ok (clock s) (Redis.db (redis s))) keys ->
  tracks (clock s) (Redis.db (redis s)) s bm best ->
  let acc' :=
    fold_left (pick threshold)
      (omap (candidate user_message (clock s) (Redis.db (redis s))) keys) (best, bs) in
  exists bm' s',
    for_each (scan_key user_message threshold) keys (bm, bs) s = (Returned (bm', snd acc'), s')
    /\ scan_frame s s'
    /\ tracks (clock s) (Redis.db (redis s)) s' bm' (fst acc').
Proof.
  induction keys as [|key keys IH]; intros bm bs best s Hav Hh Hok Htr; simpl.
  - exists bm, s. split; [reflexivity|]. split; [apply scan_frame_refl | exact Htr].
  - apply Forall_cons in Hok as [Hkey Hok].
    destruct (scan_key_step user_message threshold bm bs best key s Hav Hh Hkey Htr)
      as (bm1 & s1 & E1 & F1 & T1).
    cbv zeta in E1, T1.
    erewrite bind_returned by exact E1.
    pose proof F1 as (Ha1 & Hc1 & Hd1 & Hh1 & Hx1).
    set (acc1 := match candidate user_message (clock s) (Redis.db (redis s)) key with
                 | Some c => pick threshold (best, bs) c
                 | None => (best, bs)
                 end) in *.
    destruct (IH bm1 (snd acc1) (fst acc1) s1) as (bm2 & s2 & E2 & F2 & T2).
    { congruence. }
    { auto. }
    { rewrite Hc1, Hd1. exact Hok. }
    { rewrite Hc1, Hd1. exact T1. }
    cbv zeta in E2, T2. rewrite Hc1, Hd1 in E2, T2.
    rewrite <- surjective_pairing in E2, T2.
    assert (Hacc : fold_left (pick threshold)
                     (omap (candidate user_message (clock s) (Redis.db (redis s)))
                        (key :: keys)) (best, bs)
                   = fold_left (pick threshold)
                       (omap (candidate user_message (clock s) (Redis.db (redis s))) keys)
                       acc1).
    { simpl. unfold acc1.
      destruct (candidate user_message (clock s) (Redis.db (redis s)) key); reflexivity. }
    simpl in Hacc. rewrite Hacc.
    exists bm2, s2. split; [exact E2|]. split; [|exact T2].
    eapply scan_frame_trans; eassumption.
Qed.

Lemma find_similar_outcome user_message model_id threshold s :
  cache_available s = true ->
  Redis.healthy (redis s) ->
  Forall (record_ok (clock s) (Redis.db (redis s)))
    (scanned_keys model_id (clock s) (Redis.db (redis s))) ->
  exists s',
    scan_frame s s'
    /\ snd (_find_similar_cached_response user_message model_id threshold s) = s'
    /\ semantic_outcome threshold
         (candidates user_message model_id (clock s) (Redis.db (redis s)))
         (clock s) (Redis.db (redis s)) (fun v => v)
         (_find_similar_cached_response user_message model_id threshold s).
Proof.
  intros Hav Hh Hok.
  destruct (redis_read (Redis.KEYS ("semantic_index:" +:+ model_id +:+ ":*")) s Hh
              (KEYS_db _)) as (s1 & E1 & F1 & H1).
  unfold Redis.KEYS in E1 at 2. cbn [fst] in E1.
  pose proof F1 as (Ha1 & Hc1 & Hd1 & Hh1 & Hx1).
  destruct (scan_keys_fold user_message threshold
              (scanned_keys model_id (clock s) (Redis.db (redis s))) None 0%Q None s1)
    as (bm & s2 & E2 & F2 & T2).
  { congruence. }
  { auto. }
  { rewrite Hc1, Hd1. exact Hok. }
  { reflexivity. }
  cbv zeta in E2, T2. rewrite Hc1, Hd1 in E2, T2.
  unfold candidates.
  set (cands := omap (candidate user_message (clock s) (Redis.db (redis s)))
                  (scanned_keys model_id (clock s) (Redis.db (redis s)))) in *.
  pose proof (picked_all threshold cands) as Hp.
  set (acc := fold_left (pick threshold) cands (None, 0%Q)) in *.
  assert (Hrun :
    _find_similar_cached_response user_message model_id threshold s = (Returned bm, s2)).
  { unfold _find_similar_cached_response. rewrite Hav. cbn [negb]. cbv iota.
    unfold try_except.
    erewrite bind_returned by exact E1.
    erewrite bind_returned by exact E2. reflexivity. }
  rewrite Hrun. exists s2.
  split; [eapply scan_frame_trans; eassumption|]. split; [reflexivity|].
  unfold semantic_outcome. cbn [fst snd].
  destruct Hp as [(Hb & _ & Hall) | (i & q & rk & Hb & _ & Hfg & Hthr & Hpos)].
  - right. split; [exact Hall|]. rewrite Hb in T2. simpl in T2. rewrite T2. reflexivity.
  - left. exists i, q, rk. split; [exact Hfg|]. split; [exact Hthr|]. split; [exact Hpos|].
    rewrite Hb in T2. unfold tracks in T2.
    destruct (stored_doc (clock s) (Redis.db (redis s)) rk) as [v|].
    + destruct T2 as (l & -> & Hl). exists l. split; [reflexivity | exact Hl].
    + rewrite T2. reflexivity.
Qed.

End Scan.


Section SemanticGet.

Context {response : Type} {json : Json_reading response}.

Local Open Scope list_scope.

(** C6, as the code has it.  On a healthy server whose index records are
    those that [cache_response] writes, a call that misses on the exact
    key and has a user message returns the exact entry of the first
    scanned candidate with the greatest score, tagged [semantic_match],
    provided that score reaches the threshold and is positive; when that
    entry is gone the call is a miss, and no other candidate is tried.
    When no candidate reaches the threshold with a positive score the call
    is a miss: a score of zero is never selected, whatever the threshold. *)
Theorem semantic_lookup_first_greatest (model_id : string) (messages : list message)
    (max_tokens : option Z) (threshold : Q) (user_message : string)
    (s : SmartCache response) :
  cache_available s = true ->
  Redis.healthy (redis s) ->
  stored_doc (clock s) (Redis.db (redis s))
    (_generate_cache_key model_id messages max_tokens) = None ->
  last_user_message messages = Some user_message ->
  nonempty user_message = true ->
  Forall (record_ok (clock s) (Redis.db (redis s)))
    (scanned_keys model_id (clock s) (Redis.db (redis s))) ->
  semantic_outcome threshold
    (candidates user_message model_id (clock s) (Redis.db (redis s)))
    (clock s) (Redis.db (redis s)) (with_cache_type "semantic_match")
    (get_cached_response model_id messages max_tokens threshold s).
Proof.
  intros Hav Hh Hmiss Hum Hne Hok.
  unfold get_cached_response.
  erewrite bind_returned by reflexivity. cbv beta.
  match goal with |- context [bind (_get_from_cache ?key) _ ?s0] =>
    destruct (get_from_cache_deref key s0 Hav Hh) as (bm & s1 & E1 & F1 & T1);
    set (st0 := s0) in *
  end.
  change (clock st0) with (clock s) in T1.
  change (Redis.db (redis st0)) with (Redis.db (redis s)) in T1.
  unfold tracks in T1. rewrite Hmiss in T1. subst bm.
  erewrite bind_returned by exact E1. cbv beta iota.
  rewrite Hum, Hne.
  pose proof F1 as (Ha1 & Hc1 & Hd1 & Hh1 & Hx1).
  change (cache_available st0) with (cache_available s) in Ha1.
  change (clock st0) with (clock s) in Hc1.
  change (Redis.db (redis st0)) with (Redis.db (redis s)) in Hd1.
  change (redis st0) with (redis s) in Hh1.
  destruct (find_similar_outcome user_message model_id threshold s1) as (s2 & F2 & E2 & O2).
  { congruence. }
  { auto. }
  { rewrite Hc1, Hd1. exact Hok. }
  rewrite Hc1, Hd1 in O2.
  destruct (_find_similar_cached_response user_message model_id threshold s1) as [o r2] eqn:G2.
  simpl in E2. subst r2.
  unfold semantic_outcome in *. cbn [fst snd] in O2.
  destruct O2 as [(i & q & rk & Hfg & Hthr & Hpos & Hres) | (Hall & Hres)].
  - left. exists i, q, rk.
    split; [exact Hfg|]. split; [exact Hthr|]. split; [exact Hpos|].
    destruct (stored_doc (clock s) (Redis.db (redis s)) rk) as [v|].
    + destruct Hres as (l & -> & Hl).
      erewrite bind_returned by exact G2. cbv beta iota.
      do 2 (erewrite bind_returned by reflexivity).
      exists l. split; [reflexivity|]. simpl.
      rewrite list_lookup_alter_eq, Hl. reflexivity.
    + subst o. erewrite bind_returned by exact G2. reflexivity.
  - right. split; [exact Hall|].
    subst o. erewrite bind_returned by exact G2. reflexivity.
Qed.

End SemanticGet.

(** C6, as stated, fails at threshold 0: the one record scanned scores 0
    against the query, which reaches the threshold, so the stated rule
    selects it and gives its entry; the code starts its running best at 0
    and asks for a strictly greater score, and returns nothing. *)
Lemma zero_score_candidate_not_selected :
  map fst (candidates "xyz" "m" (clock indexed0) (Redis.db (redis indexed0))) = [(0 # 6)%Q]
  /\ semantic_lookup_spec "xyz" "m" 0%Q indexed0 = Some (CacheEntry "R" "1000" "m" 3600 None)
  /\ fst (_find_similar_cached_response "xyz" "m" 0%Q indexed0) = Returned None
  /\ fst (get_cached_response "m" [user "xyz"] None 0%Q indexed0) = Returned None.
Proof. vm_compute. repeat split. Qed.

(** Two records that tie against the query "abe", and a record that scores
    highest against "abc" while its entry is missing: the lookup does not
    fall back on the other record. *)
Lemma semantic_lookup_first_greatest_witness :
  (cache_available indexed2 = true
   /\ Redis.healthy (redis indexed2)
   /\ stored_doc (clock indexed2) (Redis.db (redis indexed2))
        (_generate_cache_key "m" [user "abe"] None) = None
   /\ last_user_message [user "abe"] = Some "abe"
   /\ nonempty "abe" = true
   /\ Forall (record_ok (clock indexed2) (Redis.db (redis indexed2)))
        (scanned_keys "m" (clock indexed2) (Redis.db (redis indexed2)))
   /\ map fst (candidates "abe" "m" (clock indexed2) (Redis.db (redis indexed2)))
      = [(4 # 6)%Q; (4 # 6)%Q]
   /\ semantic_outcome (1 # 2)%Q
        (candidates "abe" "m" (clock indexed2) (Redis.db (redis indexed2)))
        (clock indexed2) (Redis.db (redis indexed2)) (with_cache_type "semantic_match")
        (get_cached_response "m" [user "abe"] None (1 # 2)%Q indexed2))
  /\ (cache_available dangling0 = true
      /\ Redis.healthy (redis dangling0)
      /\ stored_doc (clock dangling0) (Redis.db (redis dangling0))
           (_generate_cache_key "m" [user "abc"] (Some 7)) = None
      /\ last_user_message [user "abc"] = Some "abc"
      /\ nonempty "abc" = true
      /\ Forall (record_ok (clock dangling0) (Redis.db (redis dangling0)))
           (scanned_keys "m" (clock dangling0) (Redis.db (redis dangling0)))
      /\ length (candidates "abc" "m" (clock dangling0) (Redis.db (redis dangling0))) = 2%nat
      /\ fst (get_cached_response "m" [user "abc"] (Some 7) (1 # 2)%Q dangling0)
         = Returned None
      /\ semantic_outcome (1 # 2)%Q
           (candidates "abc" "m" (clock dangling0) (Redis.db (redis dangling0)))
           (clock dangling0) (Redis.db (redis dangling0)) (with_cache_type "semantic_match")
           (get_cached_response "m" [user "abc"] (Some 7) (1 # 2)%Q dangling0)).
Proof.
  split.
  - assert (H1 : cache_available indexed2 = true) by reflexivity.
    assert (H2 : Redis.healthy (redis indexed2)) by (vm_compute; constructor).
    assert (H3 : stored_doc (clock indexed2) (Redis.db (redis indexed2))
                   (_generate_cache_key "m" [user "abe"] None) = None)
      by (vm_compute; reflexivity).
    assert (H4 : last_user_message [user "abe"] = Some "abe") by reflexivity.
    assert (H5 : nonempty "abe" = true) by reflexivity.
    assert (H6 : Forall (record_ok (clock indexed2) (Redis.db (redis indexed2)))
                   (scanned_keys "m" (clock indexed2) (Redis.db (redis indexed2)))).
    { replace (scanned_keys "m" (clock indexed2) (Redis.db (redis indexed2)))
        with ["semantic_index:m:" +:+ Text.take 12 (MD5.hexdigest "abd");
              "semantic_index:m:" +:+ Text.take 12 (MD5.hexdigest "abc")]
        by (vm_compute; reflexivity).
      constructor; [|constructor; [|constructor]];
        (eexists _, _; split; [vm_compute; reflexivity|];
         intros m _ _; eexists; split; [vm_compute; reflexivity | reflexivity]). }
    assert (H7 : map fst (candidates "abe" "m" (clock indexed2) (Redis.db (redis indexed2)))
                 = [(4 # 6)%Q; (4 # 6)%Q]) by (vm_compute; reflexivity).
    repeat (split; [assumption|]).
    exact (semantic_lookup_first_greatest "m" [user "abe"] None (1 # 2)%Q "abe" indexed2
             H1 H2 H3 H4 H5 H6).
  - assert (H1 : cache_available dangling0 = true) by reflexivity.
    assert (H2 : Redis.healthy (redis dangling0)) by (vm_compute; constructor).
    assert (H3 : stored_doc (clock dangling0) (Redis.db (redis dangling0))
                   (_generate_cache_key "m" [user "abc"] (Some 7)) = None)
      by (vm_compute; reflexivity).
    assert (H4 : last_user_message [user "abc"] = Some "abc") by reflexivity.
    assert (H5 : nonempty "abc" = true) by reflexivity.
    assert (H6 : Forall (record_ok (clock dangling0) (Redis.db (redis dangling0)))
                   (scanned_keys "m" (clock dangling0) (Redis.db (redis dangling0)))).
    { replace (scanned_keys "m" (clock dangling0) (Redis.db (redis dangling0)))
        with ["semantic_index:m:" +:+ Text.take 12 (MD5.hexdigest "abd");
              "semantic_index:m:" +:+ Text.take 12 (MD5.hexdigest "abc")]
        by (vm_compute; reflexivity).
      constructor; [|constructor; [|constructor]];
        (eexists _, _; split; [vm_compute; reflexivity|];
         intros m _ _; eexists; split; [vm_compute; reflexivity | reflexivity]). }
    assert (H7 : length (candidates "abc" "m" (clock dangling0) (Redis.db (redis dangling0)))
                 = 2%nat) by (vm_compute; reflexivity).
    assert (H8 : fst (get_cached_response "m" [user "abc"] (Some 7) (1 # 2)%Q dangling0)
                 = Returned None) by (vm_compute; reflexivity).
    repeat (split; [assumption|]).
    exact (semantic_lookup_first_greatest "m" [user "abc"] (Some 7) (1 # 2)%Q "abc" dangling0
             H1 H2 H3 H4 H5 H6).
Defined.

(** At the witness the entry does come back, tagged [semantic_match]. *)
Example semantic_hit_abd :
  returned_entry (get_cached_response "m" [user "abd"] None (1 # 2)%Q indexed0)
  = Some (CacheEntry "R" "1000" "m" 3600 (Some "semantic_match")).
Proof. vm_compute. reflexivity. Qed.

(** ** What a lookup can give back *)

Section Served.

Context {response : Type} {json : Json_reading response}.

Local Open Scope list_scope.

Implicit Types (s : SmartCache response) (ks : Redis.keyspace (cache_entry response)).

Lemma redis_call_reads {A} (cmd : Redis.command (cache_entry response) A) :
  (forall now ks, snd (cmd now ks) = ks) -> preserves scan_frame (redis_call cmd).
Proof.
  intros Hro s.
  destruct (redis_call_kept cmd s) as (_ & Ha & Hc).
  destruct (redis_call_frame cmd s) as [Hh _].
  split; [exact Ha|]. split; [exact Hc|]. split; [|split].
  - destruct (redis_call_cases cmd s) as [[_ ->] | [_ ->]]; [reflexivity | apply Hro].
  - apply redis_call_stays_healthy.
  - exists []. rewrite app_nil_r. exact Hh.
Qed.

Lemma served_frame now ks s s' bm :
  scan_frame s s' -> served now ks s bm -> served now ks s' bm.
Proof.
  intros (_ & _ & _ & _ & [ext He]). destruct bm as [l|]; [|auto].
  intros (k & v & Hd & Hl). exists k, v. split; [exact Hd|].
  rewrite He. apply lookup_app_l_Some, Hl.
Qed.

Lemma served_same s s' bm :
  scan_frame s s' -> served (clock s') (Redis.db (redis s')) s' bm ->
  served (clock s) (Redis.db (redis s)) s' bm.
Proof. intros (_ & Hc & Hd & _). rewrite Hc, Hd. auto. Qed.

(** Whatever the server does, [_get_from_cache] returns, and what it
    returns was read from the document under the key. *)
Lemma get_from_cache_served key s :
  cache_available s = true ->
  exists bm s',
    _get_from_cache key s = (Returned bm, s')
    /\ scan_frame s s'
    /\ served (clock s) (Redis.db (redis s)) s' bm.
Proof.
  intros Hav. unfold _get_from_cache. rewrite Hav. unfold try_except, bind.
  pose proof (redis_call_reads (Redis.GET key) (GET_db key) s) as F.
  pose proof (redis_call_cases (Redis.GET key) s) as C.
  destruct (redis_call (Redis.GET key) s) as [[[text|]|] s1]; cbn [fst snd] in *.
  - destruct C as [[C _] | [C _]]; [discriminate|].
    unfold json_loads, new_dict, ret. eexists _, _. split; [reflexivity|]. split.
    + eapply scan_frame_trans; [exact F|].
      repeat split; simpl; auto. exists [text]. reflexivity.
    + exists key, text. split.
      * unfold stored_doc. unfold Redis.GET in C.
        destruct (Redis.lookup (clock s) key (Redis.db (redis s))) as [[[v|h] t]|];
          cbn [fst] in C; [|discriminate|discriminate].
        injection C as ->. reflexivity.
      * simpl. rewrite lookup_app_r by lia. rewrite Nat.sub_diag. reflexivity.
  - eexists _, _. split; [reflexivity|]. split; [exact F | exact I].
  - eexists _, _. split; [reflexivity|]. split; [exact F | exact I].
Qed.

Lemma scan_key_served user_message threshold bm q key s :
  cache_available s = true ->
  served (clock s) (Redis.db (redis s)) s bm ->
  let r := scan_key user_message threshold (bm, q) key s in
  scan_frame s (snd r)
  /\ forall bm' q', fst r = Returned (bm', q') ->
       served (clock s) (Redis.db (redis s)) (snd r) bm'.
Proof.
  intros Hav Hs. cbv zeta. unfold scan_key, bind. cbv beta iota.
  pose proof (redis_call_reads (Redis.HGET key "message") (HGET_db key "message") s) as F1.
  destruct (redis_call (Redis.HGET key "message") s) as [[cm|] s1]; cbn [fst snd] in *;
    [|split; [exact F1 | intros bm' q' H; discriminate H]].
  assert (Hkeep : forall q0 : Q,
            scan_frame s (snd (ret (bm, q0) s1))
            /\ forall (bm' : option nat) (q' : Q), fst (ret (bm, q0) s1) = Returned (bm', q') ->
                 served (clock s) (Redis.db (redis s)) (snd (ret (bm, q0) s1)) bm').
  { intros q0. split; [exact F1|]. intros bm' q' [= <- <-].
    eapply served_frame; [exact F1 | exact Hs]. }
  destruct cm as [m|]; [|apply Hkeep].
  destruct (nonempty m); [|apply Hkeep].
  destruct (Qlt_bool q _ && Qle_bool threshold _); [|apply Hkeep].
  pose proof (redis_call_reads (Redis.HGET key "response_key") (HGET_db key "response_key") s1)
    as F2.
  pose proof (scan_frame_trans _ _ _ F1 F2) as F12.
  destruct (redis_call (Redis.HGET key "response_key") s1) as [[rk|] s2]; cbn [fst snd] in *;
    [|split; [exact F12 | intros bm' q' H; discriminate H]].
  assert (Hkeep2 : forall q0 : Q,
            scan_frame s (snd (ret (bm, q0) s2))
            /\ forall (bm' : option nat) (q' : Q), fst (ret (bm, q0) s2) = Returned (bm', q') ->
                 served (clock s) (Redis.db (redis s)) (snd (ret (bm, q0) s2)) bm').
  { intros q0. split; [exact F12|]. intros bm' q' [= <- <-].
    eapply served_frame; [exact F12 | exact Hs]. }
  destruct rk as [rk|]; [|apply Hkeep2].
  destruct (nonempty rk); [|apply Hkeep2].
  destruct (get_from_cache_served rk s2) as (bm1 & s3 & E & F3 & S3).
  { destruct F12 as (Ha & _). rewrite Ha. exact Hav. }
  rewrite E. cbn [fst snd ret].
  split; [eapply scan_frame_trans; eassumption|].
  intros bm' q' [= <- <-]. 
  destruct F12 as (_ & Hc & Hd & _). rewrite <- Hc, <- Hd. exact S3.
Qed.

Lemma scan_keys_served user_message threshold keys : forall bm q s,
  cache_available s = true ->
  served (clock s) (Redis.db (redis s)) s bm ->
  let r := for_each (scan_key user_message threshold) keys (bm, q) s in
  scan_frame s (snd r)
  /\ forall bm' q', fst r = Returned (bm', q') ->
       served (clock s) (Redis.db (redis s)) (snd r) bm'.
Proof.
  induction keys as [|key keys IH]; intros bm q s Hav Hs; cbv zeta.
  - simpl. split; [apply scan_frame_refl|]. intros bm' q' [= <- <-]. exact Hs.
  - cbn [for_each]. unfold bind. cbv beta.
    destruct (scan_key_served user_message threshold bm q key s Hav Hs) as [F1 S1].
    destruct (scan_key user_message threshold (bm, q) key s) as [[[bm1 q1]|] s1];
      cbn [fst snd] in *; [|split; [exact F1 | intros bm' q' H; discriminate H]].
    pose proof F1 as (Ha & Hc & Hd & _).
    destruct (IH bm1 q1 s1) as [F2 S2].
    { rewrite Ha. exact Hav. }
    { rewrite Hc, Hd. apply (S1 bm1 q1 eq_refl). }
    split; [eapply scan_frame_trans; eassumption|].
    intros bm' q' E. rewrite <- Hc, <- Hd. apply (S2 bm' q' E).
Qed.

Lemma find_similar_served user_message model_id threshold s :
  cache_available s = true ->
  exists bm s',
    _find_similar_cached_response user_message model_id threshold s = (Returned bm, s')
    /\ scan_frame s s'
    /\ served (clock s) (Redis.db (redis s)) s' bm.
Proof.
  intros Hav. unfold _find_similar_cached_response. rewrite Hav. cbn [negb]. cbv iota.
  unfold try_except, bind. cbv beta.
  pose proof (redis_call_reads (Redis.KEYS ("semantic_index:" +:+ model_id +:+ ":*"))
                (KEYS_db _) s) as F1.
  destruct (redis_call (Redis.KEYS _) s) as [[keys|] s1]; cbn [fst snd] in *;
    [|eexists _, _; split; [reflexivity|]; split; [exact F1 | exact I]].
  pose proof F1 as (Ha & Hc & Hd & _).
  destruct (scan_keys_served user_message threshold (firstn 20 keys) None 0%Q s1) as [F2 S2].
  { rewrite Ha. exact Hav. }
  { exact I. }
  pose proof (scan_frame_trans _ _ _ F1 F2) as F12.
  destruct (for_each _ _ _ s1) as [[[bm1 q1]|] s2]; cbn [fst snd] in *.
  - eexists _, _. split; [reflexivity|]. split; [exact F12|].
    rewrite <- Hc, <- Hd. apply (S2 bm1 q1 eq_refl).
  - eexists _, _. split; [reflexivity|]. split; [exact F12 | exact I].
Qed.

(** Whatever the server does, an entry that [get_cached_response] returns
    is a document that the server shows at the time of the call, with its
    tag added. *)
Lemma get_cached_response_served model_id messages max_tokens threshold s e :
  cache_available s = true ->
  returned_entry (get_cached_response model_id messages max_tokens threshold s) = Some e ->
  exists k v tag,
    stored_doc (clock s) (Redis.db (redis s)) k = Some v /\ e = with_cache_type tag v.
Proof.
  intros Hav. unfold get_cached_response.
  erewrite bind_returned by reflexivity. cbv beta.
  match goal with |- context [bind (_get_from_cache ?key) _ ?s0] =>
    destruct (get_from_cache_served key s0 Hav) as (bm & s1 & E1 & F1 & S1);
    change (clock s0) with (clock s) in S1;
    change (Redis.db (redis s0)) with (Redis.db (redis s)) in S1;
    pose proof F1 as (Ha1 & Hc1 & Hd1 & _);
    change (cache_available s0) with (cache_available s) in Ha1;
    change (clock s0) with (clock s) in Hc1;
    change (Redis.db (redis s0)) with (Redis.db (redis s)) in Hd1
  end.
  erewrite bind_returned by exact E1. cbv beta iota.
  destruct bm as [l|].
  - do 2 (erewrite bind_returned by reflexivity). unfold returned_entry. cbn [fst snd ret].
    destruct S1 as (k & v & Hd & Hl). simpl. rewrite list_lookup_alter_eq, Hl.
    intros [= <-]. exists k, v, "exact_match". auto.
  - assert (Hsim : exists bm2 s2,
              match last_user_message messages with
              | Some user_message =>
                  if nonempty user_message
                  then _find_similar_cached_response user_message model_id threshold
                  else ret None
              | None => ret None
              end s1 = (Returned bm2, s2)
              /\ served (clock s) (Redis.db (redis s)) s2 bm2).
    { destruct (last_user_message messages) as [um|];
        [|eexists _, _; split; [reflexivity | exact I]].
      destruct (nonempty um); [|eexists _, _; split; [reflexivity | exact I]].
      destruct (find_similar_served um model_id threshold s1) as (bm2 & s2 & E2 & _ & S2).
      { rewrite Ha1. exact Hav. }
      exists bm2, s2. split; [exact E2|]. rewrite <- Hc1, <- Hd1. exact S2. }
    destruct Hsim as (bm2 & s2 & E2 & S2).
    erewrite bind_returned by exact E2. cbv beta iota.
    destruct bm2 as [l|].
    + do 2 (erewrite bind_returned by reflexivity). unfold returned_entry. cbn [fst snd ret].
      destruct S2 as (k & v & Hd & Hl). simpl. rewrite list_lookup_alter_eq, Hl.
      intros [= <-]. exists k, v, "semantic_match". auto.
    + erewrite bind_returned by reflexivity. unfold returned_entry. cbn [fst snd ret].
      discriminate.
Qed.

(** C3.  On the server an entry whose TTL has run out, at once when the
    TTL is not positive, is never given back: whatever a later
    [get_cached_response] returns, for any request, is a document that the
    server held before the call of [cache_response]; and with a TTL that
    is not positive nothing is stored under the exact key.  The in-process
    backend keeps no time: there the entry comes back, tagged
    [exact_match], whatever its TTL and however late. *)
Theorem ttl_enforced_by_server_only (model_id : string) (messages : list message)
    (max_tokens : option Z) (r : response) (ttl elapsed : Z) (s : SmartCache response) :
  ttl <= elapsed ->
  let key := _generate_cache_key model_id messages max_tokens in
  let s1 := snd (cache_response model_id messages r max_tokens ttl s) in
  (cache_available s = true ->
     (ttl <= 0 -> Redis.find key (Redis.db (redis s1)) = Redis.find key (Redis.db (redis s)))
     /\ forall model_id' messages' max_tokens' threshold e,
          returned_entry
            (get_cached_response model_id' messages' max_tokens' threshold (tick elapsed s1))
          = Some e ->
          exists k v tag,
            stored_doc (clock s + elapsed) (Redis.db (redis s)) k = Some v
            /\ e = with_cache_type tag v)
  /\ (cache_available s = false ->
      forall threshold,
        let g := get_cached_response model_id messages max_tokens threshold (tick elapsed s1) in
        exists l e,
          fst g = Returned (Some l) /\ heap (snd g) !! l = Some e
          /\ e_response e = r /\ e_cache_type e = Some "exact_match").
Proof.
  intros Hel. simpl. split.
  - intros Hav.
    destruct (cache_response_kept model_id messages r max_tokens ttl s) as (_ & Hav1 & Hc1).
    destruct (cache_response_quiet (clock s) model_id messages r max_tokens ttl s eq_refl)
      as [_ Hq].
    split.
    + intros Httl. unfold cache_response.
      apply (preserves_bind (same_binding (_generate_cache_key model_id messages max_tokens))
               (same_binding_trans _)).
      { intros s0. reflexivity. }
      intros l.
      apply (preserves_bind (same_binding (_generate_cache_key model_id messages max_tokens))
               (same_binding_trans _)).
      { apply store_in_cache_refused, Httl. }
      intros _. destruct (last_user_message messages) as [um|]; [|intros s0; reflexivity].
      destruct (nonempty um); [|intros s0; reflexivity].
      apply create_semantic_index_same_binding, index_key_not_cache_key.
    + intros model_id' messages' max_tokens' threshold e He.
      apply get_cached_response_served in He; [|simpl; rewrite Hav1; exact Hav].
      destruct He as (k & v & tag & Hd & ->).
      exists k, v, tag. split; [|reflexivity].
      simpl in Hd. rewrite Hc1 in Hd.
      destruct (Hq k (clock s + elapsed)) as [H | H]; [lia | congruence | congruence].
  - intros Hf threshold. apply put_get_fallback. exact Hf.
Qed.

End Served.

(** On the failing input of C3, the in-process backend: an entry stored
    with a TTL of zero is returned by the next call, and an hour later
    too. *)
Lemma ttl_zero_returned_by_fallback :
  cache_available fallback0 = false
  /\ returned_entry
       (get_cached_response "m" [user "What are your business hours?"] None (85 # 100)
          (snd (cache_response "m" [user "What are your business hours?"]
                  "We are open 9 to 5." None 0 fallback0)))
     = Some (CacheEntry "We are open 9 to 5." "1000" "m" 0 (Some "exact_match"))
  /\ returned_entry
       (get_cached_response "m" [user "What are your business hours?"] None (85 # 100)
          (tick 3600
             (snd (cache_response "m" [user "What are your business hours?"]
                     "We are open 9 to 5." None 0 fallback0))))
     = Some (CacheEntry "We are open 9 to 5." "1000" "m" 0 (Some "exact_match")).
Proof. vm_compute. repeat split. Qed.

(** On the server the same request hits one second before its TTL runs out
    and misses from then on; with a TTL of zero it misses at once. *)
Example expired_entry_misses :
  returned_entry
    (get_cached_response "m" [user "hello"] None (85 # 100)
       (tick 59 (snd (cache_response "m" [user "hello"] "R" None 60 networked0))))
  = Some (CacheEntry "R" "1000" "m" 60 (Some "exact_match"))
  /\ fst (get_cached_response "m" [user "hello"] None (85 # 100)
            (tick 60 (snd (cache_response "m" [user "hello"] "R" None 60 networked0))))
     = Returned None
  /\ fst (get_cached_response "m" [user "hello"] None (85 # 100)
            (snd (cache_response "m" [user "hello"] "R" None 0 networked0)))
     = Returned None.
Proof. vm_compute. repeat split. Qed.

(** An entry stored for "abd" with a TTL of 60 seconds, on a server that
    holds an older entry for "abc": sixty seconds later the lookup for
    "abd" gives the older entry, which the server held before. *)
Lemma ttl_enforced_by_server_only_witness :
  60 <= 60
  /\ cache_available indexed0 = true
  /\ returned_entry
       (get_cached_response "m" [user "abd"] None (1 # 2)
          (tick 60 (snd (cache_response "m" [user "abd"] "R2" None 60 indexed0))))
     = Some (CacheEntry "R" "1000" "m" 3600 (Some "semantic_match"))
  /\ (exists k v tag,
        stored_doc (clock indexed0 + 60) (Redis.db (redis indexed0)) k = Some v
        /\ CacheEntry "R" "1000" "m" 3600 (Some "semantic_match") = with_cache_type tag v)
  /\ cache_available fallback0 = false
  /\ exists l e,
       fst (get_cached_response "m" [user "abd"] None (1 # 2)
              (tick 60 (snd (cache_response "m" [user "abd"] "R2" None 60 fallback0))))
       = Returned (Some l)
       /\ heap (snd (get_cached_response "m" [user "abd"] None (1 # 2)
                       (tick 60 (snd (cache_response "m" [user "abd"] "R2" None 60
                                        fallback0)))))
          !! l = Some e
       /\ e_response e = "R2" /\ e_cache_type e = Some "exact_match".
Proof.
  assert (H1 : 60 <= 60) by lia.
  assert (H2 : cache_available indexed0 = true) by reflexivity.
  assert (H3 : returned_entry
                 (get_cached_response "m" [user "abd"] None (1 # 2)
                    (tick 60 (snd (cache_response "m" [user "abd"] "R2" None 60 indexed0))))
               = Some (CacheEntry "R" "1000" "m" 3600 (Some "semantic_match")))
    by (vm_compute; reflexivity).
  assert (H4 : cache_available fallback0 = false) by reflexivity.
  split; [exact H1|]. split; [exact H2|]. split; [exact H3|].
  split.
  - destruct (ttl_enforced_by_server_only "m" [user "abd"] None "R2" 60 60 indexed0 H1)
      as [Hs _].
    destruct (Hs H2) as [_ Hget].
    exact (Hget "m" [user "abd"] None (1 # 2) _ H3).
  - split; [exact H4|].
    destruct (ttl_enforced_by_server_only "m" [user "abd"] None "R2" 60 60 fallback0 H1)
      as [_ Hf].
    exact (Hf H4 (1 # 2)).
Defined.


(** * The rest of the class *)

(** ** The shape of the keys *)

Section KeyShape.

Local Open Scope list_scope.

Lemma le_bytes_bytes (n : nat) (x : Z) : Forall is_byte (MD5.le_bytes n x).
Proof.
  revert x. induction n as [|n IH]; intros x; simpl; constructor; [|apply IH].
  unfold is_byte. change 255 with (Z.ones 8). rewrite Z.land_ones by lia.
  change (2 ^ 8) with 256. apply Z.mod_pos_bound. lia.
Qed.

Lemma le_bytes_length (n : nat) (x : Z) : length (MD5.le_bytes n x) = n.
Proof. revert x. induction n as [|n IH]; intros x; simpl; [|rewrite IH]; reflexivity. Qed.

Lemma digest_bytes (msg : list Z) :
  length (MD5.digest msg) = 16%nat /\ Forall is_byte (MD5.digest msg).
Proof.
  unfold MD5.digest. destruct (MD5.chunks _ _ _) as [a b c d]. split.
  - rewrite !length_app, !le_bytes_length. reflexivity.
  - repeat (apply Forall_app; split); apply le_bytes_bytes.
Qed.

Lemma hexdigit_hex (z : Z) : 0 <= z < 16 -> is_hex (Text.hexdigit z) = true.
Proof.
  intros H.
  assert (z = 0 \/ z = 1 \/ z = 2 \/ z = 3 \/ z = 4 \/ z = 5 \/ z = 6 \/ z = 7 \/ z = 8
          \/ z = 9 \/ z = 10 \/ z = 11 \/ z = 12 \/ z = 13 \/ z = 14 \/ z = 15) as Hz by lia.
  repeat (destruct Hz as [-> | Hz]; [reflexivity|]). subst. reflexivity.
Qed.

Lemma hex_shape (bs : list Z) :
  Forall is_byte bs ->
  String.length (Text.hex bs) = (2 * length bs)%nat /\ all_hex (Text.hex bs) = true.
Proof.
  induction 1 as [|b bs Hb _ [IHl IHh]]; [split; reflexivity|].
  change (Text.hex (b :: bs))
    with (String (Text.hexdigit (Z.shiftr b 4))
            (String (Text.hexdigit (Z.land b 15)) (Text.hex bs))).
  cbn [String.length all_hex length]. rewrite IHl, IHh. split; [lia|].
  unfold is_byte in Hb.
  rewrite !hexdigit_hex; [reflexivity| |].
  - change 15 with (Z.ones 4). rewrite Z.land_ones by lia.
    change (2 ^ 4) with 16. apply Z.mod_pos_bound. lia.
  - rewrite Z.shiftr_div_pow2 by lia. change (2 ^ 4) with 16.
    split; [apply Z.div_pos; lia | apply Z.div_lt_upper_bound; lia].
Qed.

Lemma hexdigest_shape (s : string) :
  String.length (MD5.hexdigest s) = 32%nat /\ all_hex (MD5.hexdigest s) = true.
Proof.
  unfold MD5.hexdigest.
  destruct (digest_bytes (Text.encode s)) as [Hl Hb].
  destruct (hex_shape _ Hb) as [Hl' Hh]. rewrite Hl in Hl'. split; assumption.
Qed.

Lemma take_shape (n : nat) (s : string) :
  (n <= String.length s)%nat -> all_hex s = true ->
  String.length (Text.take n s) = n /\ all_hex (Text.take n s) = true.
Proof.
  revert s. induction n as [|n IH]; intros s Hn Hh; [split; reflexivity|].
  destruct s as [|c s]; simpl in *; [lia|].
  apply andb_true_iff in Hh as [Hc Hs].
  destruct (IH s) as [IHl IHh]; [lia | exact Hs|].
  rewrite IHl, IHh, Hc. split; reflexivity.
Qed.

Lemma append_length (a b : string) :
  String.length (a +:+ b) = (String.length a + String.length b)%nat.
Proof. induction a as [|c a IH]; simpl; [|rewrite IH]; reflexivity. Qed.

(** X1: every exact key is the tag [claude_cache:] followed by 32
    lower-case hexadecimal digits, whatever the request. *)
Theorem cache_key_shape (model_id : string) (messages : list message) (max_tokens : option Z) :
  exists h,
    _generate_cache_key model_id messages max_tokens = "claude_cache:" +:+ h
    /\ String.length h = 32%nat /\ all_hex h = true
    /\ String.length (_generate_cache_key model_id messages max_tokens) = 45%nat.
Proof.
  unfold _generate_cache_key.
  destruct (hexdigest_shape (dumps_cache_content model_id messages max_tokens)) as [Hl Hh].
  eexists. split; [reflexivity|]. split; [exact Hl|]. split; [exact Hh|].
  rewrite append_length, Hl. reflexivity.
Qed.

(** X2: every key of the semantic index is [semantic_index:], the model
    identifier, a colon and 12 lower-case hexadecimal digits; so is the
    tail of the key that [_generate_semantic_key] gives after
    [semantic:]. *)
Theorem semantic_key_shape (model_id user_message : string) :
  (exists h,
      semantic_index_key model_id user_message
      = "semantic_index:" +:+ model_id +:+ ":" +:+ h
      /\ String.length h = 12%nat /\ all_hex h = true)
  /\ (exists h,
        _generate_semantic_key user_message = "semantic:" +:+ h
        /\ String.length h = 12%nat /\ all_hex h = true).
Proof.
  split.
  - unfold semantic_index_key.
    destruct (hexdigest_shape user_message) as [Hl Hh].
    destruct (take_shape 12 (MD5.hexdigest user_message)) as [Hl' Hh']; [lia | exact Hh|].
    eexists. split; [reflexivity|]. split; assumption.
  - unfold _generate_semantic_key.
    destruct (hexdigest_shape (normalize user_message)) as [Hl Hh].
    destruct (take_shape 12 (MD5.hexdigest (normalize user_message))) as [Hl' Hh'];
      [lia | exact Hh|].
    eexists. split; [reflexivity|]. split; assumption.
Qed.

End KeyShape.

(** ** Lookups do not write *)

Section ReadOnly.

Context {response : Type} {json : Json_reading response}.

Local Open Scope list_scope.

Implicit Types (s : SmartCache response).

Lemma same_payload_refl (e : cache_entry response) : same_payload e e.
Proof. repeat split. Qed.

Lemma only_tags_refl s : only_tags s s.
Proof. repeat split. intros l e H. exists e. split; [exact H | apply same_payload_refl]. Qed.

Lemma only_tags_trans s1 s2 s3 : only_tags s1 s2 -> only_tags s2 s3 -> only_tags s1 s3.
Proof.
  intros (Ha & Hc & Hd & Hm & Hh) (Ha' & Hc' & Hd' & Hm' & Hh').
  repeat split; try congruence.
  intros l e H. destruct (Hh l e H) as (e1 & H1 & P1 & P2 & P3 & P4).
  destruct (Hh' l e1 H1) as (e2 & H2 & Q1 & Q2 & Q3 & Q4).
  exists e2. split; [exact H2|]. repeat split; congruence.
Qed.

Lemma redis_read_only_tags {A} (cmd : Redis.command (cache_entry response) A) :
  (forall now ks, snd (cmd now ks) = ks) ->
  preserves only_tags (redis_call cmd).
Proof.
  intros Hro s.
  destruct (redis_call_kept cmd s) as (_ & Ha & Hc).
  destruct (redis_call_frame cmd s) as [Hh Hm].
  repeat split; try assumption.
  - destruct (redis_call_cases cmd s) as [[_ ->] | [_ ->]]; [reflexivity | apply Hro].
  - intros l e H. exists e. rewrite Hh. split; [exact H | apply same_payload_refl].
Qed.

Lemma new_dict_only_tags (e : cache_entry response) : preserves only_tags (new_dict e).
Proof.
  intros s. repeat split. intros l e0 H. exists e0.
  split; [apply lookup_app_l_Some, H | apply same_payload_refl].
Qed.

Lemma set_cache_type_only_tags (l : nat) (tag : string) :
  preserves (@only_tags response) (set_cache_type l tag).
Proof.
  intros s. repeat split. intros l0 e H. simpl.
  destruct (decide (l = l0)) as [->|Hne].
  - exists (with_cache_type tag e). rewrite list_lookup_alter_eq, H.
    split; [reflexivity | repeat split].
  - exists e. rewrite list_lookup_alter_ne by exact Hne.
    split; [exact H | apply same_payload_refl].
Qed.

Lemma get_from_cache_only_tags (key : string) :
  preserves (@only_tags response) (_get_from_cache key).
Proof.
  intros s. unfold _get_from_cache. destruct (cache_available s).
  - apply (preserves_try only_tags only_tags_trans).
    + apply (preserves_bind only_tags only_tags_trans).
      { apply redis_read_only_tags. intros; apply GET_db. }
      intros [d|]; [|apply (preserves_ret only_tags only_tags_refl)].
      apply (preserves_bind only_tags only_tags_trans); [apply new_dict_only_tags|].
      intros l. apply (preserves_ret only_tags only_tags_refl).
    + apply (preserves_ret only_tags only_tags_refl).
  - apply only_tags_refl.
Qed.

Lemma scan_key_only_tags user_message threshold (acc : option nat * Q) key :
  preserves (@only_tags response) (scan_key user_message threshold acc key).
Proof.
  unfold scan_key. destruct acc as [bm bs].
  apply (preserves_bind only_tags only_tags_trans).
  { apply redis_read_only_tags. intros; apply HGET_db. }
  intros [m|]; [|apply (preserves_ret only_tags only_tags_refl)].
  destruct (nonempty m); [|apply (preserves_ret only_tags only_tags_refl)].
  destruct (_ && _); [|apply (preserves_ret only_tags only_tags_refl)].
  apply (preserves_bind only_tags only_tags_trans).
  { apply redis_read_only_tags. intros; apply HGET_db. }
  intros [rk|]; [|apply (preserves_ret only_tags only_tags_refl)].
  destruct (nonempty rk); [|apply (preserves_ret only_tags only_tags_refl)].
  apply (preserves_bind only_tags only_tags_trans); [apply get_from_cache_only_tags|].
  intros bm'. apply (preserves_ret only_tags only_tags_refl).
Qed.

Lemma find_similar_only_tags user_message model_id threshold :
  preserves (@only_tags response)
    (_find_similar_cached_response user_message model_id threshold).
Proof.
  intros s. unfold _find_similar_cached_response. destruct (cache_available s); simpl.
  - apply (preserves_try only_tags only_tags_trans).
    + apply (preserves_bind only_tags only_tags_trans).
      { apply redis_read_only_tags. intros; apply KEYS_db. }
      intros keys. apply (preserves_bind only_tags only_tags_trans).
      * apply (preserves_for_each only_tags only_tags_refl only_tags_trans).
        intros; apply scan_key_only_tags.
      * intros best. apply (preserves_ret only_tags only_tags_refl).
    + apply (preserves_ret only_tags only_tags_refl).
  - apply only_tags_refl.
Qed.

Lemma incr_only_tags :
  preserves (@only_tags response) incr_total_requests
  /\ preserves (@only_tags response) incr_hits
  /\ preserves (@only_tags response) incr_misses.
Proof. repeat split; intros l e H; exists e; (split; [exact H | apply same_payload_refl]). Qed.

Lemma get_cached_response_only_tags model_id messages max_tokens threshold :
  preserves (@only_tags response)
    (get_cached_response model_id messages max_tokens threshold).
Proof.
  destruct incr_only_tags as (Ht & Hh & Hm).
  unfold get_cached_response.
  apply (preserves_bind only_tags only_tags_trans); [exact Ht|]. intros _.
  apply (preserves_bind only_tags only_tags_trans); [apply get_from_cache_only_tags|].
  intros [l|].
  - apply (preserves_bind only_tags only_tags_trans); [exact Hh|]. intros _.
    apply (preserves_bind only_tags only_tags_trans); [apply set_cache_type_only_tags|].
    intros _. apply (preserves_ret only_tags only_tags_refl).
  - apply (preserves_bind only_tags only_tags_trans).
    { destruct (last_user_message messages) as [um|];
        [|apply (preserves_ret only_tags only_tags_refl)].
      destruct (nonempty um);
        [apply find_similar_only_tags | apply (preserves_ret only_tags only_tags_refl)]. }
    intros [l|].
    + apply (preserves_bind only_tags only_tags_trans); [exact Hh|]. intros _.
      apply (preserves_bind only_tags only_tags_trans); [apply set_cache_type_only_tags|].
      intros _. apply (preserves_ret only_tags only_tags_refl).
    + apply (preserves_bind only_tags only_tags_trans); [exact Hm|]. intros _.
      apply (preserves_ret only_tags only_tags_refl).
Qed.

(** X3: [get_cached_response] stores nothing.  Whatever the request and
    the state, it leaves the server's keyspace and the bindings of the
    in-process dict as they were, and every entry already built keeps its
    response, timestamp, model and TTL: the tag [cache_type] is all it
    ever writes. *)
Theorem get_cached_response_stores_nothing (model_id : string) (messages : list message)
    (max_tokens : option Z) (threshold : Q) (s : SmartCache response) :
  let s' := snd (get_cached_response model_id messages max_tokens threshold s) in
  Redis.db (redis s') = Redis.db (redis s)
  /\ memory_cache s' = memory_cache s
  /\ cache_available s' = cache_available s
  /\ forall l e, heap s !! l = Some e ->
       exists e', heap s' !! l = Some e'
                  /\ e_response e' = e_response e /\ e_timestamp e' = e_timestamp e
                  /\ e_model_id e' = e_model_id e /\ e_ttl e' = e_ttl e.
Proof.
  destruct (get_cached_response_only_tags model_id messages max_tokens threshold s)
    as (Ha & Hc & Hd & Hm & Hh).
  simpl. repeat split; assumption.
Qed.

End ReadOnly.

(** ** The life of an instance *)

Section Lifetime.

Context {response : Type} {json : Json_reading response}.

Implicit Types (s : SmartCache response).

Lemma step_keeps_backend (o : op response) s :
  cache_available (step o s) = cache_available s.
Proof.
  destruct o as [m msgs mt thr | m msgs r mt ttl | | amount | d]; simpl; try reflexivity.
  - apply (get_cached_response_only_tags m msgs mt thr s).
  - apply (cache_response_kept m msgs r mt ttl s).
Qed.

Lemma run_keeps_backend (ops : list (op response)) s :
  cache_available (run ops s) = cache_available s.
Proof.
  revert s. induction ops as [|o ops IH]; intros s; [reflexivity|].
  change (run (o :: ops) s) with (run ops (step o s)).
  rewrite IH. apply step_keeps_backend.
Qed.

Lemma step_sane (o : op response) s : sane s -> sane (step o s).
Proof.
  unfold sane. intros (Hh & Hm & Hsum).
  destruct o as [m msgs mt thr | m msgs r mt ttl | | amount | d]; simpl; auto.
  - destruct (get_outcome m msgs mt thr s) as (res & s' & E & H). rewrite E. simpl.
    unfold counters in H.
    destruct H as [[_ H] | [_ H]]; injection H as -> -> ->; lia.
  - destruct (cache_response_kept m msgs r mt ttl s) as (-> & _). auto.
Qed.

Lemma run_sane (ops : list (op response)) s : sane s -> sane (run ops s).
Proof.
  revert s. induction ops as [|o ops IH]; intros s H; [exact H|].
  change (run (o :: ops) s) with (run ops (step o s)).
  apply IH, step_sane, H.
Qed.

Lemma init_sane (c : Redis.conn (cache_entry response)) h now : sane (__init__ c h now).
Proof.
  unfold __init__. destruct (Redis.call Redis.PING now c) as [o c'].
  unfold sane. simpl. lia.
Qed.

(** X4: the probe at construction picks the backend, and no call changes
    it afterwards.  The instance runs on the server exactly when the
    [PING] went through; it starts with nothing in its own dict and all
    counters at zero; and after any sequence of calls the backend is the
    one it started with. *)
Theorem backend_fixed_at_construction (c : Redis.conn (cache_entry response))
    (h : list (cache_entry response)) (now : Z) (ops : list (op response)) :
  let s0 := __init__ c h now in
  cache_available s0
  = match Redis.faults c with true :: _ => false | _ => true end
  /\ memory_cache s0 = ∅
  /\ cache_stats s0 = Stats 0 0 0 0%Q
  /\ Redis.db (redis s0) = Redis.db c
  /\ cache_available (run ops s0) = cache_available s0.
Proof.
  simpl. split; [|split; [|split; [|split]]].
  - unfold __init__, Redis.call, Redis.PING. destruct (Redis.faults c) as [|[|] fs]; reflexivity.
  - unfold __init__. destruct (Redis.call Redis.PING now c); reflexivity.
  - unfold __init__. destruct (Redis.call Redis.PING now c); reflexivity.
  - unfold __init__, Redis.call, Redis.PING. destruct (Redis.faults c) as [|[|] fs]; reflexivity.
  - apply run_keeps_backend.
Qed.

Lemma nearest_cases (n d : Z) :
  0 < d -> Float.nearest n d = n / d \/ (Float.nearest n d = n / d + 1 /\ 0 < n mod d).
Proof.
  intros Hd. unfold Float.nearest.
  pose proof (Z.mod_pos_bound n d Hd) as Hr.
  destruct (2 * (n mod d) ?= d) eqn:E.
  - destruct (Z.even (n / d)); [left; reflexivity|].
    right. split; [reflexivity|]. apply Z.compare_eq in E. lia.
  - left. reflexivity.
  - right. split; [reflexivity|]. apply Z.compare_gt_iff in E. lia.
Qed.

Lemma nearest_nonneg (n d : Z) : 0 < d -> 0 <= n -> 0 <= Float.nearest n d.
Proof.
  intros Hd Hn. pose proof (Z.div_pos n d Hn Hd).
  destruct (nearest_cases n d Hd) as [-> | [-> _]]; lia.
Qed.

Lemma nearest_le (n d K : Z) : 0 < d -> n <= K * d -> Float.nearest n d <= K.
Proof.
  intros Hd Hn.
  pose proof (Z.div_mod n d ltac:(lia)) as Hdm.
  pose proof (Z.mod_pos_bound n d Hd) as Hr.
  destruct (nearest_cases n d Hd) as [-> | [-> Hpos]]; nia.
Qed.

Lemma exponent_reaches (n d : Z) : 0 < n -> 0 < d -> Float.reaches (Float.exponent n d) n d = true.
Proof.
  intros Hn Hd. unfold Float.exponent.
  set (l := Z.log2 n - Z.log2 d).
  destruct (Float.reaches l n d) eqn:E; [exact E|].
  pose proof (Z.log2_spec n Hn) as [Hn1 Hn2].
  pose proof (Z.log2_spec d Hd) as [Hd1 Hd2].
  pose proof (Z.log2_nonneg n) as Hp. pose proof (Z.log2_nonneg d) as Hq.
  unfold Float.reaches.
  destruct (0 <=? l - 1) eqn:E1.
  - apply Z.leb_le in E1. apply Z.leb_le.
    assert (H : 2 ^ Z.succ (Z.log2 d) * 2 ^ (l - 1) = 2 ^ Z.log2 n).
    { rewrite <- Z.pow_add_r by lia. f_equal. unfold l. lia. }
    assert (0 < 2 ^ (l - 1)) by (apply Z.pow_pos_nonneg; lia).
    nia.
  - apply Z.leb_gt in E1. apply Z.leb_le.
    assert (H : 2 ^ Z.log2 n * 2 ^ (- (l - 1)) = 2 ^ Z.succ (Z.log2 d)).
    { rewrite <- Z.pow_add_r by lia. f_equal. unfold l. lia. }
    assert (0 < 2 ^ (- (l - 1))) by (apply Z.pow_pos_nonneg; lia).
    nia.
Qed.

Lemma nearest_double_bounds (n d N : Z) :
  0 < n -> 0 < d -> n <= N * d -> N < 2 ^ 52 ->
  (0 <= Float.nearest_double n d /\ Float.nearest_double n d <= inject_Z N)%Q.
Proof.
  intros Hn Hd HN Hsmall. unfold Float.nearest_double.
  pose proof (exponent_reaches n d Hn Hd) as Hr.
  set (x := Float.exponent n d) in *.
  destruct (0 <=? x - 52) eqn:E.
  - exfalso. apply Z.leb_le in E. unfold Float.reaches in Hr.
    assert ((0 <=? x) = true) as Hx by (apply Z.leb_le; lia). rewrite Hx in Hr.
    apply Z.leb_le in Hr.
    assert (H : 2 ^ 52 <= 2 ^ x) by (apply Z.pow_le_mono_r; lia).
    nia.
  - apply Z.leb_gt in E.
    assert (Hk : 0 < 2 ^ (- (x - 52))) by (apply Z.pow_pos_nonneg; lia).
    set (k := 2 ^ (- (x - 52))) in *.
    unfold Qle. cbn [Qnum Qden inject_Z]. rewrite Z2Pos.id by exact Hk.
    split.
    + pose proof (nearest_nonneg (n * k) d Hd ltac:(nia)). lia.
    + pose proof (nearest_le (n * k) d (N * k) Hd ltac:(nia)). lia.
Qed.

Lemma fl_bounds (q : Q) (N : Z) :
  (0 <= q)%Q -> (q <= inject_Z N)%Q -> 0 <= N < 2 ^ 52 ->
  (0 <= Float.fl q /\ Float.fl q <= inject_Z N)%Q.
Proof.
  intros H0 HN Hsmall. unfold Float.fl.
  destruct q as [n d]. unfold Qle in H0, HN. cbn [Qnum Qden inject_Z] in *.
  destruct n as [|n|n].
  - split; [apply Qle_refl|]. unfold Qle. cbn. lia.
  - apply nearest_double_bounds; lia.
  - lia.
Qed.

Lemma round_bounds (x : Q) (ndigits : nat) (N : Z) :
  (0 <= x)%Q -> (x <= inject_Z N)%Q -> 0 <= N < 2 ^ 52 ->
  (0 <= Float.round x ndigits /\ Float.round x ndigits <= inject_Z N)%Q.
Proof.
  intros H0 HN Hsmall. unfold Float.round.
  assert (Hp : 0 < 10 ^ Z.of_nat ndigits) by (apply Z.pow_pos_nonneg; lia).
  set (p := 10 ^ Z.of_nat ndigits) in *.
  destruct x as [a b]. unfold Qle in H0, HN. cbn [Qnum Qden inject_Z] in *.
  apply fl_bounds; [| |exact Hsmall].
  - unfold Qle. cbn [Qnum Qden]. 
    pose proof (nearest_nonneg (a * p) (Z.pos b) ltac:(lia) ltac:(nia)). lia.
  - unfold Qle. cbn [Qnum Qden inject_Z]. rewrite Z2Pos.id by exact Hp.
    pose proof (nearest_le (a * p) (Z.pos b) (N * p) ltac:(lia) ltac:(nia)). lia.
Qed.

Lemma hit_rate_bounds (h t : Z) :
  0 <= h <= t ->
  (0 <= Float.round (hit_rate h t) 1 /\ Float.round (hit_rate h t) 1 <= 100)%Q.
Proof.
  intros Hh. apply (round_bounds _ 1%nat 100); [| |lia].
  - unfold hit_rate. destruct (0 <? t) eqn:E; [|apply Qle_refl].
    apply Z.ltb_lt in E.
    assert (H0 : (0 < inject_Z t)%Q) by (unfold Qlt, inject_Z; simpl; lia).
    assert (H1 : (0 <= inject_Z h)%Q) by (unfold Qle, inject_Z; simpl; lia).
    assert (H2 : (inject_Z h <= inject_Z t)%Q) by (rewrite <- Zle_Qle; lia).
    assert (H3 : (0 <= inject_Z h / inject_Z t)%Q).
    { apply Qle_shift_div_l; [exact H0|]. lra. }
    assert (H4 : (inject_Z h / inject_Z t <= inject_Z 1)%Q).
    { apply Qle_shift_div_r; [exact H0|]. change (inject_Z 1) with 1%Q. lra. }
    destruct (fl_bounds _ 1 H3 H4 ltac:(lia)) as [F0 F1].
    change (inject_Z 1) with 1%Q in F1.
    apply (fl_bounds _ 100); [lra | change (inject_Z 100) with 100%Q; lra | lia].
  - unfold hit_rate. destruct (0 <? t) eqn:E; [|unfold Qle; simpl; lia].
    apply Z.ltb_lt in E.
    assert (H0 : (0 < inject_Z t)%Q) by (unfold Qlt, inject_Z; simpl; lia).
    assert (H1 : (0 <= inject_Z h)%Q) by (unfold Qle, inject_Z; simpl; lia).
    assert (H2 : (inject_Z h <= inject_Z t)%Q) by (rewrite <- Zle_Qle; lia).
    assert (H3 : (0 <= inject_Z h / inject_Z t)%Q).
    { apply Qle_shift_div_l; [exact H0|]. lra. }
    assert (H4 : (inject_Z h / inject_Z t <= inject_Z 1)%Q).
    { apply Qle_shift_div_r; [exact H0|]. change (inject_Z 1) with 1%Q. lra. }
    destruct (fl_bounds _ 1 H3 H4 ltac:(lia)) as [F0 F1].
    change (inject_Z 1) with 1%Q in F1.
    apply (fl_bounds _ 100); [lra | change (inject_Z 100) with 100%Q; lra | lia].
Qed.

(** X5: what [get_cache_stats] reports after any sequence of calls on a
    new instance.  It changes nothing; the hits and the misses it reports
    are not negative and add up to the requests; the hit rate it reports,
    the float [hits / total * 100] rounded to one decimal, is 0 when there
    was no request and lies between 0 and 100; and the backend it names is
    the one chosen at construction. *)
Theorem get_cache_stats_report (c : Redis.conn (cache_entry response))
    (h : list (cache_entry response)) (now : Z) (ops : list (op response)) :
  let s := run ops (__init__ c h now) in
  exists snap,
    get_cache_stats s = (Returned snap, s)
    /\ 0 <= cache_hits snap /\ 0 <= cache_misses snap
    /\ cache_hits snap + cache_misses snap = snap_total_requests snap
    /\ hit_rate_percentage snap
       = Float.round (hit_rate (cache_hits snap) (snap_total_requests snap)) 1
    /\ (snap_total_requests snap = 0 -> hit_rate_percentage snap = 0%Q)
    /\ (0 <= hit_rate_percentage snap /\ hit_rate_percentage snap <= 100)%Q
    /\ cache_backend snap
       = (if cache_available (__init__ c h now) then "redis" else "memory").
Proof.
  simpl. set (s := run ops (__init__ c h now)).
  destruct (run_sane ops (__init__ c h now) (init_sane c h now)) as (Hh & Hm & Hsum).
  fold s in Hh, Hm, Hsum.
  eexists. split; [reflexivity|]. cbn [cache_hits cache_misses snap_total_requests
                                       hit_rate_percentage cache_backend].
  split; [exact Hh|]. split; [exact Hm|]. split; [exact Hsum|].
  split; [reflexivity|]. split; [|split].
  - intros ->. reflexivity.
  - apply hit_rate_bounds. lia.
  - unfold s. rewrite run_keeps_backend. reflexivity.
Qed.

End Lifetime.

(** One hit out of three requests is reported as the double 33.3, and
    savings of 0.000056 as the double 0.0001. *)
Example stats_rounding :
  match fst (get_cache_stats
               (set_cache_stats (Stats 1 2 3 (Float.fl (7 # 125000))) networked0)) with
  | Returned snap =>
      Qred (hit_rate_percentage snap) = (2343279181116211 # 70368744177664)%Q
      /\ Qred (estimated_cost_savings snap) = (7378697629483821 # 73786976294838206464)%Q
      /\ ~ (hit_rate_percentage snap == 333 # 10)%Q
  | Raised => False
  end.
Proof.
  cbn [fst get_cache_stats]. split; [vm_compute; reflexivity|].
  split; [vm_compute; reflexivity|].
  unfold Qeq. vm_compute. discriminate.
Qed.

(** ** Misses that need no search *)

Section Misses.

Context {response : Type} {json : Json_reading response}.

Local Open Scope list_scope.

Implicit Types (s : SmartCache response).

Lemma empty_store_only_tags s s' : only_tags s s' -> empty_store s -> empty_store s'.
Proof.
  intros (Ha & _ & Hd & Hm & _). unfold empty_store. rewrite Ha.
  destruct (cache_available s); congruence.
Qed.

Lemma get_from_cache_empty key s :
  empty_store s -> fst (_get_from_cache key s) = Returned None.
Proof.
  unfold empty_store. destruct (cache_available s) eqn:Hav; intros He.
  - apply get_from_cache_miss; [exact Hav|]. rewrite He. reflexivity.
  - unfold _get_from_cache. rewrite Hav, He. reflexivity.
Qed.

Lemma find_similar_empty user_message model_id threshold s :
  empty_store s ->
  fst (_find_similar_cached_response user_message model_id threshold s) = Returned None.
Proof.
  unfold empty_store, _find_similar_cached_response.
  destruct (cache_available s) eqn:Hav; intros He; [|reflexivity].
  simpl. unfold try_except, bind.
  destruct (redis_call_cases (Redis.KEYS ("semantic_index:" +:+ model_id +:+ ":*")) s)
    as [[Ho _] | [Ho _]];
    destruct (redis_call (Redis.KEYS ("semantic_index:" +:+ model_id +:+ ":*")) s)
      as [o s1]; simpl in Ho; subst o; [reflexivity|].
  rewrite He. reflexivity.
Qed.

(** X6: on an instance that has nothing stored, [get_cached_response]
    is a miss whatever the request and whether or not the server answers:
    it returns [None], counts one request and one miss, and leaves the
    store empty. *)
Theorem get_on_empty_store_misses (model_id : string) (messages : list message)
    (max_tokens : option Z) (threshold : Q) (s : SmartCache response) :
  empty_store s ->
  let g := get_cached_response model_id messages max_tokens threshold s in
  fst g = Returned None
  /\ counters (snd g)
     = (hits (cache_stats s), misses (cache_stats s) + 1, total_requests (cache_stats s) + 1)
  /\ empty_store (snd g).
Proof.
  intros He. simpl.
  assert (Hfst : fst (get_cached_response model_id messages max_tokens threshold s)
                 = Returned None).
  { unfold get_cached_response.
    erewrite bind_returned by reflexivity. cbv beta.
    match goal with |- context [bind (_get_from_cache ?key) _ ?s0] =>
      pose proof (get_from_cache_empty key s0 He) as H1;
      pose proof (get_from_cache_only_tags key s0) as T1;
      destruct (_get_from_cache key s0) as [o1 s1] eqn:G1
    end.
    simpl in H1, T1. subst o1.
    erewrite bind_returned by exact G1. cbv beta iota.
    assert (He1 : empty_store s1) by (eapply empty_store_only_tags; [exact T1 | exact He]).
    destruct (last_user_message messages) as [um|]; [|reflexivity].
    destruct (nonempty um); [|reflexivity].
    pose proof (find_similar_empty um model_id threshold s1 He1) as H2.
    destruct (_find_similar_cached_response um model_id threshold s1) as [o2 s2] eqn:G2.
    simpl in H2. subst o2.
    erewrite bind_returned by exact G2. reflexivity. }
  split; [exact Hfst|]. split.
  - destruct (get_outcome model_id messages max_tokens threshold s) as (res & s' & E & H).
    rewrite E in Hfst |- *. simpl in Hfst |- *. injection Hfst as ->.
    destruct H as [[[x Hx] _] | [_ H]]; [discriminate | exact H].
  - eapply empty_store_only_tags; [|exact He].
    apply get_cached_response_only_tags.
Qed.

(** X7: a request without a user message, or whose last user message is
    empty, is never served by similarity: whatever
    [get_cached_response] returns for it is tagged [exact_match]. *)
Theorem without_user_message_exact_only (model_id : string) (messages : list message)
    (max_tokens : option Z) (threshold : Q) (s : SmartCache response) :
  last_user_message messages = None \/ last_user_message messages = Some "" ->
  forall e,
    returned_entry (get_cached_response model_id messages max_tokens threshold s) = Some e ->
    e_cache_type e = Some "exact_match".
Proof.
  intros Hum e. unfold returned_entry, get_cached_response.
  erewrite bind_returned by reflexivity. cbv beta.
  match goal with |- context [bind (_get_from_cache ?key) _ ?s0] =>
    destruct (get_from_cache_returns (response := response) key s0) as [r1 E1];
    destruct (_get_from_cache key s0) as [o1 s1] eqn:G1
  end.
  simpl in E1. subst o1. erewrite bind_returned by exact G1. cbv beta iota.
  destruct r1 as [l|].
  - do 2 (erewrite bind_returned by reflexivity). simpl.
    rewrite list_lookup_alter_eq. destruct (heap s1 !! l) as [e0|]; simpl; [|discriminate].
    intros H. injection H as <-. reflexivity.
  - assert (Hsem :
      match last_user_message messages with
      | Some user_message =>
          if nonempty user_message then
            _find_similar_cached_response user_message model_id threshold
          else ret None
      | None => ret None
      end s1 = (Returned None, s1)).
    { destruct Hum as [-> | ->]; reflexivity. }
    erewrite bind_returned by exact Hsem. simpl. discriminate.
Qed.

End Misses.

Lemma get_on_empty_store_misses_witness :
  empty_store flaky0
  /\ fst (get_cached_response "m" [user "hello"] None (85 # 100) flaky0) = Returned None
  /\ empty_store (snd (get_cached_response "m" [user "hello"] None (85 # 100) flaky0)).
Proof.
  assert (H : empty_store flaky0) by reflexivity.
  split; [exact H|].
  destruct (get_on_empty_store_misses "m" [user "hello"] None (85 # 100) flaky0 H)
    as (H1 & _ & H3).
  split; [exact H1 | exact H3].
Defined.

Lemma without_user_message_exact_only_witness :
  (last_user_message [Message (Some "assistant") (Some "Hello")] = None
   \/ last_user_message [Message (Some "assistant") (Some "Hello")] = Some "")
  /\ forall e,
       returned_entry
         (get_cached_response "m" [Message (Some "assistant") (Some "Hello")] None (85 # 100)
            (snd (cache_response "m" [Message (Some "assistant") (Some "Hello")] "R" None 3600
                    networked0))) = Some e ->
       e_cache_type e = Some "exact_match".
Proof.
  assert (H : last_user_message [Message (Some "assistant") (Some "Hello")] = None
              \/ last_user_message [Message (Some "assistant") (Some "Hello")] = Some "")
    by (left; reflexivity).
  split; [exact H|].
  exact (without_user_message_exact_only "m" [Message (Some "assistant") (Some "Hello")] None
           (85 # 100)
           (snd (cache_response "m" [Message (Some "assistant") (Some "Hello")] "R" None 3600
                   networked0)) H).
Defined.

(** ** The user's message *)

Section UserMessage.

Local Open Scope list_scope.

Lemma first_user_cases (l : list message) :
  (Forall non_user l /\ first_user l = None)
  \/ (exists pre c post,
        l = pre ++ Message (Some "user") c :: post
        /\ Forall non_user pre /\ first_user l = Some (default "" c)).
Proof.
  induction l as [|[r c] l IH]; [left; split; [constructor | reflexivity]|].
  simpl. destruct r as [r|].
  - destruct (String.eqb_spec r "user") as [->|Hne].
    + right. exists [], c, l. split; [reflexivity|]. split; [constructor | reflexivity].
    + destruct IH as [[Hall Hnone] | (pre & c' & post & -> & Hpre & Hsome)].
      * left. split; [|exact Hnone]. constructor; [|exact Hall].
        unfold non_user. simpl. congruence.
      * right. exists (Message (Some r) c :: pre), c', post.
        split; [reflexivity|]. split; [|exact Hsome].
        constructor; [|exact Hpre]. unfold non_user. simpl. congruence.
  - destruct IH as [[Hall Hnone] | (pre & c' & post & -> & Hpre & Hsome)].
    + left. split; [|exact Hnone]. constructor; [|exact Hall].
      unfold non_user. simpl. discriminate.
    + right. exists (Message None c :: pre), c', post.
      split; [reflexivity|]. split; [|exact Hsome].
      constructor; [|exact Hpre]. unfold non_user. simpl. discriminate.
Qed.

(** X8: the text that both [get_cached_response] and [cache_response]
    take from a request.  Either no message has the role [user] and there
    is none; or the request ends with a user message followed only by
    messages of other roles, and the text is the content of that last
    user message, the empty string when it has no content. *)
Theorem last_user_message_latest (messages : list message) :
  (Forall non_user messages /\ last_user_message messages = None)
  \/ (exists before c after,
        messages = before ++ Message (Some "user") c :: after
        /\ Forall non_user after
        /\ last_user_message messages = Some (default "" c)).
Proof.
  unfold last_user_message.
  destruct (first_user_cases (rev messages))
    as [[Hall Hnone] | (pre & c & post & Hrev & Hpre & Hsome)].
  - left. split; [|exact Hnone].
    rewrite <- (rev_involutive messages). apply Forall_rev, Hall.
  - right. exists (rev post), c, (rev pre).
    split; [|split; [apply Forall_rev, Hpre | exact Hsome]].
    rewrite <- (rev_involutive messages), Hrev, rev_app_distr. simpl.
    rewrite <- app_assoc. reflexivity.
Qed.

End UserMessage.

(** ** Requests do not disturb one another *)

Section Interference.

Context {response : Type} {json : Json_reading response}.

Local Open Scope list_scope.

Implicit Types (s : SmartCache response).

Lemma put_frame_refl k s : put_frame k s s.
Proof. repeat split. exists []. rewrite app_nil_r. reflexivity. Qed.

Lemma put_frame_trans k s1 s2 s3 : put_frame k s1 s2 -> put_frame k s2 s3 -> put_frame k s1 s3.
Proof.
  intros (Ha & Hf & Hm & [e1 He1]) (Ha' & Hf' & Hm' & [e2 He2]).
  repeat split; try congruence.
  exists (e1 ++ e2). rewrite He2, He1, app_assoc. reflexivity.
Qed.

Lemma redis_call_put_frame {A} k (cmd : Redis.command (cache_entry response) A) :
  (forall now ks, Redis.find k (snd (cmd now ks)) = Redis.find k ks) ->
  preserves (put_frame k) (redis_call cmd).
Proof.
  intros Hcmd s.
  destruct (redis_call_kept cmd s) as (_ & Ha & _).
  destruct (redis_call_frame cmd s) as [Hh Hm].
  repeat split.
  - exact Ha.
  - apply (redis_call_same_binding k cmd Hcmd s).
  - rewrite Hm. reflexivity.
  - exists []. rewrite app_nil_r. exact Hh.
Qed.

Lemma store_in_cache_put_frame k key value ttl :
  k <> key -> preserves (@put_frame response k) (_store_in_cache key value ttl).
Proof.
  intros Hne s. unfold _store_in_cache. destruct (cache_available s).
  - apply (preserves_try (put_frame k) (put_frame_trans k)).
    + destruct (heap s !! value) as [v|]; [|intros s'; apply put_frame_refl].
      destruct (json_dumps v) as [text|]; [|intros s'; apply put_frame_refl].
      apply redis_call_put_frame. intros now ks. unfold Redis.SETEX.
      destruct (Redis.valid_expiry now ttl); [apply find_store_other, Hne | reflexivity].
    + apply (preserves_ret (put_frame k) (put_frame_refl k)).
  - repeat split; simpl.
    + rewrite lookup_insert_ne by congruence. reflexivity.
    + exists []. rewrite app_nil_r. reflexivity.
Qed.

Lemma create_semantic_index_put_frame k model_id user_message response_key ttl :
  k <> semantic_index_key model_id user_message ->
  preserves (@put_frame response k)
    (_create_semantic_index model_id user_message response_key ttl).
Proof.
  intros Hne s. unfold _create_semantic_index. destruct (cache_available s); simpl.
  - apply (preserves_try (put_frame k) (put_frame_trans k)).
    + apply (preserves_bind (put_frame k) (put_frame_trans k)).
      { apply redis_call_put_frame. intros; apply HSET_other, Hne. }
      intros _. apply (preserves_bind (put_frame k) (put_frame_trans k)).
      { apply redis_call_put_frame. intros; apply EXPIRE_other, Hne. }
      intros _. apply (preserves_ret (put_frame k) (put_frame_refl k)).
    + apply (preserves_ret (put_frame k) (put_frame_refl k)).
  - apply put_frame_refl.
Qed.

Lemma cache_response_put_frame k model_id messages (r : response) max_tokens ttl :
  k <> _generate_cache_key model_id messages max_tokens ->
  (forall um, last_user_message messages = Some um -> k <> semantic_index_key model_id um) ->
  preserves (put_frame k) (cache_response model_id messages r max_tokens ttl).
Proof.
  intros Hk Hsk. unfold cache_response.
  apply (preserves_bind (put_frame k) (put_frame_trans k)).
  { intros s. repeat split. eexists. reflexivity. }
  intros l. apply (preserves_bind (put_frame k) (put_frame_trans k));
    [apply store_in_cache_put_frame, Hk|].
  intros _. destruct (last_user_message messages) as [um|];
    [|apply (preserves_ret (put_frame k) (put_frame_refl k))].
  destruct (nonempty um);
    [apply create_semantic_index_put_frame, Hsk; reflexivity
    |apply (preserves_ret (put_frame k) (put_frame_refl k))].
Qed.

(** X9: [cache_response] writes under two keys at most, the exact key of
    its request and the semantic key of its last user message.  Every
    other key keeps its binding, on the server and in the instance's own
    dict, and the entry stored under it stays the same; the exact key of
    another request is such a key.  (The semantic key is shared by the
    requests of one model that end on the same user message.) *)
Theorem cache_response_touches_two_keys (model_id : string) (messages : list message)
    (r : response) (max_tokens : option Z) (ttl : Z) (s : SmartCache response) :
  let s' := snd (cache_response model_id messages r max_tokens ttl s) in
  (forall k,
     k <> _generate_cache_key model_id messages max_tokens ->
     (forall um, last_user_message messages = Some um -> k <> semantic_index_key model_id um) ->
     Redis.find k (Redis.db (redis s')) = Redis.find k (Redis.db (redis s))
     /\ memory_cache s' !! k = memory_cache s !! k
     /\ forall e, stored_entry k s = Some e -> stored_entry k s' = Some e)
  /\ (forall model_id' messages' max_tokens',
        let k := _generate_cache_key model_id' messages' max_tokens' in
        k <> _generate_cache_key model_id messages max_tokens ->
        Redis.find k (Redis.db (redis s')) = Redis.find k (Redis.db (redis s))
        /\ memory_cache s' !! k = memory_cache s !! k
        /\ forall e, stored_entry k s = Some e -> stored_entry k s' = Some e).
Proof.
  simpl.
  assert (H : forall k,
     k <> _generate_cache_key model_id messages max_tokens ->
     (forall um, last_user_message messages = Some um -> k <> semantic_index_key model_id um) ->
     Redis.find k (Redis.db (redis (snd (cache_response model_id messages r max_tokens ttl s))))
     = Redis.find k (Redis.db (redis s))
     /\ memory_cache (snd (cache_response model_id messages r max_tokens ttl s)) !! k
        = memory_cache s !! k
     /\ forall e, stored_entry k s = Some e ->
          stored_entry k (snd (cache_response model_id messages r max_tokens ttl s)) = Some e).
  { intros k Hne Hsk.
    destruct (cache_response_put_frame k model_id messages r max_tokens ttl Hne Hsk s)
      as (_ & Hf & Hm & [ext He]).
    split; [exact Hf|]. split; [exact Hm|].
    intros e. unfold stored_entry. rewrite Hm.
    destruct (memory_cache s !! _) as [l|]; [|discriminate].
    rewrite He. apply lookup_app_l_Some. }
  split; [exact H|].
  intros model_id' messages' max_tokens' Hne. apply H; [exact Hne|].
  intros um _. apply index_key_not_cache_key.
Qed.

End Interference.

Lemma cache_response_touches_two_keys_witness :
  _generate_cache_key "m" [user "How do I reset my password?"] None
  <> _generate_cache_key "m" [user "What are your business hours?"] None
  /\ stored_entry (_generate_cache_key "m" [user "How do I reset my password?"] None)
       (snd (cache_response "m" [user "What are your business hours?"] "9 to 5" None 3600
               (snd (cache_response "m" [user "How do I reset my password?"] "Use the link"
                       None 3600 fallback0))))
     = Some (CacheEntry "Use the link" "1000" "m" 3600 None).
Proof.
  assert (H : _generate_cache_key "m" [user "How do I reset my password?"] None
              <> _generate_cache_key "m" [user "What are your business hours?"] None)
    by (vm_compute; discriminate).
  split; [exact H|].
  destruct (cache_response_touches_two_keys "m" [user "What are your business hours?"]
              "9 to 5" None 3600
              (snd (cache_response "m" [user "How do I reset my password?"] "Use the link"
                      None 3600 fallback0))) as (_ & Hother).
  destruct (Hother "m" [user "How do I reset my password?"] None H) as (_ & _ & He).
  apply He. vm_compute. reflexivity.
Defined.

(** ** The record that goes with an entry *)

Section Pairing.

Context {response : Type} {json : Json_reading response}.

Local Open Scope list_scope.

Implicit Types (s : SmartCache response).

Lemma mapping_fields (a b c : string) (h0 : gmap string string) :
  let m : gmap string string :=
    list_to_map [("message", a); ("response_key", b); ("created", c)] in
  (m !! "message" = Some a /\ m !! "response_key" = Some b /\ m !! "created" = Some c)
  /\ ((m ∪ h0) !! "message" = Some a /\ (m ∪ h0) !! "response_key" = Some b
      /\ (m ∪ h0) !! "created" = Some c).
Proof.
  intros m.
  assert (H1 : m !! "message" = Some a) by (subst m; cbn; apply lookup_insert_eq).
  assert (H2 : m !! "response_key" = Some b).
  { subst m; cbn. rewrite lookup_insert_ne by discriminate. apply lookup_insert_eq. }
  assert (H3 : m !! "created" = Some c).
  { subst m; cbn. rewrite !lookup_insert_ne by discriminate. apply lookup_insert_eq. }
  split; [auto|].
  repeat split; apply lookup_union_Some_l; assumption.
Qed.

Lemma create_semantic_index_written model_id user_message response_key ttl s :
  cache_available s = true ->
  Redis.healthy (redis s) ->
  Redis.valid_expiry (clock s) ttl = true ->
  stored_doc (clock s) (Redis.db (redis s)) (semantic_index_key model_id user_message) = None ->
  exists h,
    Redis.find (semantic_index_key model_id user_message)
      (Redis.db (redis (snd (_create_semantic_index model_id user_message response_key ttl s))))
    = Some (Redis.Entry (Redis.Hash h) (Some (clock s + ttl)))
    /\ h !! "message" = Some user_message
    /\ h !! "response_key" = Some response_key
    /\ h !! "created" = Some (isoformat (clock s)).
Proof.
  intros Hav Hh Hvalid Hdoc.
  pose proof (valid_expiry_positive _ _ Hvalid) as Httl.
  pose proof (valid_expiry_in_range _ _ Hvalid) as Hin.
  set (skey := semantic_index_key model_id user_message) in *.
  destruct (mapping_fields user_message response_key (isoformat (clock s)) ∅)
    as [(M1 & M2 & M3) _].
  assert (Hneg : (ttl <=? 0) = false) by (apply Z.leb_gt; lia).
  unfold _create_semantic_index. rewrite Hav. cbn [negb]. cbv iota.
  fold skey. unfold try_except, bind.
  rewrite redis_call_healthy by exact Hh.
  unfold Redis.HSET. unfold stored_doc in Hdoc.
  destruct (Redis.lookup (clock s) skey (Redis.db (redis s))) as [[[v|h0] t0]|] eqn:Hlook;
    [discriminate| |]; cbn [fst snd].
  - rewrite redis_call_healthy by (apply tail_healthy, Hh).
    cbn [clock set_redis redis Redis.db].
    unfold Redis.EXPIRE, Redis.lookup. rewrite Hin. cbn [negb]. rewrite find_store_same.
    assert (Hlive : match t0 with None => true | Some t => clock s <? t end = true).
    { unfold Redis.lookup in Hlook.
      destruct (Redis.find skey (Redis.db (redis s))) as [e0|]; [|discriminate].
      destruct (Redis.live (clock s) e0) eqn:El; [|discriminate].
      injection Hlook as ->. exact El. }
    unfold Redis.live. cbn [Redis.expire_at].
    rewrite Hlive, Hneg. unfold ret. cbn [fst snd set_redis redis Redis.db].
    rewrite find_store_same. eexists. split; [reflexivity|].
    apply (mapping_fields user_message response_key (isoformat (clock s)) h0).
  - rewrite redis_call_healthy by (apply tail_healthy, Hh).
    cbn [clock set_redis redis Redis.db].
    unfold Redis.EXPIRE, Redis.lookup. rewrite Hin. cbn [negb]. rewrite find_store_same.
    unfold Redis.live. cbn [Redis.expire_at]. rewrite Hneg.
    unfold ret. cbn [fst snd set_redis redis Redis.db].
    rewrite find_store_same. eexists. split; [reflexivity|].
    repeat split; assumption.
Qed.

(** X10: on a healthy server, with a TTL that the server accepts, a
    response that [json.dumps] accepts, a request that has a user message,
    and no string stored under the semantic key of that message,
    [cache_response] leaves a pair behind: under the exact key the entry
    as [json.loads] will read it and, under the semantic key, a hash whose
    [message] is the message, whose [response_key] is the exact key and
    whose [created] is the time of the call; both expire [ttl] seconds
    after the call.  The hash is written whether or not the response has
    an encoding. *)
Theorem cache_response_writes_pair (model_id : string) (messages : list message)
    (r : response) (max_tokens : option Z) (ttl : Z) (user_message : string)
    (s : SmartCache response) :
  cache_available s = true ->
  Redis.healthy (redis s) ->
  Redis.valid_expiry (clock s) ttl = true ->
  last_user_message messages = Some user_message ->
  nonempty user_message = true ->
  stored_doc (clock s) (Redis.db (redis s)) (semantic_index_key model_id user_message) = None ->
  let key := _generate_cache_key model_id messages max_tokens in
  let s1 := snd (cache_response model_id messages r max_tokens ttl s) in
  (forall r', json_reading r = Some r' ->
     Redis.find key (Redis.db (redis s1))
     = Some (Redis.Entry (Redis.Str (CacheEntry r' (isoformat (clock s)) model_id ttl None))
               (Some (clock s + ttl))))
  /\ (json_reading r = None ->
      Redis.find key (Redis.db (redis s1)) = Redis.find key (Redis.db (redis s)))
  /\ exists h,
       Redis.find (semantic_index_key model_id user_message) (Redis.db (redis s1))
       = Some (Redis.Entry (Redis.Hash h) (Some (clock s + ttl)))
       /\ h !! "message" = Some user_message
       /\ h !! "response_key" = Some key
       /\ h !! "created" = Some (isoformat (clock s)).
Proof.
  intros Hav Hh Httl Hum Hne Hdoc. simpl.
  split; [intros r' Hr;
          apply (cache_response_stored model_id messages r r' max_tokens ttl s Hav Hh Httl Hr)|].
  unfold cache_response.
  erewrite bind_returned by reflexivity. cbv beta.
  assert (Hnew : heap (set_heap (heap s ++ [CacheEntry r (isoformat (clock s)) model_id ttl None]) s)
                 !! length (heap s)
                 = Some (CacheEntry r (isoformat (clock s)) model_id ttl None)).
  { simpl. rewrite lookup_app_r by lia. rewrite Nat.sub_diag. reflexivity. }
  destruct (json_reading r) as [r'|] eqn:Hr.
  - split; [discriminate|].
    erewrite bind_returned.
    2:{ apply store_in_cache_stored with
          (v := CacheEntry r (isoformat (clock s)) model_id ttl None)
          (text := CacheEntry r' (isoformat (clock s)) model_id ttl None);
          [exact Hav | exact Hh | exact Hnew | apply json_dumps_new, Hr | exact Httl]. }
    rewrite Hum, Hne.
    set (s0 := set_redis _ _).
    destruct (create_semantic_index_written model_id user_message
                (_generate_cache_key model_id messages max_tokens) ttl s0)
      as (h & Hf & H1 & H2 & H3).
    + exact Hav.
    + apply tail_healthy, Hh.
    + exact Httl.
    + rewrite <- Hdoc. apply stored_doc_same_find.
      apply find_store_other. intros Heq. symmetry in Heq.
      exact (index_key_not_cache_key model_id user_message model_id messages max_tokens Heq).
    + exists h. split; [exact Hf|]. split; [exact H1|]. split; [exact H2 | exact H3].
  - erewrite bind_returned.
    2:{ apply store_in_cache_unwritten with
          (v := CacheEntry r (isoformat (clock s)) model_id ttl None);
          [exact Hav | exact Hnew |].
        unfold json_dumps. cbn [e_response]. rewrite Hr. reflexivity. }
    rewrite Hum, Hne.
    set (s0 := set_heap _ _).
    split.
    + intros _.
      apply (create_semantic_index_same_binding
               (_generate_cache_key model_id messages max_tokens) model_id user_message
               (_generate_cache_key model_id messages max_tokens) ttl
               (index_key_not_cache_key model_id user_message model_id messages max_tokens) s0).
    + destruct (create_semantic_index_written model_id user_message
                  (_generate_cache_key model_id messages max_tokens) ttl s0)
        as (h & Hf & H1 & H2 & H3); [exact Hav | exact Hh | exact Httl | exact Hdoc |].
      exists h. split; [exact Hf|]. split; [exact H1|]. split; [exact H2 | exact H3].
Qed.

End Pairing.

Lemma cache_response_writes_pair_witness :
  cache_available networked0 = true
  /\ Redis.healthy (redis networked0)
  /\ Redis.valid_expiry (clock networked0) 3600 = true
  /\ last_user_message [user "Hi?"] = Some "Hi?"
  /\ nonempty "Hi?" = true
  /\ stored_doc (clock networked0) (Redis.db (redis networked0))
       (semantic_index_key "m" "Hi?") = None
  /\ Redis.find (_generate_cache_key "m" [user "Hi?"] None)
       (Redis.db (redis (snd (cache_response "m" [user "Hi?"] "R" None 3600 networked0))))
     = Some (Redis.Entry (Redis.Str (CacheEntry "R" (isoformat (clock networked0)) "m" 3600 None))
               (Some (clock networked0 + 3600)))
  /\ exists h,
       Redis.find (semantic_index_key "m" "Hi?")
         (Redis.db (redis (snd (cache_response "m" [user "Hi?"] "R" None 3600 networked0))))
       = Some (Redis.Entry (Redis.Hash h) (Some (clock networked0 + 3600)))
       /\ h !! "response_key" = Some (_generate_cache_key "m" [user "Hi?"] None).
Proof.
  assert (H1 : cache_available networked0 = true) by reflexivity.
  assert (H2 : Redis.healthy (redis networked0)) by (vm_compute; constructor).
  assert (H3 : Redis.valid_expiry (clock networked0) 3600 = true) by reflexivity.
  assert (H4 : last_user_message [user "Hi?"] = Some "Hi?") by reflexivity.
  assert (H5 : nonempty "Hi?" = true) by reflexivity.
  assert (H6 : stored_doc (clock networked0) (Redis.db (redis networked0))
                 (semantic_index_key "m" "Hi?") = None) by reflexivity.
  repeat (split; [assumption|]).
  destruct (cache_response_writes_pair "m" [user "Hi?"] "R" None 3600 "Hi?" networked0
              H1 H2 H3 H4 H5 H6) as (He & _ & h & Hf & _ & Hk & _).
  split; [apply He; reflexivity|].
  exists h. split; [exact Hf | exact Hk].
Defined.

(** ** The analyser *)

Section AnalyzerProps.

Context {response : Type} {json : Json_reading response}.

Variable estimated_cost : string -> response -> option Q.
Variable api : nat -> option response * Z.

Local Open Scope list_scope.

Implicit Types (a : analyzer response).

Lemma analyze_query_counts model_id a query :
  let a' := analyze_query estimated_cost api model_id a query in
  cache_available (cache a') = cache_available (cache a)
  /\ total_requests (cache_stats (cache a')) = total_requests (cache_stats (cache a)) + 1
  /\ ((hits (cache_stats (cache a')) = hits (cache_stats (cache a)) + 1
       /\ misses (cache_stats (cache a')) = misses (cache_stats (cache a))
       /\ api_calls a' = api_calls a)
      \/ (hits (cache_stats (cache a')) = hits (cache_stats (cache a))
          /\ misses (cache_stats (cache a')) = misses (cache_stats (cache a)) + 1
          /\ api_calls a' = S (api_calls a))).
Proof.
  simpl. unfold analyze_query.
  pose proof (get_cached_response_only_tags model_id [Message (Some "user") (Some query)]
                None (85 # 100) (cache a)) as (Hav & _).
  destruct (get_outcome model_id [Message (Some "user") (Some query)] None (85 # 100)
              (cache a)) as (res & c1 & E & H).
  rewrite E in Hav |- *. simpl in Hav. unfold counters in H.
  destruct H as [[[l ->] H] | [-> H]]; injection H as Hh Hm Ht.
  - assert (Hgoal : forall c, cache_stats c = cache_stats c1 \/
                      (exists x, c = add_savings x c1) -> cache_available c = cache_available c1
                      -> cache_available c = cache_available (cache a)
                         /\ total_requests (cache_stats c) = total_requests (cache_stats (cache a)) + 1
                         /\ hits (cache_stats c) = hits (cache_stats (cache a)) + 1
                         /\ misses (cache_stats c) = misses (cache_stats (cache a))).
    { intros c [Hc | [x ->]] Hac.
      - rewrite Hc. repeat split; congruence.
      - simpl. repeat split; congruence. }
    destruct (heap c1 !! l) as [e|].
    + destruct (estimated_cost model_id (e_response e)) as [x|]; simpl;
        [destruct (Hgoal (add_savings x c1)) as (G1 & G2 & G3 & G4); eauto
        |destruct (Hgoal c1) as (G1 & G2 & G3 & G4); auto];
        (split; [exact G1|]; split; [exact G2|]; left; repeat split; assumption).
    + simpl. destruct (Hgoal c1) as (G1 & G2 & G3 & G4); auto.
      split; [exact G1|]. split; [exact G2|]. left. repeat split; assumption.
  - unfold _make_api_call. simpl. destruct (api (api_calls a)) as [[r|] seconds]; simpl.
    + destruct (cache_response_kept model_id [Message (Some "user") (Some query)] r None 3600
                  (tick seconds c1)) as (Ks & Ka & _).
      rewrite Ks, Ka. simpl.
      split; [exact Hav|]. split; [exact Ht|]. right. repeat split; assumption.
    + split; [exact Hav|]. split; [exact Ht|]. right. repeat split; assumption.
Qed.

Lemma analyze_loop_counts model_id queries : forall a,
  let a' := fold_left (analyze_query estimated_cost api model_id) queries a in
  cache_available (cache a') = cache_available (cache a)
  /\ total_requests (cache_stats (cache a'))
     = total_requests (cache_stats (cache a)) + Z.of_nat (length queries)
  /\ hits (cache_stats (cache a')) + misses (cache_stats (cache a'))
     = hits (cache_stats (cache a)) + misses (cache_stats (cache a))
       + Z.of_nat (length queries)
  /\ Z.of_nat (api_calls a') - Z.of_nat (api_calls a)
     = misses (cache_stats (cache a')) - misses (cache_stats (cache a)).
Proof.
  induction queries as [|q queries IH]; intros a; [simpl; repeat split; lia|].
  change (fold_left (analyze_query estimated_cost api model_id) (q :: queries) a)
    with (fold_left (analyze_query estimated_cost api model_id) queries (analyze_query estimated_cost api model_id a q)).
  cbv zeta. specialize (IH (analyze_query estimated_cost api model_id a q)). cbv zeta in IH.
  destruct IH as (I1 & I2 & I3 & I4).
  destruct (analyze_query_counts model_id a q) as (Q1 & Q2 & Q3).
  rewrite I1, I2, I3. cbn [length]. split; [exact Q1|].
  destruct Q3 as [(Hh & Hm & Hc) | (Hh & Hm & Hc)]; repeat split; lia.
Qed.

(** X11: what [analyze_caching_scenario] does to the counts.  Every query
    is one request to the cache, counted as a hit or as a miss; the model
    is called once for each miss and never for a hit; the backend stays
    the one it was; and the run ends by raising (its closing estimate
    divides by the number of queries) exactly when there is no query. *)
Theorem analyze_caching_scenario_counts (queries : list string) (model_id : string) a :
  let r := analyze_caching_scenario estimated_cost api queries model_id a in
  let a' := snd r in
  total_requests (cache_stats (cache a'))
  = total_requests (cache_stats (cache a)) + Z.of_nat (length queries)
  /\ hits (cache_stats (cache a')) + misses (cache_stats (cache a'))
     = hits (cache_stats (cache a)) + misses (cache_stats (cache a))
       + Z.of_nat (length queries)
  /\ Z.of_nat (api_calls a') - Z.of_nat (api_calls a)
     = misses (cache_stats (cache a')) - misses (cache_stats (cache a))
  /\ cache_available (cache a') = cache_available (cache a)
  /\ ((queries = [] /\ fst r = Raised) \/ (queries <> [] /\ fst r = Returned tt)).
Proof.
  destruct (analyze_loop_counts model_id queries a) as (I1 & I2 & I3 & I4).
  cbv zeta in I1, I2, I3, I4. unfold analyze_caching_scenario.
  destruct queries as [|q queries]; cbn [fst snd cache api_calls get_cache_stats];
    (split; [exact I2|]; split; [exact I3|]; split; [exact I4|]; split; [exact I1|]).
  - left. split; reflexivity.
  - right. split; [discriminate | reflexivity].
Qed.

End AnalyzerProps.

Section AnalyzerFallback.

Context {response : Type} {json : Json_reading response}.

Variable estimated_cost : string -> response -> option Q.
Variable api : nat -> option response * Z.

Hypothesis api_answers : forall n, exists r, fst (api n) = Some r.

Local Open Scope list_scope.

Implicit Types (a : analyzer response).

(** A query whose request is bound is a hit, and costs no call. *)
Lemma analyze_query_bound model_id a query :
  cache_available (cache a) = false ->
  bound model_id query (cache a) ->
  let a' := analyze_query estimated_cost api model_id a query in
  api_calls a' = api_calls a
  /\ memory_cache (cache a') = memory_cache (cache a)
  /\ cache_available (cache a') = false
  /\ hits (cache_stats (cache a')) = hits (cache_stats (cache a)) + 1
  /\ misses (cache_stats (cache a')) = misses (cache_stats (cache a)).
Proof.
  intros Hf [l Hl]. simpl. unfold analyze_query.
  rewrite get_cached_response_fallback by exact Hf. rewrite Hl.
  cbn [snd incr_total_requests incr_hits set_cache_type].
  match goal with |- context [heap ?c !! l] => destruct (heap c !! l) as [e|] end.
  - destruct (estimated_cost model_id (e_response e)) as [x|]; simpl; repeat split; exact Hf.
  - simpl. repeat split; exact Hf.
Qed.

(** After its turn a query is bound, and what was bound still is. *)
Lemma analyze_query_binds model_id a query :
  cache_available (cache a) = false ->
  let a' := analyze_query estimated_cost api model_id a query in
  cache_available (cache a') = false
  /\ bound model_id query (cache a')
  /\ forall q, bound model_id q (cache a) -> bound model_id q (cache a').
Proof.
  intros Hf. simpl.
  destruct (memory_cache (cache a)
              !! _generate_cache_key model_id [Message (Some "user") (Some query)] None)
    as [l|] eqn:Hl.
  - destruct (analyze_query_bound model_id a query Hf (ex_intro _ l Hl))
      as (_ & Hm & Ha & _).
    cbv zeta in Hm, Ha. split; [exact Ha|]. unfold bound. rewrite Hm.
    split; [eauto | auto].
  - unfold analyze_query.
    rewrite get_cached_response_fallback by exact Hf. rewrite Hl.
    cbn [snd incr_total_requests incr_misses]. unfold _make_api_call. cbn [api_calls cache].
    destruct (api_answers (api_calls a)) as [r Hr].
    destruct (api (api_calls a)) as [res seconds]. simpl in Hr. subst res.
    rewrite cache_response_fallback by exact Hf.
    cbn [snd cache memory_cache set_memory_cache cache_available set_heap tick set_clock
           set_cache_stats].
    split; [exact Hf|]. unfold bound. cbn [memory_cache set_memory_cache set_heap].
    split.
    + rewrite lookup_insert_eq. eauto.
    + intros q [l' Hq]. rewrite lookup_insert. destruct (decide _); eauto.
Qed.

Lemma analyze_loop_binds model_id queries : forall a,
  cache_available (cache a) = false ->
  let a' := fold_left (analyze_query estimated_cost api model_id) queries a in
  cache_available (cache a') = false
  /\ Forall (fun q => bound model_id q (cache a')) queries
  /\ forall q, bound model_id q (cache a) -> bound model_id q (cache a').
Proof.
  induction queries as [|q queries IH]; intros a Hf; [simpl; repeat split; auto|].
  change (fold_left (analyze_query estimated_cost api model_id) (q :: queries) a)
    with (fold_left (analyze_query estimated_cost api model_id) queries
            (analyze_query estimated_cost api model_id a q)).
  destruct (analyze_query_binds model_id a q Hf) as (Hf1 & Hq & Hkeep).
  destruct (IH _ Hf1) as (Hf2 & Hall & Hkeep2). cbv zeta in *.
  split; [exact Hf2|]. split; [|auto].
  constructor; [apply Hkeep2, Hq | exact Hall].
Qed.

Lemma analyze_loop_bound model_id queries : forall a,
  cache_available (cache a) = false ->
  Forall (fun q => bound model_id q (cache a)) queries ->
  let a' := fold_left (analyze_query estimated_cost api model_id) queries a in
  api_calls a' = api_calls a
  /\ hits (cache_stats (cache a')) = hits (cache_stats (cache a)) + Z.of_nat (length queries)
  /\ misses (cache_stats (cache a')) = misses (cache_stats (cache a)).
Proof.
  induction queries as [|q queries IH]; intros a Hf Hall; [simpl; repeat split; lia|].
  change (fold_left (analyze_query estimated_cost api model_id) (q :: queries) a)
    with (fold_left (analyze_query estimated_cost api model_id) queries
            (analyze_query estimated_cost api model_id a q)).
  apply Forall_cons in Hall as [Hq Hall].
  destruct (analyze_query_bound model_id a q Hf Hq) as (Hc & Hm & Hf1 & Hh & Hmi).
  cbv zeta in *.
  destruct (IH (analyze_query estimated_cost api model_id a q) Hf1) as (I1 & I2 & I3).
  { unfold bound in *. rewrite Hm. exact Hall. }
  rewrite I1, I2, I3, Hc, Hh, Hmi. cbn [length]. repeat split; lia.
Qed.

(** X12: on the in-process backend, with a model that answers every
    call, a second analysis of the same queries is served from the cache
    alone: it calls the model not once, adds no miss, and counts one hit
    for each query. *)
Theorem second_analysis_all_hits (queries : list string) (model_id : string) a :
  cache_available (cache a) = false ->
  let a1 := snd (analyze_caching_scenario estimated_cost api queries model_id a) in
  let a2 := snd (analyze_caching_scenario estimated_cost api queries model_id a1) in
  api_calls a2 = api_calls a1
  /\ misses (cache_stats (cache a2)) = misses (cache_stats (cache a1))
  /\ hits (cache_stats (cache a2))
     = hits (cache_stats (cache a1)) + Z.of_nat (length queries).
Proof.
  intros Hf.
  destruct (analyze_loop_binds model_id queries a Hf) as (Hf1 & Hall & _).
  cbv zeta in Hf1, Hall.
  assert (E1 : snd (analyze_caching_scenario estimated_cost api queries model_id a)
               = fold_left (analyze_query estimated_cost api model_id) queries a).
  { unfold analyze_caching_scenario. cbn [get_cache_stats snd].
    destruct (fold_left _ queries a) as [c n]; destruct queries; reflexivity. }
  cbv zeta. rewrite E1.
  set (a1 := fold_left (analyze_query estimated_cost api model_id) queries a) in *.
  assert (E2 : snd (analyze_caching_scenario estimated_cost api queries model_id a1)
               = fold_left (analyze_query estimated_cost api model_id) queries a1).
  { unfold analyze_caching_scenario. cbn [get_cache_stats snd].
    destruct (fold_left _ queries a1) as [c n]; destruct queries; reflexivity. }
  rewrite E2.
  destruct (analyze_loop_bound model_id queries a1 Hf1 Hall) as (I1 & I2 & I3).
  cbv zeta in I1, I2, I3. split; [exact I1|]. split; [exact I3 | exact I2].
Qed.

End AnalyzerFallback.

Lemma second_analysis_all_hits_witness :
  (forall n : nat, exists r, fst ((fun _ : nat => (Some "answer", 2)) n) = Some r)
  /\ cache_available (cache (Analyzer fallback0 0)) = false
  /\ api_calls
       (snd (analyze_caching_scenario (fun _ _ => None) (fun _ => (Some "answer", 2))
               ["What are your business hours?"; "How do I reset my password?"] haiku
               (snd (analyze_caching_scenario (fun _ _ => None) (fun _ => (Some "answer", 2))
                       ["What are your business hours?"; "How do I reset my password?"] haiku
                       (Analyzer fallback0 0)))))
     = api_calls
         (snd (analyze_caching_scenario (fun _ _ => None) (fun _ => (Some "answer", 2))
                 ["What are your business hours?"; "How do I reset my password?"] haiku
                 (Analyzer fallback0 0))).
Proof.
  assert (H1 : forall n : nat, exists r, fst ((fun _ : nat => (Some "answer", 2)) n) = Some r)
    by (intros n; exists "answer"; reflexivity).
  assert (H2 : cache_available (cache (Analyzer fallback0 0)) = false) by reflexivity.
  split; [exact H1|]. split; [exact H2|].
  destruct (second_analysis_all_hits (fun _ _ => None) (fun _ => (Some "answer", 2)) H1
              ["What are your business hours?"; "How do I reset my password?"] haiku
              (Analyzer fallback0 0) H2) as (H & _).
  exact H.
Defined.

(** ** A question asked again

    The matcher on two copies of one string: the longest match is the
    whole string, so the ratio is 1. *)

Section Identical.

Local Open Scope list_scope.

Variable a : list ascii.

Lemma common_run_eq i j :
  common_run a i j = if run_cond a i j then S (run_before a i j) else O.
Proof. destruct i; reflexivity. Qed.

Lemma run_cond_true i j :
  run_cond a i j = true ->
  (j < length a)%nat /\ Difflib.elt a j = Difflib.elt a i
  /\ Difflib.popular a (Difflib.elt a i) = false.
Proof.
  unfold run_cond. intros E.
  apply andb_true_iff in E as [E1 E3]. apply andb_true_iff in E1 as [E1 E2].
  apply Nat.ltb_lt in E1. apply Ascii.eqb_eq in E2. apply negb_true_iff in E3. auto.
Qed.

Lemma run_cond_intro i j :
  (j < length a)%nat -> Difflib.elt a j = Difflib.elt a i ->
  Difflib.popular a (Difflib.elt a i) = false -> run_cond a i j = true.
Proof.
  intros H1 H2 H3. unfold run_cond.
  apply Nat.ltb_lt in H1. rewrite H1, H2, Ascii.eqb_refl, H3. reflexivity.
Qed.

Lemma common_run_diag_bound i : (common_run a i i <= S i)%nat.
Proof.
  induction i as [|i IH]; rewrite common_run_eq; destruct (run_cond a _ _); simpl; lia.
Qed.

Lemma common_run_le_diag_l : forall i j, (common_run a i j <= common_run a j j)%nat.
Proof.
  induction i as [|i IH]; intros j; rewrite (common_run_eq _ j);
    destruct (run_cond a _ j) eqn:E; try lia;
    apply run_cond_true in E as (E1 & E2 & E3);
    rewrite (common_run_eq j j), (run_cond_intro j j) by (rewrite ?E2; auto).
  - simpl. lia.
  - destruct j as [|j]; simpl; [lia|]. specialize (IH j). lia.
Qed.

Lemma common_run_le_diag_r : forall i j,
  (i < length a)%nat -> (common_run a i j <= common_run a i i)%nat.
Proof.
  induction i as [|i IH]; intros j Hi; rewrite (common_run_eq _ j);
    destruct (run_cond a _ j) eqn:E; try lia;
    apply run_cond_true in E as (E1 & E2 & E3).
  - rewrite (common_run_eq 0 0), (run_cond_intro 0 0) by auto. simpl. lia.
  - rewrite (common_run_eq (S i) (S i)), (run_cond_intro (S i) (S i)) by auto.
    destruct j as [|j]; simpl; [lia|]. specialize (IH j). lia.
Qed.

(** One row of the table, on the columns [L]. *)
Lemma scan_j_eq i prev bi bj bs new j :
  (j < length a)%nat ->
  Difflib.scan_j i 0 (length a) prev ((bi, bj, bs), new) j
  = ((if (bs <? Difflib.j2lenget prev j + 1)%nat
      then ((i + 1 - (Difflib.j2lenget prev j + 1))%nat,
            (j + 1 - (Difflib.j2lenget prev j + 1))%nat,
            (Difflib.j2lenget prev j + 1)%nat)
      else (bi, bj, bs)),
     <[j := (Difflib.j2lenget prev j + 1)%nat]> new).
Proof.
  intros Hj. unfold Difflib.scan_j.
  assert ((j <? 0)%nat = false) as -> by (apply Nat.ltb_ge; lia).
  assert ((length a <=? j)%nat = false) as -> by (apply Nat.leb_gt; lia).
  reflexivity.
Qed.

Lemma row_table i prev L : forall best new j,
  Forall (fun j => (j < length a)%nat) L ->
  snd (fold_left (Difflib.scan_j i 0 (length a) prev) L (best, new)) !! j
  = if decide (j ∈ L) then Some (Difflib.j2lenget prev j + 1)%nat else new !! j.
Proof.
  induction L as [|x L IH]; intros [[bi bj] bs] new j HL.
  - simpl. destruct (decide (j ∈ [])) as [H|_]; [inversion H | reflexivity].
  - inversion HL as [|? ? Hx HL']; subst.
    cbn [fold_left]. rewrite scan_j_eq by exact Hx.
    rewrite IH by exact HL'.
    destruct (decide (j ∈ L)) as [H|H].
    + rewrite decide_True by (right; exact H). reflexivity.
    + destruct (decide (j = x)) as [->|Hne].
      * rewrite decide_True by left. apply lookup_insert_eq.
      * rewrite decide_False by (intros Hin; inversion Hin; subst; tauto).
        apply lookup_insert_ne. congruence.
Qed.

Lemma row_best_kept i prev L : forall bi bj bs new,
  Forall (fun j => (j < length a)%nat /\ (Difflib.j2lenget prev j + 1 <= bs)%nat) L ->
  fst (fold_left (Difflib.scan_j i 0 (length a) prev) L ((bi, bj, bs), new)) = (bi, bj, bs).
Proof.
  induction L as [|x L IH]; intros bi bj bs new HL; [reflexivity|].
  inversion HL as [|? ? [Hx Hk] HL']; subst.
  cbn [fold_left]. rewrite scan_j_eq by exact Hx.
  assert ((bs <? Difflib.j2lenget prev x + 1)%nat = false) as -> by (apply Nat.ltb_ge; lia).
  apply IH. exact HL'.
Qed.

Lemma j2lenget_run i tbl j : table_of a i tbl -> Difflib.j2lenget tbl j = run_before a i j.
Proof.
  intros H. destruct j as [|j]; simpl.
  - destruct i; reflexivity.
  - rewrite H. destruct i; reflexivity.
Qed.

Lemma occurrences_elem j c :
  In j (Difflib.occurrences a c) <-> (j < length a)%nat /\ Difflib.elt a j = c.
Proof.
  unfold Difflib.occurrences. rewrite filter_In, in_seq, Ascii.eqb_eq. intuition lia.
Qed.

Lemma occurrences_split i :
  (i < length a)%nat ->
  Difflib.occurrences a (Difflib.elt a i)
  = List.filter (fun j => Ascii.eqb (Difflib.elt a j) (Difflib.elt a i)) (seq 0 i)
    ++ i :: List.filter (fun j => Ascii.eqb (Difflib.elt a j) (Difflib.elt a i))
              (seq (S i) (length a - S i)).
Proof.
  intros Hi. unfold Difflib.occurrences.
  replace (length a) with (i + S (length a - S i))%nat at 1 by lia.
  rewrite seq_app, List.filter_app. cbn [seq List.filter plus].
  rewrite Ascii.eqb_refl. reflexivity.
Qed.

Lemma row_step i prev d bs :
  (i < length a)%nat ->
  table_of a i prev ->
  (d + bs <= i)%nat ->
  (forall i', (i' < i)%nat -> (common_run a i' i' <= bs)%nat) ->
  exists d' bs' tbl',
    Difflib.scan_i a a 0 (length a) ((d, d, bs), prev) i = ((d', d', bs'), tbl')
    /\ (d' + bs' <= S i)%nat
    /\ (forall i', (i' < S i)%nat -> (common_run a i' i' <= bs')%nat)
    /\ table_of a (S i) tbl'.
Proof.
  intros Hi Hprev Hd Hdiag. unfold Difflib.scan_i, Difflib.b2j.
  destruct (Difflib.popular a (Difflib.elt a i)) eqn:Hpop.
  - exists d, bs, ∅. split; [reflexivity|]. split; [lia|].
    assert (Hzero : forall j, common_run a i j = O).
    { intros j. rewrite common_run_eq. unfold run_cond. rewrite Hpop.
      rewrite andb_false_r. reflexivity. }
    split.
    + intros i' Hi'. destruct (decide (i' = i)) as [->|Hne].
      * rewrite Hzero. lia.
      * apply Hdiag. lia.
    + intros j. rewrite lookup_empty, Hzero. reflexivity.
  - set (L := Difflib.occurrences a (Difflib.elt a i)).
    assert (HL : Forall (fun j => (j < length a)%nat) L).
    { apply List.Forall_forall. intros j Hj. apply occurrences_elem in Hj. tauto. }
    assert (Hk : forall j, In j L ->
              (Difflib.j2lenget prev j + 1)%nat = common_run a i j).
    { intros j Hj. apply occurrences_elem in Hj as [Hj1 Hj2].
      rewrite common_run_eq, (run_cond_intro i j) by auto.
      rewrite (j2lenget_run i) by exact Hprev. lia. }
    assert (Htbl : table_of a (S i)
              (snd (fold_left (Difflib.scan_j i 0 (length a) prev) L ((d, d, bs), ∅)))).
    { intros j. rewrite row_table by exact HL.
      destruct (decide (j ∈ L)) as [Hin|Hout].
      - apply list_elem_of_In in Hin. simpl. apply Hk. exact Hin.
      - rewrite lookup_empty. simpl. rewrite common_run_eq.
        destruct (run_cond a i j) eqn:E; [|reflexivity].
        apply run_cond_true in E as (E1 & E2 & _).
        exfalso. apply Hout. apply list_elem_of_In. apply occurrences_elem. auto. }
    revert Htbl Hk. unfold L. rewrite (occurrences_split i Hi).
    set (f := fun j => Ascii.eqb (Difflib.elt a j) (Difflib.elt a i)).
    intros Htbl Hk.
    rewrite fold_left_app in *. cbn [fold_left] in *.
    destruct (fold_left (Difflib.scan_j i 0 (length a) prev) (List.filter f (seq 0 i))
                ((d, d, bs), ∅)) as [best1 new1] eqn:E1.
    assert (Hb1 : best1 = (d, d, bs)).
    { change best1 with (fst (best1, new1)). rewrite <- E1.
      apply row_best_kept. apply List.Forall_forall. intros j Hj.
      pose proof Hj as Hj'. apply filter_In in Hj' as [Hs _]. apply in_seq in Hs.
      split; [lia|]. rewrite Hk by (apply in_or_app; left; exact Hj).
      etransitivity; [apply common_run_le_diag_l|]. apply Hdiag. lia. }
    subst best1. rewrite scan_j_eq in * by exact Hi.
    rewrite (Hk i) in * by (apply in_or_app; right; left; reflexivity).
    pose proof (common_run_diag_bound i) as Hbound.
    set (best2 := if (bs <? common_run a i i)%nat
                  then ((i + 1 - common_run a i i)%nat, (i + 1 - common_run a i i)%nat,
                        common_run a i i)
                  else (d, d, bs)) in *.
    assert (Hb2 : exists d2 bs2, best2 = (d2, d2, bs2) /\ (d2 + bs2 <= S i)%nat
                   /\ (bs <= bs2)%nat /\ (common_run a i i <= bs2)%nat).
    { subst best2. destruct (bs <? common_run a i i)%nat eqn:Elt.
      - apply Nat.ltb_lt in Elt. eexists _, _. split; [reflexivity|]. lia.
      - apply Nat.ltb_ge in Elt. exists d, bs. split; [reflexivity|]. lia. }
    destruct Hb2 as (d2 & bs2 & -> & Hd2 & Hbs & Hii).
    destruct (fold_left (Difflib.scan_j i 0 (length a) prev)
                (List.filter f (seq (S i) (length a - S i))) _) as [best3 new3] eqn:E3.
    assert (Hb3 : best3 = (d2, d2, bs2)).
    { change best3 with (fst (best3, new3)). rewrite <- E3.
      apply row_best_kept. apply List.Forall_forall. intros j Hj.
      pose proof Hj as Hj'. apply filter_In in Hj' as [Hs _]. apply in_seq in Hs.
      split; [lia|]. rewrite Hk by (apply in_or_app; right; right; exact Hj).
      etransitivity; [apply common_run_le_diag_r; exact Hi|]. exact Hii. }
    subst best3. exists d2, bs2, new3. split; [reflexivity|]. split; [exact Hd2|].
    split; [|exact Htbl].
    intros i' Hi'. destruct (decide (i' = i)) as [->|Hne]; [exact Hii|].
    etransitivity; [apply Hdiag; lia | exact Hbs].
Qed.

Lemma rows_scan : forall i,
  (i <= length a)%nat ->
  exists d bs tbl,
    fold_left (Difflib.scan_i a a 0 (length a)) (seq 0 i) ((O, O, O), ∅) = ((d, d, bs), tbl)
    /\ (d + bs <= i)%nat
    /\ (forall i', (i' < i)%nat -> (common_run a i' i' <= bs)%nat)
    /\ table_of a i tbl.
Proof.
  induction i as [|i IH]; intros Hi.
  - exists O, O, ∅. split; [reflexivity|]. split; [lia|]. split; [lia|].
    intros j. rewrite lookup_empty. reflexivity.
  - destruct IH as (d & bs & tbl & E & Hd & Hdiag & Htbl); [lia|].
    rewrite seq_S, fold_left_app, E. cbn [fold_left plus].
    apply row_step; auto with arith.
Qed.

Lemma extend_left_diagonal : forall d bs,
  Difflib.extend_left a a d 0 0 d d bs = (O, O, (bs + d)%nat).
Proof.
  induction d as [|d IH]; intros bs; cbn [Difflib.extend_left].
  - f_equal. lia.
  - replace (S d - 1)%nat with d by lia.
    rewrite Ascii.eqb_refl.
    assert ((0 <? S d)%nat = true) as -> by (apply Nat.ltb_lt; lia).
    cbn [andb]. rewrite IH. f_equal. lia.
Qed.

Lemma extend_right_diagonal : forall fuel k,
  (k <= length a)%nat -> (length a - k <= fuel)%nat ->
  Difflib.extend_right a a fuel (length a) (length a) 0 0 k = length a.
Proof.
  induction fuel as [|fuel IH]; intros k Hk Hf; cbn [Difflib.extend_right plus].
  - lia.
  - rewrite Ascii.eqb_refl, andb_true_r, andb_diag.
    destruct (k <? length a)%nat eqn:E.
    + apply Nat.ltb_lt in E. apply IH; lia.
    + apply Nat.ltb_ge in E. lia.
Qed.

Lemma find_longest_match_identical :
  Difflib.find_longest_match a a 0 (length a) 0 (length a) = (O, O, length a).
Proof.
  unfold Difflib.find_longest_match. rewrite Nat.sub_0_r.
  destruct (rows_scan (length a)) as (d & bs & tbl & E & Hd & _); [lia|].
  rewrite E, extend_left_diagonal, extend_right_diagonal by lia. reflexivity.
Qed.

Lemma total_matches_identical : Difflib.total_matches a a = length a.
Proof.
  unfold Difflib.total_matches. cbn [Difflib.matches].
  rewrite find_longest_match_identical.
  destruct (length a =? 0)%nat eqn:E.
  - apply Nat.eqb_eq in E. lia.
  - rewrite Nat.add_0_l, !Nat.ltb_irrefl. cbn [andb]. lia.
Qed.

End Identical.

Lemma ratio_identical (x : string) : (Difflib.ratio x x == 1)%Q.
Proof.
  unfold Difflib.ratio. cbv zeta. rewrite total_matches_identical.
  set (n := length (list_ascii_of_string x)).
  destruct (n + n =? 0)%nat eqn:E; [reflexivity|].
  apply Nat.eqb_neq in E.
  unfold Qeq. cbn [Qnum Qden]. rewrite Z.mul_1_r, Z.mul_1_l.
  assert (H : Z.pos (Pos.of_nat (n + n)) = Z.of_nat (n + n)).
  { rewrite <- positive_nat_Z, Nat2Pos.id by exact E. reflexivity. }
  rewrite H. lia.
Qed.

(** The model's pattern matches the semantic keys of the model, and no
    exact key. *)

Section GlobPrefix.

Local Open Scope list_scope.

Lemma list_ascii_of_string_app (x y : string) :
  list_ascii_of_string (x +:+ y) = list_ascii_of_string x ++ list_ascii_of_string y.
Proof. induction x as [|c x IH]; simpl; [reflexivity | rewrite IH; reflexivity]. Qed.

Lemma glob_literal : forall pre, forallb plain_char pre = true ->
  forall f p s, Glob.glob (length pre + f) (pre ++ p) (pre ++ s) = Glob.glob f p s.
Proof.
  induction pre as [|x pre IH]; intros Hpre f p s; [reflexivity|].
  cbn [forallb] in Hpre. apply andb_true_iff in Hpre as [Hx Hpre].
  unfold plain_char in Hx. apply negb_true_iff in Hx.
  apply orb_false_iff in Hx as [Hx H4]. apply orb_false_iff in Hx as [Hx H3].
  apply orb_false_iff in Hx as [H1 H2].
  cbn [length plus app Glob.glob]. rewrite H1, H2, H3, H4, Ascii.eqb_refl.
  cbn [andb]. apply IH, Hpre.
Qed.

Lemma glob_star_end (s : list ascii) : Glob.glob 2 ["*"%char] s = true.
Proof. induction s as [|c s IH]; [reflexivity|]. simpl. simpl in IH. exact IH. Qed.

Lemma index_pattern_matches (model_id rest : string) :
  plain model_id = true ->
  Glob.matches ("semantic_index:" +:+ model_id +:+ ":*")
    ("semantic_index:" +:+ model_id +:+ ":" +:+ rest) = true.
Proof.
  intros Hm. unfold Glob.matches.
  set (pre := list_ascii_of_string "semantic_index:" ++ list_ascii_of_string model_id
              ++ [":"%char]).
  assert (Hp : list_ascii_of_string ("semantic_index:" +:+ model_id +:+ ":*")
               = pre ++ ["*"%char]).
  { rewrite !list_ascii_of_string_app. unfold pre. rewrite <- !app_assoc. reflexivity. }
  assert (Hs : list_ascii_of_string ("semantic_index:" +:+ model_id +:+ ":" +:+ rest)
               = pre ++ list_ascii_of_string rest).
  { rewrite !list_ascii_of_string_app. unfold pre. rewrite <- !app_assoc. reflexivity. }
  rewrite Hp, Hs, length_app. cbn [length].
  replace (S (length pre + 1)) with (length pre + 2)%nat by lia.
  rewrite glob_literal; [apply glob_star_end|].
  unfold pre. rewrite !forallb_app. cbn [forallb]. 
  unfold plain in Hm. rewrite Hm. reflexivity.
Qed.

Lemma index_pattern_not_exact (model_id rest : string) :
  Glob.matches ("semantic_index:" +:+ model_id +:+ ":*") ("claude_cache:" +:+ rest) = false.
Proof. reflexivity. Qed.

End GlobPrefix.

Section SemanticHit.

Context {response : Type} {json : Json_reading response}.

Local Open Scope list_scope.

Implicit Types (s : SmartCache response) (ks : Redis.keyspace (cache_entry response)).

Lemma cache_response_db model_id messages (r r' : response) max_tokens ttl user_message s :
  cache_available s = true ->
  Redis.healthy (redis s) ->
  Redis.valid_expiry (clock s) ttl = true ->
  json_reading r = Some r' ->
  last_user_message messages = Some user_message ->
  nonempty user_message = true ->
  Redis.lookup (clock s) (semantic_index_key model_id user_message) (Redis.db (redis s)) = None ->
  let key := _generate_cache_key model_id messages max_tokens in
  let skey := semantic_index_key model_id user_message in
  let h : gmap string string :=
    list_to_map [("message", user_message); ("response_key", key);
                 ("created", isoformat (clock s))] in
  let s1 := snd (cache_response model_id messages r max_tokens ttl s) in
  cache_available s1 = true /\ clock s1 = clock s /\ Redis.healthy (redis s1)
  /\ Redis.db (redis s1)
     = Redis.store skey (Redis.Entry (Redis.Hash h) (Some (clock s + ttl)))
         (Redis.store skey (Redis.Entry (Redis.Hash h) None)
            (Redis.store key
               (Redis.Entry (Redis.Str (CacheEntry r' (isoformat (clock s)) model_id ttl None))
                  (Some (clock s + ttl)))
               (Redis.db (redis s)))).
Proof.
  intros Hav Hh Hvalid Hr Hum Hne Hlook. cbv zeta.
  pose proof (valid_expiry_positive _ _ Hvalid) as Httl.
  pose proof (valid_expiry_in_range _ _ Hvalid) as Hin.
  set (key := _generate_cache_key model_id messages max_tokens).
  set (skey := semantic_index_key model_id user_message) in *.
  assert (Hneg : (ttl <=? 0) = false) by (apply Z.leb_gt; lia).
  unfold cache_response.
  erewrite bind_returned by reflexivity. cbv beta.
  erewrite bind_returned.
  2:{ apply store_in_cache_stored with
        (v := CacheEntry r (isoformat (clock s)) model_id ttl None)
        (text := CacheEntry r' (isoformat (clock s)) model_id ttl None);
        [exact Hav | exact Hh | | apply json_dumps_new, Hr | exact Hvalid].
      simpl. rewrite lookup_app_r by lia. rewrite Nat.sub_diag. reflexivity. }
  rewrite Hum, Hne. fold key.
  set (s0 := set_redis _ _).
  assert (Hh0 : Redis.healthy (redis s0)) by (apply tail_healthy, Hh).
  unfold _create_semantic_index.
  change (cache_available s0) with (cache_available s). rewrite Hav. cbn [negb]. cbv iota.
  fold skey. unfold try_except, bind.
  rewrite redis_call_healthy by exact Hh0.
  unfold Redis.HSET.
  assert (Hl0 : Redis.lookup (clock s0) skey (Redis.db (redis s0)) = None).
  { unfold Redis.lookup in *. unfold s0. cbn [clock set_redis redis Redis.db].
    rewrite find_store_other; [exact Hlook|].
    intros Heq. symmetry in Heq.
    exact (index_key_not_cache_key model_id user_message model_id messages max_tokens Heq). }
  rewrite Hl0. cbn [fst snd].
  rewrite redis_call_healthy by (apply tail_healthy, Hh0).
  cbn [clock set_redis redis Redis.db].
  unfold Redis.EXPIRE, Redis.lookup.
  change (clock s0) with (clock s). rewrite Hin. cbn [negb]. rewrite find_store_same.
  unfold Redis.live. cbn [Redis.expire_at]. rewrite Hneg.
  unfold ret. cbn [fst snd set_redis redis Redis.db cache_available clock].
  split; [exact Hav|]. split; [reflexivity|].
  split; [apply tail_healthy, tail_healthy, Hh0 | reflexivity].
Qed.

Lemma live_earlier (t t' : Z) (e : Redis.entry (cache_entry response)) :
  t <= t' -> Redis.live t' e = true -> Redis.live t e = true.
Proof.
  unfold Redis.live. destruct (Redis.expire_at e) as [x|]; [|reflexivity].
  rewrite !Z.ltb_lt. lia.
Qed.

Lemma find_In k ks (e : Redis.entry (cache_entry response)) :
  Redis.find k ks = Some e -> In (k, e) ks.
Proof.
  induction ks as [|[k' e'] ks IH]; simpl; [discriminate|].
  destruct (String.eqb k k') eqn:E.
  - apply String.eqb_eq in E. intros [= ->]. subst. left. reflexivity.
  - intros H. right. exact (IH H).
Qed.

Lemma remove_In k ks (kv : string * Redis.entry (cache_entry response)) :
  In kv (Redis.remove k ks) -> In kv ks /\ fst kv <> k.
Proof.
  unfold Redis.remove. rewrite filter_In. intros [H1 H2]. split; [exact H1|].
  apply negb_true_iff in H2. intros Heq. rewrite Heq, String.eqb_refl in H2. discriminate.
Qed.

Lemma filter_nil {A} (P : A -> bool) (l : list A) :
  (forall x, In x l -> P x = false) -> List.filter P l = [].
Proof.
  induction l as [|x l IH]; intros H; simpl; [reflexivity|].
  rewrite (H x) by (left; reflexivity). apply IH. intros y Hy. apply H. right. exact Hy.
Qed.

Lemma scanned_keys_nil model_id t ks :
  scanned_keys model_id t ks = [] ->
  forall kv, In kv ks ->
    Redis.live t (snd kv) && Glob.matches ("semantic_index:" +:+ model_id +:+ ":*") (fst kv)
    = false.
Proof.
  unfold scanned_keys. intros H kv Hin.
  destruct (Redis.live t (snd kv) && Glob.matches _ (fst kv)) eqn:E; [|reflexivity].
  assert (Hf : In kv (List.filter
              (fun kv => Redis.live t (snd kv)
                         && Glob.matches ("semantic_index:" +:+ model_id +:+ ":*") (fst kv))
              ks)).
  { apply filter_In. split; [exact Hin | exact E]. }
  destruct (List.filter _ ks) as [|x l]; [destruct Hf | discriminate].
Qed.

Lemma stored_doc_later (t t' : Z) ks k :
  t <= t' -> @stored_doc response t ks k = None -> @stored_doc response t' ks k = None.
Proof.
  unfold stored_doc, Redis.lookup. intros Ht.
  destruct (Redis.find k ks) as [e|]; [|reflexivity].
  destruct (Redis.live t' e) eqn:E'; [|reflexivity].
  rewrite (live_earlier t t' e Ht E'). auto.
Qed.

Lemma lower_nonempty (x : string) : nonempty (Text.lower x) = nonempty x.
Proof. destruct x; reflexivity. Qed.

(** The server after [cache_response] on an empty index of the model,
    [elapsed] seconds later and before the expiry. *)
Lemma index_after_put model_id messages (r r' : response) max_tokens ttl user_message
    (elapsed : Z) s :
  cache_available s = true ->
  Redis.healthy (redis s) ->
  Redis.valid_expiry (clock s) ttl = true ->
  json_reading r = Some r' ->
  plain model_id = true ->
  scanned_keys model_id (clock s) (Redis.db (redis s)) = [] ->
  last_user_message messages = Some user_message ->
  nonempty user_message = true ->
  0 <= elapsed < ttl ->
  let key := _generate_cache_key model_id messages max_tokens in
  let skey := semantic_index_key model_id user_message in
  let s1 := snd (cache_response model_id messages r max_tokens ttl s) in
  let now := clock s + elapsed in
  (cache_available s1 = true /\ clock s1 = clock s /\ Redis.healthy (redis s1))
  /\ scanned_keys model_id now (Redis.db (redis s1)) = [skey]
  /\ (exists h,
        Redis.lookup now skey (Redis.db (redis s1))
        = Some (Redis.Entry (Redis.Hash h) (Some (clock s + ttl)))
        /\ h !! "message" = Some user_message
        /\ h !! "response_key" = Some key)
  /\ stored_doc now (Redis.db (redis s1)) key
     = Some (CacheEntry r' (isoformat (clock s)) model_id ttl None)
  /\ (forall k, k <> key -> k <> skey ->
        Redis.find k (Redis.db (redis s1)) = Redis.find k (Redis.db (redis s))).
Proof.
  intros Hav Hh Hvalid Hr Hplain Hidx Hum Hne Hel. cbv zeta.
  set (key := _generate_cache_key model_id messages max_tokens).
  set (skey := semantic_index_key model_id user_message).
  set (pat := "semantic_index:" +:+ model_id +:+ ":*").
  assert (Hmatch : Glob.matches pat skey = true).
  { apply index_pattern_matches, Hplain. }
  assert (Hnomatch : Glob.matches pat key = false).
  { apply index_pattern_not_exact. }
  assert (Hkeys : key <> skey).
  { apply index_key_not_cache_key. }
  pose proof (scanned_keys_nil model_id (clock s) (Redis.db (redis s)) Hidx) as Hnone.
  fold pat in Hnone.
  assert (Hlook : Redis.lookup (clock s) skey (Redis.db (redis s)) = None).
  { unfold Redis.lookup. destruct (Redis.find skey (Redis.db (redis s))) as [e|] eqn:Ef;
      [|reflexivity].
    apply find_In in Ef. apply Hnone in Ef. cbn [fst snd] in Ef.
    rewrite Hmatch, andb_true_r in Ef. rewrite Ef. reflexivity. }
  destruct (cache_response_db model_id messages r r' max_tokens ttl user_message s
              Hav Hh Hvalid Hr Hum Hne Hlook) as (Hav1 & Hc1 & Hh1 & Hdb).
  fold key skey in Hdb.
  split; [auto|]. rewrite Hdb.
  set (h := list_to_map [("message", user_message); ("response_key", key);
                         ("created", isoformat (clock s))] : gmap string string) in *.
  destruct (mapping_fields user_message key (isoformat (clock s)) ∅) as [(M1 & M2 & _) _].
  fold h in M1, M2.
  assert (Hlive : (clock s + elapsed <? clock s + ttl) = true) by (apply Z.ltb_lt; lia).
  split; [|split; [|split]].
  - unfold scanned_keys. fold pat.
    unfold Redis.store at 1. cbn [List.filter fst snd].
    unfold Redis.live at 1. cbn [Redis.expire_at]. rewrite Hlive, Hmatch. cbn [andb].
    rewrite filter_nil; [reflexivity|].
    intros kv Hin. apply remove_In in Hin as [Hin Hk1].
    unfold Redis.store at 1 in Hin. destruct Hin as [<-|Hin]; [exfalso; apply Hk1; reflexivity|].
    apply remove_In in Hin as [Hin _].
    unfold Redis.store in Hin. destruct Hin as [<-|Hin].
    + cbn [fst snd]. rewrite Hnomatch. apply andb_false_r.
    + apply remove_In in Hin as [Hin _].
      specialize (Hnone kv Hin).
      destruct (Redis.live (clock s + elapsed) (snd kv)) eqn:El; [|reflexivity].
      rewrite (live_earlier (clock s) (clock s + elapsed) (snd kv)) in Hnone by (lia || exact El).
      exact Hnone.
  - exists h. unfold Redis.lookup. rewrite find_store_same.
    unfold Redis.live. cbn [Redis.expire_at]. rewrite Hlive. auto.
  - unfold stored_doc, Redis.lookup.
    rewrite !find_store_other by exact Hkeys. rewrite find_store_same.
    unfold Redis.live. cbn [Redis.expire_at]. rewrite Hlive. reflexivity.
  - intros k Hk1 Hk2. rewrite !find_store_other by assumption. reflexivity.
Qed.

(** A miss on the exact key hands the call over to the scan. *)
Lemma get_cached_response_scans model_id messages max_tokens threshold user_message s :
  cache_available s = true ->
  Redis.healthy (redis s) ->
  stored_doc (clock s) (Redis.db (redis s))
    (_generate_cache_key model_id messages max_tokens) = None ->
  last_user_message messages = Some user_message ->
  nonempty user_message = true ->
  Forall (record_ok (clock s) (Redis.db (redis s)))
    (scanned_keys model_id (clock s) (Redis.db (redis s))) ->
  semantic_outcome threshold
    (candidates user_message model_id (clock s) (Redis.db (redis s)))
    (clock s) (Redis.db (redis s)) (with_cache_type "semantic_match")
    (get_cached_response model_id messages max_tokens threshold s).
Proof.
  intros Hav Hh Hmiss Hum Hne Hok.
  unfold get_cached_response.
  erewrite bind_returned by reflexivity. cbv beta.
  match goal with |- context [bind (_get_from_cache ?key) _ ?s0] =>
    destruct (get_from_cache_deref key s0 Hav Hh) as (bm & s1 & E1 & F1 & T1);
    set (st0 := s0) in *
  end.
  change (clock st0) with (clock s) in T1.
  change (Redis.db (redis st0)) with (Redis.db (redis s)) in T1.
  unfold tracks in T1. rewrite Hmiss in T1. subst bm.
  erewrite bind_returned by exact E1. cbv beta iota.
  rewrite Hum, Hne.
  pose proof F1 as (Ha1 & Hc1 & Hd1 & Hh1 & Hx1).
  change (cache_available st0) with (cache_available s) in Ha1.
  change (clock st0) with (clock s) in Hc1.
  change (Redis.db (redis st0)) with (Redis.db (redis s)) in Hd1.
  change (redis st0) with (redis s) in Hh1.
  destruct (find_similar_outcome user_message model_id threshold s1) as (s2 & F2 & E2 & O2).
  { congruence. }
  { auto. }
  { rewrite Hc1, Hd1. exact Hok. }
  rewrite Hc1, Hd1 in O2.
  destruct (_find_similar_cached_response user_message model_id threshold s1) as [o r2] eqn:G2.
  simpl in E2. subst r2.
  unfold semantic_outcome in *. cbn [fst snd] in O2.
  destruct O2 as [(i & q & rk & Hfg & Hthr & Hpos & Hres) | (Hall & Hres)].
  - left. exists i, q, rk.
    split; [exact Hfg|]. split; [exact Hthr|]. split; [exact Hpos|].
    destruct (stored_doc (clock s) (Redis.db (redis s)) rk) as [v|].
    + destruct Hres as (l & -> & Hl).
      erewrite bind_returned by exact G2. cbv beta iota.
      do 2 (erewrite bind_returned by reflexivity).
      exists l. split; [reflexivity|]. simpl.
      rewrite list_lookup_alter_eq, Hl. reflexivity.
    + subst o. erewrite bind_returned by exact G2. reflexivity.
  - right. split; [exact Hall|].
    subst o. erewrite bind_returned by exact G2. reflexivity.
Qed.

(** X13: the question of a stored request, asked again in another request
    of the same model, is answered from the semantic index.  On a healthy
    server whose index holds nothing for the model, whose identifier has
    no glob character, [cache_response] stores a request with a TTL that
    the server accepts and a response that [json.dumps] accepts; a second
    request whose last user message is the same up to letter case, whose
    exact key is another one with nothing stored under it, gets the stored
    entry back before it expires, as [json.loads] reads it and tagged
    [semantic_match], at any threshold up to 1. *)
Theorem repeated_question_semantic_hit (model_id : string) (messages messages' : list message)
    (r r' : response) (max_tokens max_tokens' : option Z) (ttl : Z) (threshold : Q)
    (elapsed : Z) (user_message user_message' : string) (s : SmartCache response) :
  cache_available s = true ->
  Redis.healthy (redis s) ->
  Redis.valid_expiry (clock s) ttl = true ->
  json_reading r = Some r' ->
  plain model_id = true ->
  scanned_keys model_id (clock s) (Redis.db (redis s)) = [] ->
  last_user_message messages = Some user_message ->
  nonempty user_message = true ->
  last_user_message messages' = Some user_message' ->
  Text.lower user_message' = Text.lower user_message ->
  _generate_cache_key model_id messages' max_tokens'
  <> _generate_cache_key model_id messages max_tokens ->
  stored_doc (clock s) (Redis.db (redis s))
    (_generate_cache_key model_id messages' max_tokens') = None ->
  0 <= elapsed < ttl ->
  (threshold <= 1)%Q ->
  let s1 := snd (cache_response model_id messages r max_tokens ttl s) in
  returned_entry
    (get_cached_response model_id messages' max_tokens' threshold (tick elapsed s1))
  = Some (CacheEntry r' (isoformat (clock s)) model_id ttl (Some "semantic_match")).
Proof.
  intros Hav Hh Hvalid Hr Hplain Hidx Hum Hne Hum' Hlow Hkey Hfree Hel Hthr. cbv zeta.
  destruct (index_after_put model_id messages r r' max_tokens ttl user_message elapsed s
              Hav Hh Hvalid Hr Hplain Hidx Hum Hne Hel)
    as ((Hav1 & Hc1 & Hh1) & Hscan & (h & Hrec & Hm & Hrk) & Hdoc & Hother).
  set (key := _generate_cache_key model_id messages max_tokens) in *.
  set (key' := _generate_cache_key model_id messages' max_tokens') in *.
  set (skey := semantic_index_key model_id user_message) in *.
  set (s1 := snd (cache_response model_id messages r max_tokens ttl s)) in *.
  set (s2 := tick elapsed s1).
  assert (Hc2 : clock s2 = clock s + elapsed) by (unfold s2, tick; simpl; lia).
  assert (Hd2 : Redis.db (redis s2) = Redis.db (redis s1)) by reflexivity.
  assert (Hne' : nonempty user_message' = true).
  { rewrite <- lower_nonempty, Hlow, lower_nonempty. exact Hne. }
  assert (Hmiss : stored_doc (clock s2) (Redis.db (redis s2)) key' = None).
  { rewrite Hc2, Hd2.
    rewrite (stored_doc_same_find _ key' (Redis.db (redis s)) (Redis.db (redis s1))).
    - apply (stored_doc_later (clock s)); [lia | exact Hfree].
    - apply Hother; [exact Hkey|]. apply index_key_not_cache_key. }
  assert (Hcands : candidates user_message' model_id (clock s2) (Redis.db (redis s2))
                   = [(Difflib.ratio (Text.lower user_message) (Text.lower user_message), key)]).
  { unfold candidates. rewrite Hc2, Hd2, Hscan. cbn [omap list_omap].
    unfold candidate, record_field. rewrite Hrec, Hm, Hrk, Hne, Hlow. reflexivity. }
  pose proof (get_cached_response_scans model_id messages' max_tokens' threshold
                user_message' s2) as Hout.
  rewrite Hcands in Hout.
  destruct Hout as [(i & q & rk & (Hi & _) & _ & _ & Hres) | (Hall & _)].
  - exact Hav1.
  - exact Hh1.
  - exact Hmiss.
  - exact Hum'.
  - exact Hne'.
  - rewrite Hc2, Hd2, Hscan. constructor; [|constructor].
    exists h, (Some (clock s + ttl)). split; [exact Hrec|].
    intros m _ _. exists key. split; [exact Hrk | reflexivity].
  - destruct i as [|i]; [|destruct i; discriminate].
    injection Hi as <- <-.
    rewrite Hc2, Hd2, Hdoc in Hres. destruct Hres as (l & Hl & Hv).
    unfold returned_entry. rewrite Hl, Hv. reflexivity.
  - exfalso. apply (Hall O _ key eq_refl).
    pose proof (ratio_identical (Text.lower user_message)) as Hq.
    rewrite Hq. split; [exact Hthr | reflexivity].
Qed.

End SemanticHit.

Lemma repeated_question_semantic_hit_witness :
  cache_available networked0 = true
  /\ Redis.healthy (redis networked0)
  /\ Redis.valid_expiry (clock networked0) 3600 = true
  /\ json_reading "R" = Some "R"
  /\ plain "m" = true
  /\ scanned_keys "m" (clock networked0) (Redis.db (redis networked0)) = []
  /\ last_user_message [user "Hi there?"] = Some "Hi there?"
  /\ nonempty "Hi there?" = true
  /\ last_user_message [user "hi THERE?"] = Some "hi THERE?"
  /\ Text.lower "hi THERE?" = Text.lower "Hi there?"
  /\ _generate_cache_key "m" [user "hi THERE?"] (Some 100)
     <> _generate_cache_key "m" [user "Hi there?"] None
  /\ stored_doc (clock networked0) (Redis.db (redis networked0))
       (_generate_cache_key "m" [user "hi THERE?"] (Some 100)) = None
  /\ 0 <= 10 < 3600
  /\ (85 # 100 <= 1)%Q
  /\ returned_entry
       (get_cached_response "m" [user "hi THERE?"] (Some 100) (85 # 100)
          (tick 10 (snd (cache_response "m" [user "Hi there?"] "R" None 3600 networked0))))
     = Some (CacheEntry "R" (isoformat (clock networked0)) "m" 3600 (Some "semantic_match")).
Proof.
  assert (H1 : cache_available networked0 = true) by reflexivity.
  assert (H2 : Redis.healthy (redis networked0)) by (vm_compute; constructor).
  assert (Hv : Redis.valid_expiry (clock networked0) 3600 = true) by reflexivity.
  assert (Hr : json_reading "R" = Some "R") by reflexivity.
  assert (H3 : plain "m" = true) by reflexivity.
  assert (H4 : scanned_keys "m" (clock networked0) (Redis.db (redis networked0)) = [])
    by reflexivity.
  assert (H5 : last_user_message [user "Hi there?"] = Some "Hi there?") by reflexivity.
  assert (H6 : nonempty "Hi there?" = true) by reflexivity.
  assert (H7 : last_user_message [user "hi THERE?"] = Some "hi THERE?") by reflexivity.
  assert (H8 : Text.lower "hi THERE?" = Text.lower "Hi there?") by (vm_compute; reflexivity).
  assert (H9 : _generate_cache_key "m" [user "hi THERE?"] (Some 100)
               <> _generate_cache_key "m" [user "Hi there?"] None)
    by (vm_compute; discriminate).
  assert (H10 : stored_doc (clock networked0) (Redis.db (redis networked0))
                  (_generate_cache_key "m" [user "hi THERE?"] (Some 100)) = None)
    by reflexivity.
  assert (H11 : 0 <= 10 < 3600) by lia.
  assert (H12 : (85 # 100 <= 1)%Q) by (unfold Qle; simpl; lia).
  repeat (split; [assumption|]).
  exact (repeated_question_semantic_hit "m" [user "Hi there?"] [user "hi THERE?"] "R" "R"
           None (Some 100) 3600 (85 # 100) 10 "Hi there?" "hi THERE?" networked0
           H1 H2 Hv Hr H3 H4 H5 H6 H7 H8 H9 H10 H11 H12).
Defined.
